(** * Address book: field validators, contact records, the contact store
      and the upcoming-birthdays query

    A shallow embedding of [task_01_addressbook_state.py].

    Conventions of the embedding.
    - A Python [str] is a [string]; a character is a code point below 256.
      On that range the regular-expression class [\d] is exactly ['0'..'9']
      and [str.isspace] is the set listed in [is_space].
    - A Python [int] is a [Z].
    - A [Field] object is identified with its [value] attribute.
    - Exceptions are values of [exn]; a call that may raise returns a
      [result].  A method of a mutable object is a function from the object
      to a result paired with the object after the call, so that what an
      exception leaves behind is part of the model.
    - [date.today()] is an explicit argument [today]. *)

From Stdlib Require Import ZArith List String Ascii Bool Lia Permutation Sorted.
Import ListNotations.
Local Open Scope string_scope.
Local Open Scope list_scope.
Local Open Scope Z_scope.

(** ** Exceptions and results *)

Inductive exn : Type :=
| ValueError (msg : string)
| TypeError (msg : string)
| OverflowError (msg : string).

Inductive result (A : Type) : Type :=
| Ok (a : A)
| Raise (e : exn).

Arguments Ok {A} a.
Arguments Raise {A} e.

Definition bind {A B : Type} (r : result A) (k : A -> result B) : result B :=
  match r with
  | Ok a => k a
  | Raise e => Raise e
  end.

Notation "x <- r ;; k" := (bind r (fun x => k))
  (at level 61, r at next level, right associativity).

(** ** Strings *)

Definition code (c : ascii) : Z := Z.of_nat (nat_of_ascii c).

(** The class [\d]. *)
Definition is_digit (c : ascii) : bool := (48 <=? code c) && (code c <=? 57).

(** [str.isspace] on one character. *)
Definition is_space (c : ascii) : bool :=
  ((9 <=? code c) && (code c <=? 13))
  || ((28 <=? code c) && (code c <=? 32))
  || (code c =? 133) || (code c =? 160).

(** A character class [[lo-hi]]. *)
Definition in_class (lo hi : ascii) (c : ascii) : bool :=
  (code lo <=? code c) && (code c <=? code hi).

(** [re.sub(r"\D", "", s)]: every character outside [\d] is dropped. *)
Fixpoint digits_only (s : string) : string :=
  match s with
  | EmptyString => EmptyString
  | String c s' => if is_digit c then String c (digits_only s') else digits_only s'
  end.

Fixpoint all_digits (s : string) : bool :=
  match s with
  | EmptyString => true
  | String c s' => is_digit c && all_digits s'
  end.

Fixpoint lstrip (s : string) : string :=
  match s with
  | EmptyString => EmptyString
  | String c s' => if is_space c then lstrip s' else s
  end.

Fixpoint rstrip (s : string) : string :=
  match s with
  | EmptyString => EmptyString
  | String c s' =>
      match rstrip s' with
      | EmptyString => if is_space c then EmptyString else String c EmptyString
      | t => String c t
      end
  end.

(** [s.strip()] *)
Definition strip (s : string) : string := rstrip (lstrip s).

Definition len (s : string) : Z := Z.of_nat (String.length s).

(** ** Field validators *)

(** [Name(value)]: the stored value, or the error raised. *)
Definition Name (value : string) : result string :=
  let value := strip value in
  if (value =? "")%string then Raise (ValueError "Name cannot be empty")
  else Ok value.

(** [Phone(value)] *)
Definition Phone (value : string) : result string :=
  let digits := digits_only value in
  if len digits =? 10 then Ok digits
  else Raise (ValueError "Phone must contain exactly 10 digits").

(** ** The [datetime] library: proleptic Gregorian dates

    Arithmetic follows the reference implementation of the [datetime]
    module ([_is_leap], [_days_before_year], [_days_in_month],
    [_days_before_month], [_ymd2ord], [_ord2ymd]).  Python's [//] and [%]
    with a positive divisor are [Z.div] and [Z.modulo].  The text of the
    messages of the library's exceptions is abbreviated; the source never
    inspects it. *)

Record date : Type := mkdate { year : Z; month : Z; day : Z }.

Definition MINYEAR : Z := 1.
Definition MAXYEAR : Z := 9999.
Definition MAXORDINAL : Z := 3652059.

Definition DAYS_IN_MONTH : list Z :=
  [-1; 31; 28; 31; 30; 31; 30; 31; 31; 30; 31; 30; 31].

Definition DAYS_BEFORE_MONTH : list Z :=
  [-1; 0; 31; 59; 90; 120; 151; 181; 212; 243; 273; 304; 334].

Definition table (t : list Z) (i : Z) : Z := nth (Z.to_nat i) t (-1).

Definition is_leap (y : Z) : bool :=
  (y mod 4 =? 0) && (negb (y mod 100 =? 0) || (y mod 400 =? 0)).

Definition days_before_year (y : Z) : Z :=
  let y := y - 1 in
  y * 365 + y / 4 - y / 100 + y / 400.

Definition days_in_month (y m : Z) : Z :=
  if (m =? 2) && is_leap y then 29 else table DAYS_IN_MONTH m.

Definition days_before_month (y m : Z) : Z :=
  table DAYS_BEFORE_MONTH m + (if (2 <? m) && is_leap y then 1 else 0).

Definition ymd2ord (y m d : Z) : Z :=
  days_before_year y + days_before_month y m + d.

Definition DI400Y : Z := 146097.
Definition DI100Y : Z := 36524.
Definition DI4Y : Z := 1461.

(** The end of [_ord2ymd]: the month and the day of the month of the
    day number [n] (counted from 0) of a year. *)
Definition month_day (leapyear : bool) (n : Z) : Z * Z :=
  let m := Z.shiftr (n + 50) 5 in
  let preceding :=
    table DAYS_BEFORE_MONTH m + (if (2 <? m) && leapyear then 1 else 0) in
  if n <? preceding then
    let m := m - 1 in
    let preceding :=
      preceding
      - (table DAYS_IN_MONTH m + (if (m =? 2) && leapyear then 1 else 0)) in
    (m, n - preceding + 1)
  else (m, n - preceding + 1).

(** [_ord2ymd(n)] *)
Definition ord2ymd (n : Z) : date :=
  let n := n - 1 in
  let n400 := n / DI400Y in
  let n := n mod DI400Y in
  let y := n400 * 400 + 1 in
  let n100 := n / DI100Y in
  let n := n mod DI100Y in
  let n4 := n / DI4Y in
  let n := n mod DI4Y in
  let n1 := n / 365 in
  let n := n mod 365 in
  let y := y + (n100 * 100 + n4 * 4 + n1) in
  if (n1 =? 4) || (n100 =? 4) then mkdate (y - 1) 12 31
  else
    let leapyear := (n1 =? 3) && (negb (n4 =? 24) || (n100 =? 3)) in
    let (m, d) := month_day leapyear n in
    mkdate y m d.

(** [date(year, month, day)] *)
Definition date_new (y m d : Z) : result date :=
  if negb ((MINYEAR <=? y) && (y <=? MAXYEAR))
  then Raise (ValueError "year is out of range")
  else if negb ((1 <=? m) && (m <=? 12))
  then Raise (ValueError "month must be in 1..12")
  else if negb ((1 <=? d) && (d <=? days_in_month y m))
  then Raise (ValueError "day is out of range for month")
  else Ok (mkdate y m d).

(** The values a [date] object can hold. *)
Definition valid_date (d : date) : bool :=
  (MINYEAR <=? year d) && (year d <=? MAXYEAR)
  && (1 <=? month d) && (month d <=? 12)
  && (1 <=? day d) && (day d <=? days_in_month (year d) (month d)).

(** [d.toordinal()] *)
Definition toordinal (d : date) : Z := ymd2ord (year d) (month d) (day d).

(** [date.fromordinal(n)] *)
Definition fromordinal (n : Z) : date := ord2ymd n.

(** [d.weekday()]: Monday is 0, Sunday is 6. *)
Definition weekday (d : date) : Z := (toordinal d + 6) mod 7.

(** [a < b]: dates compare as their (year, month, day) triples. *)
Definition date_ltb (a b : date) : bool :=
  (year a <? year b)
  || ((year a =? year b)
      && ((month a <? month b)
          || ((month a =? month b) && (day a <? day b)))).

(** [(a - b).days] *)
Definition days_between (a b : date) : Z := toordinal a - toordinal b.

(** [d + timedelta(days=k)] *)
Definition date_add_days (d : date) (k : Z) : result date :=
  let o := toordinal d + k in
  if (0 <? o) && (o <=? MAXORDINAL) then Ok (fromordinal o)
  else Raise (OverflowError "date value out of range").


(** ** [strftime] and [strptime] for the format ["%d.%m.%Y"]

    [strftime] zero-pads the day and the month to two digits and writes
    the year as the C library behind it does for [%Y]: in decimal without
    padding, hence with fewer than four digits before the year 1000.
    [strptime] matches the regular
    expression the library builds for the format,

      (?P<d>3[0-1]|[1-2]\d|0[1-9]|[1-9]| [1-9])\.(?P<m>1[0-2]|0[1-9]|[1-9])\.(?P<Y>\d\d\d\d)

    rejects unconverted trailing data and builds the date from the groups.
    A sub-pattern maps the input to the list of its matches (matched text
    and remaining input) in the order a backtracking matcher tries them. *)

Definition digit_char (n : Z) : ascii := ascii_of_nat (Z.to_nat (48 + n)).

Definition zfill2 (n : Z) : string :=
  String (digit_char (n / 10)) (String (digit_char (n mod 10)) EmptyString).

Definition zfill4 (n : Z) : string :=
  String (digit_char (n / 1000))
    (String (digit_char ((n / 100) mod 10))
       (String (digit_char ((n / 10) mod 10))
          (String (digit_char (n mod 10)) EmptyString))).

Definition zfill3 (n : Z) : string :=
  String (digit_char (n / 100))
    (String (digit_char ((n / 10) mod 10))
       (String (digit_char (n mod 10)) EmptyString)).

(** [%Y]: the year of a date (1..9999) in decimal, not padded. *)
Definition str_year (n : Z) : string :=
  if n <? 10 then String (digit_char n) EmptyString
  else if n <? 100 then zfill2 n
  else if n <? 1000 then zfill3 n
  else zfill4 n.

(** [d.strftime("%d.%m.%Y")] *)
Definition strftime (d : date) : string :=
  (zfill2 (day d) ++ "." ++ zfill2 (month d) ++ "." ++ str_year (year d))%string.

(** [int(s)] on a matched group: decimal digits, blanks ignored. *)
Fixpoint int_acc (acc : Z) (s : string) : Z :=
  match s with
  | EmptyString => acc
  | String c s' =>
      int_acc (if is_digit c then 10 * acc + (code c - 48) else acc) s'
  end.

Definition py_int (s : string) : Z := int_acc 0 s.

Definition is_char (a : ascii) (c : ascii) : bool := (code a =? code c).

Definition one_char (p : ascii -> bool) (s : string) : list (string * string) :=
  match s with
  | String a r => if p a then [(String a EmptyString, r)] else []
  | _ => []
  end.

Definition two_chars (p q : ascii -> bool) (s : string)
  : list (string * string) :=
  match s with
  | String a (String b r) =>
      if p a && q b then [(String a (String b EmptyString), r)] else []
  | _ => []
  end.

Definition re_d (s : string) : list (string * string) :=
  two_chars (is_char "3") (in_class "0" "1") s
  ++ two_chars (in_class "1" "2") is_digit s
  ++ two_chars (is_char "0") (in_class "1" "9") s
  ++ one_char (in_class "1" "9") s
  ++ two_chars (is_char " ") (in_class "1" "9") s.

Definition re_m (s : string) : list (string * string) :=
  two_chars (is_char "1") (in_class "0" "2") s
  ++ two_chars (is_char "0") (in_class "1" "9") s
  ++ one_char (in_class "1" "9") s.

Definition re_Y (s : string) : list (string * string) :=
  match s with
  | String a (String b (String c (String d r))) =>
      if is_digit a && is_digit b && is_digit c && is_digit d
      then [(String a (String b (String c (String d EmptyString))), r)]
      else []
  | _ => []
  end.

Definition re_dot (s : string) : list string :=
  match s with
  | String a r => if is_char "." a then [r] else []
  | _ => []
  end.

(** All matches of the whole expression at the start of [s], in the
    matcher's order: the groups [d], [m], [Y] and the unmatched rest. *)
Definition format_regex_matches (s : string)
  : list (string * string * string * string) :=
  flat_map (fun dr1 =>
    flat_map (fun r2 =>
      flat_map (fun mr3 =>
        flat_map (fun r4 =>
          map (fun yr5 => (fst dr1, fst mr3, fst yr5, snd yr5)) (re_Y r4))
          (re_dot (snd mr3)))
        (re_m r2))
      (re_dot (snd dr1)))
    (re_d s).

(** [datetime.strptime(s, "%d.%m.%Y").date()] *)
Definition strptime (s : string) : result date :=
  match format_regex_matches s with
  | [] => Raise (ValueError "time data does not match format")
  | (d, m, y, rest) :: _ =>
      match rest with
      | EmptyString => date_new (py_int y) (py_int m) (py_int d)
      | _ => Raise (ValueError "unconverted data remains")
      end
  end.

(** ** [Birthday] *)

(** The arguments [Birthday] distinguishes: a [date], a [datetime] (of
    which only the date part is kept here), a [str], anything else. *)
Inductive pyvalue : Type :=
| VDate (d : date)
| VDateTime (d : date)
| VStr (s : string)
| VOther.

(** What [_parse_birthday] hands back: [isinstance(value, date)] also
    holds for a [datetime], which is returned as it is; the branch for
    [datetime] that follows is never reached. *)
Inductive parsed : Type :=
| PDate (d : date)
| PDateTime (d : date).

Definition invalid_format : exn :=
  ValueError "Invalid date format. Use DD.MM.YYYY".

(** [Birthday._parse_birthday(value)] *)
Definition parse_birthday (value : pyvalue) : result parsed :=
  match value with
  | VDate d => Ok (PDate d)
  | VDateTime d => Ok (PDateTime d)
  | VStr s =>
      match strptime (strip s) with
      | Ok d => Ok (PDate d)
      | Raise (ValueError _) => Raise invalid_format
      | Raise e => Raise e
      end
  | VOther => Raise invalid_format
  end.

(** [Birthday(value)]: the stored date.  Ordering a [datetime] against a
    [date] raises [TypeError]. *)
Definition Birthday (today : date) (value : pyvalue) : result date :=
  p <- parse_birthday value ;;
  match p with
  | PDateTime _ =>
      Raise (TypeError "can't compare datetime.datetime to datetime.date")
  | PDate d =>
      if date_ltb today d
      then Raise (ValueError "Birthday cannot be in the future")
      else Ok d
  end.

(** [Birthday.__str__] *)
Definition Birthday_str (b : date) : string := strftime b.

(** ** Python lists and dicts

    A [list] is a [list]; [pop(i)] and item assignment are only reached
    with an index produced by [enumerate] over the same list, hence in
    range.  A [dict] with string keys is the list of its items in insertion
    order: assigning to a present key keeps the item's place, assigning to
    an absent one appends. *)

Definition list_pop {A : Type} (i : nat) (l : list A) : list A :=
  firstn i l ++ skipn (S i) l.

Definition list_setitem {A : Type} (i : nat) (v : A) (l : list A) : list A :=
  firstn i l ++ v :: skipn (S i) l.

(** [l.remove(x)]: the first item equal to [x] goes. *)
Fixpoint list_remove (x : string) (l : list string) : list string :=
  match l with
  | [] => []
  | y :: l' => if (y =? x)%string then l' else y :: list_remove x l'
  end.

Fixpoint dict_set {V : Type} (k : string) (v : V) (d : list (string * V))
  : list (string * V) :=
  match d with
  | [] => [(k, v)]
  | (k', v') :: d' =>
      if (k' =? k)%string then (k', v) :: d' else (k', v') :: dict_set k v d'
  end.

Fixpoint dict_get {V : Type} (k : string) (d : list (string * V)) : option V :=
  match d with
  | [] => None
  | (k', v') :: d' => if (k' =? k)%string then Some v' else dict_get k d'
  end.

Definition dict_contains {V : Type} (k : string) (d : list (string * V)) : bool :=
  match dict_get k d with Some _ => true | None => false end.

Fixpoint dict_del {V : Type} (k : string) (d : list (string * V))
  : list (string * V) :=
  match d with
  | [] => []
  | (k', v') :: d' => if (k' =? k)%string then d' else (k', v') :: dict_del k d'
  end.

Definition dict_keys {V : Type} (d : list (string * V)) : list string :=
  map fst d.

Definition dict_values {V : Type} (d : list (string * V)) : list V :=
  map snd d.

(** ** [Record] *)

Record Rec : Type := mkRec {
  name : string;
  phones : list string;
  birthday : option date
}.

(** A method of [Record]: the value returned or the exception raised,
    and the object after the call. *)
Definition method (A : Type) : Type := Rec -> result A * Rec.

(** [Record(name)] *)
Definition Record_new (nm : string) : result Rec :=
  v <- Name nm ;; Ok (mkRec v [] None).

Definition set_phones (self : Rec) (ps : list string) : Rec :=
  mkRec (name self) ps (birthday self).

Definition set_birthday (self : Rec) (b : date) : Rec :=
  mkRec (name self) (phones self) (Some b).

(** [any(x.value == v for x in self.phones)] *)
Definition any_value (v : string) (ps : list string) : bool :=
  existsb (fun x => (x =? v)%string) ps.

Definition add_phone (phone : string) : method unit := fun self =>
  match Phone phone with
  | Raise e => (Raise e, self)
  | Ok p =>
      if negb (any_value p (phones self))
      then (Ok tt, set_phones self (phones self ++ [p]))
      else (Ok tt, self)
  end.

(** [find_phone] returns the stored phone or [None] and mutates nothing. *)
Definition find_phone (phone : string) (self : Rec) : option string :=
  let digits := digits_only phone in
  find (fun p => (p =? digits)%string) (phones self).

Definition remove_phone (phone : string) : method bool := fun self =>
  match find_phone phone self with
  | Some target => (Ok true, set_phones self (list_remove target (phones self)))
  | None => (Ok false, self)
  end.

(** The [for i, p in enumerate(self.phones)] loop of [edit_phone]: [rest]
    is what is left to visit, [i] the index of its head in [ps]. *)
Fixpoint edit_phone_loop (old_digits new_p : string) (ps : list string)
  (i : nat) (rest : list string) : bool * list string :=
  match rest with
  | [] => (false, ps)
  | p :: rest' =>
      if (p =? old_digits)%string then
        if any_value new_p ps then (true, list_pop i ps)
        else (true, list_setitem i new_p ps)
      else edit_phone_loop old_digits new_p ps (S i) rest'
  end.

Definition edit_phone (phone_old phone_new : string) : method bool := fun self =>
  let old_digits := digits_only phone_old in
  match Phone phone_new with
  | Raise e => (Raise e, self)
  | Ok new_p =>
      let (r, ps) :=
        edit_phone_loop old_digits new_p (phones self) 0 (phones self) in
      (Ok r, set_phones self ps)
  end.

Definition already_set : exn :=
  ValueError "Birthday is already set for this contact".

Definition add_birthday (today : date) (value : pyvalue) : method unit :=
  fun self =>
  match birthday self with
  | Some _ => (Raise already_set, self)
  | None =>
      match Birthday today value with
      | Raise e => (Raise e, self)
      | Ok b => (Ok tt, set_birthday self b)
      end
  end.

(** ** [AddressBook] *)

Definition AddressBook : Type := list (string * Rec).

Definition add_record (record : Rec) (book : AddressBook) : AddressBook :=
  dict_set (name record) record book.

Definition find_record (nm : string) (book : AddressBook) : option Rec :=
  dict_get nm book.

Definition delete (nm : string) (book : AddressBook) : bool * AddressBook :=
  if dict_contains nm book then (true, dict_del nm book) else (false, book).

(** One item of the list [get_upcoming_birthdays] returns. *)
Record entry : Type := mkentry {
  entry_name : string;
  congratulation_date : string
}.

(** The birthday's occurrence the window is tested on. *)
Definition candidate (today bday : date) : result date :=
  c <- date_new (year today) (month bday) (day bday) ;;
  if date_ltb c today
  then date_new (year today + 1) (month bday) (day bday)
  else Ok c.

(** The date reported for an occurrence. *)
Definition congrats_of (cand : date) : result date :=
  if 5 <=? weekday cand
  then date_add_days cand (7 - weekday cand)
  else Ok cand.

(** One turn of the loop over [self.data.values()]. *)
Definition upcoming_step (today : date) (record : Rec) (acc : list entry)
  : result (list entry) :=
  match birthday record with
  | None => Ok acc
  | Some bday =>
      cand <- candidate today bday ;;
      let delta_days := days_between cand today in
      if (0 <=? delta_days) && (delta_days <? 7) then
        congrats <- congrats_of cand ;;
        Ok (acc ++ [mkentry (name record) (strftime congrats)])
      else Ok acc
  end.

Fixpoint upcoming_loop (today : date) (records : list Rec) (acc : list entry)
  : result (list entry) :=
  match records with
  | [] => Ok acc
  | record :: records' =>
      acc' <- upcoming_step today record acc ;;
      upcoming_loop today records' acc'
  end.

(** [sorted(l, key=key)]: the keys are computed once, in order; the sort
    is stable and compares keys with [<] only.  Insertion sort is the
    stable sort used here. *)
Fixpoint decorate {A K : Type} (key : A -> result K) (l : list A)
  : result (list (K * A)) :=
  match l with
  | [] => Ok []
  | x :: l' =>
      k <- key x ;;
      kl <- decorate key l' ;;
      Ok ((k, x) :: kl)
  end.

Fixpoint insert_by {A : Type} (x : date * A) (l : list (date * A))
  : list (date * A) :=
  match l with
  | [] => [x]
  | y :: l' =>
      if date_ltb (fst y) (fst x) then y :: insert_by x l' else x :: y :: l'
  end.

Fixpoint sort_by {A : Type} (l : list (date * A)) : list (date * A) :=
  match l with
  | [] => []
  | x :: l' => insert_by x (sort_by l')
  end.

Definition sorted {A : Type} (key : A -> result date) (l : list A)
  : result (list A) :=
  kl <- decorate key l ;; Ok (map snd (sort_by kl)).

Definition sort_key (x : entry) : result date :=
  strptime (congratulation_date x).

Definition get_upcoming_birthdays (today : date) (book : AddressBook)
  : result (list entry) :=
  res <- upcoming_loop today (dict_values book) [] ;;
  sorted sort_key res.

(** ** Vocabulary of the properties *)

(** The two kinds of error of the design, as the source raises them: both
    are [ValueError]s, told apart by their message. *)
Definition is_DomainError (e : exn) : bool :=
  match e with
  | ValueError msg => (msg =? "Birthday is already set for this contact")%string
  | _ => false
  end.

Definition is_ValidationError (e : exn) : bool :=
  match e with
  | ValueError msg =>
      (msg =? "Name cannot be empty")%string
      || (msg =? "Phone must contain exactly 10 digits")%string
      || (msg =? "Invalid date format. Use DD.MM.YYYY")%string
      || (msg =? "Birthday cannot be in the future")%string
  | _ => false
  end.

(** A string of exactly ten decimal digits. *)
Definition ten_digits (p : string) : bool := (len p =? 10) && all_digits p.

(** The invariant of a record's phones. *)
Definition phones_inv (r : Rec) : Prop :=
  Forall (fun p => ten_digits p = true) (phones r) /\ NoDup (phones r).

(** The operations on a record's phones, and what a sequence of them
    leaves; an operation that raises leaves what the method left, and
    [find_phone], which only returns a value, leaves the record as it is. *)
Inductive phone_op : Type :=
| AddPhone (raw : string)
| RemovePhone (raw : string)
| EditPhone (old_raw new_raw : string)
| FindPhone (raw : string).

Definition run_phone_op (r : Rec) (op : phone_op) : Rec :=
  match op with
  | AddPhone raw => snd (add_phone raw r)
  | RemovePhone raw => snd (remove_phone raw r)
  | EditPhone o n => snd (edit_phone o n r)
  | FindPhone _ => r
  end.

Definition run_phone_ops (ops : list phone_op) (r : Rec) : Rec :=
  fold_left run_phone_op ops r.

(** The operations on the store. *)
Inductive store_op : Type :=
| Upsert (r : Rec)
| Delete (nm : string).

Definition run_store_op (book : AddressBook) (op : store_op) : AddressBook :=
  match op with
  | Upsert r => add_record r book
  | Delete nm => snd (delete nm book)
  end.

Definition run_store_ops (ops : list store_op) (book : AddressBook)
  : AddressBook :=
  fold_left run_store_op ops book.

(** Every key is the name of the record it maps to. *)
Definition keys_match (book : AddressBook) : Prop :=
  Forall (fun kv => fst kv = name (snd kv)) book.

(** The shape [DD.MM.YYYY]: two digits, a dot, two digits, a dot, four
    digits, and nothing else. *)
Definition is_DDMMYYYY (s : string) : bool :=
  match s with
  | String d1 (String d2 (String p1 (String m1 (String m2 (String p2
      (String y1 (String y2 (String y3 (String y4 EmptyString))))))))) =>
      is_digit d1 && is_digit d2 && is_char "." p1
      && is_digit m1 && is_digit m2 && is_char "." p2
      && is_digit y1 && is_digit y2 && is_digit y3 && is_digit y4
  | _ => false
  end.

(** The occurrence of a birthday, as the design words it: the birthday's
    month and day in today's year, and in the next year when that date is
    strictly before today. *)
Definition occurrence (today bday : date) : date :=
  let this_year := mkdate (year today) (month bday) (day bday) in
  if date_ltb this_year today
  then mkdate (year today + 1) (month bday) (day bday)
  else this_year.

(** The window of the query: from today up to, and not including, seven
    days later. *)
Definition in_window (today occ : date) : bool :=
  (0 <=? days_between occ today) && (days_between occ today <? 7).

(** The entries one record contributes to the list before it is sorted. *)
Definition entries_of (today : date) (r : Rec) : list entry :=
  match upcoming_step today r [] with
  | Ok l => l
  | Raise _ => []
  end.

Definition has_date (s : string) (e : entry) : bool :=
  (congratulation_date e =? s)%string.

(** Entries written by the loop: the date is a [strftime] of a date. *)
Definition rendered (e : entry) : Prop :=
  exists c, valid_date c = true /\ congratulation_date e = strftime c.

(** The shift of the reported date, as the design words it. *)
Definition weekend_shift (occurrence : date) : Z :=
  if weekday occurrence =? 5 then 2
  else if weekday occurrence =? 6 then 1
  else 0.

(** The check of [month_day] on one day number: the month is a month, the
    day is a day of it, and the two name the day number [n]. *)
Definition month_day_ok (leapyear : bool) (n : Z) : bool :=
  let (m, d) := month_day leapyear n in
  (1 <=? m) && (m <=? 12) && (1 <=? d)
  && (d <=? (if (m =? 2) && leapyear then 29 else table DAYS_IN_MONTH m))
  && (table DAYS_BEFORE_MONTH m + (if (2 <? m) && leapyear then 1 else 0) + d
      =? n + 1).

(** The string [DD.MM.YYYY] written with the given digits. *)
Definition dmy_string (a1 a2 b1 b2 c1 c2 c3 c4 : Z) : string :=
  String (digit_char a1) (String (digit_char a2) (String "."
    (String (digit_char b1) (String (digit_char b2) (String "."
      (String (digit_char c1) (String (digit_char c2)
        (String (digit_char c3) (String (digit_char c4) EmptyString))))))))).

(** ** Vocabulary of the further properties *)

(** Only whitespace. *)
Fixpoint all_space (s : string) : bool :=
  match s with
  | EmptyString => true
  | String c s' => is_space c && all_space s'
  end.

Definition first_char (s : string) : option ascii :=
  match s with
  | EmptyString => None
  | String c _ => Some c
  end.

Fixpoint last_char (s : string) : option ascii :=
  match s with
  | EmptyString => None
  | String c EmptyString => Some c
  | String _ s' => last_char s'
  end.

(** Neither empty nor with whitespace at either end. *)
Definition trimmed (s : string) : Prop :=
  (exists c, first_char s = Some c /\ is_space c = false)
  /\ (exists c, last_char s = Some c /\ is_space c = false).

(** The dates of two entries, parsed as the sort parses them, are in
    order. *)
Definition entry_date_le (a b : entry) : Prop :=
  exists da db,
    sort_key a = Ok da /\ sort_key b = Ok db /\ toordinal da <= toordinal db.

(** ** The command handlers

    The colours are the escape sequences of the colorama library.  The
    text of a message is kept as the bytes of the source's literal; no
    code looks inside it.  A handler gets the book and mutates records in
    place: the model hands back the book after the call, in which the
    record found under a key has been replaced, at its place, by the
    record after the method call (no record object is stored under two
    keys). *)

Definition CSI : string := String (ascii_of_nat 27) "[".
Definition Fore_RED : string := (CSI ++ "31m")%string.
Definition Fore_GREEN : string := (CSI ++ "32m")%string.
Definition Fore_YELLOW : string := (CSI ++ "33m")%string.
Definition Fore_MAGENTA : string := (CSI ++ "35m")%string.
Definition Fore_CYAN : string := (CSI ++ "36m")%string.
Definition Style_RESET_ALL : string := (CSI ++ "0m")%string.

(** The line feed of the literals. *)
Definition NL : string := String (ascii_of_nat 10) EmptyString.

(** [sep.join(l)] *)
Definition join (sep : string) (l : list string) : string :=
  String.concat sep l.

(** [Record.__str__] *)
Definition Record_str (self : Rec) : string :=
  let phones_str :=
    match phones self with
    | [] => "-"
    | _ => join "; " (phones self)
    end in
  let bday_str :=
    match birthday self with
    | Some b => Birthday_str b
    | None => "-"
    end in
  (Fore_CYAN ++ "Contact name: " ++ Fore_YELLOW ++ name self
   ++ Style_RESET_ALL ++ "," ++ NL
   ++ Fore_CYAN ++ "phones: " ++ Fore_GREEN ++ phones_str
   ++ Style_RESET_ALL ++ "," ++ NL
   ++ Fore_CYAN ++ "birthday: " ++ Fore_MAGENTA ++ bday_str
   ++ Style_RESET_ALL)%string.

(** How the body of a handler ends: it returns a text, or raises an
    exception of the model, or raises the [IndexError] of [args[i]]. *)
Inductive outcome : Type :=
| Returns (s : string)
| Raises (e : exn)
| RaisesIndexError.

(** The decorator [input_error].  No handler raises [KeyError]: the book
    is only read with [get]. *)
Definition input_error (func : outcome * AddressBook) : string * AddressBook :=
  match func with
  | (Returns s, book) => (s, book)
  | (RaisesIndexError, book) =>
      ((Fore_RED ++ "Недостатньо аргументів для цієї команди."
        ++ Style_RESET_ALL)%string, book)
  | (Raises (ValueError msg), book) =>
      ((Fore_RED ++ msg ++ Style_RESET_ALL)%string, book)
  | (Raises (TypeError msg), book) | (Raises (OverflowError msg), book) =>
      ((Fore_RED ++ "Сталася помилка: " ++ msg ++ Style_RESET_ALL)%string,
       book)
  end.

Definition USAGE : list (string * string) :=
  [("add",
    ("Використання: add <ім'я> <телефон>" ++ NL
     ++ "Приклад: add John 0931234567")%string);
   ("change",
    ("Використання: change <ім'я> <старий_телефон> <новий_телефон>" ++ NL
     ++ "Приклад: change John 0931234567 0501112233")%string);
   ("phone",
    ("Використання: phone <ім'я>" ++ NL ++ "Приклад: phone John")%string);
   ("all", "Використання: all");
   ("add-birthday",
    ("Використання: add-birthday <ім'я> <DD.MM.YYYY>" ++ NL
     ++ "Приклад: add-birthday John 15.08.1992")%string);
   ("show-birthday",
    ("Використання: show-birthday <ім'я>" ++ NL
     ++ "Приклад: show-birthday John")%string);
   ("birthdays", "Використання: birthdays");
   ("hello", "Використання: hello");
   ("close", "Використання: close");
   ("exit", "Використання: exit")].

(** [need(cmd, args, n_required)]: the hint, or [None]. *)
Definition need (cmd : string) (args : list string) (n_required : Z)
  : option string :=
  if Z.of_nat (List.length args) <? n_required then
    Some (Fore_RED ++ "Недостатньо аргументів." ++ NL
          ++ match dict_get cmd USAGE with
             | Some u => u
             | None => "Немає підказки для цієї команди."
             end
          ++ Style_RESET_ALL)%string
  else None.

(** [if s:] on a string. *)
Definition truthy (s : string) : bool := negb (s =? "")%string.

Definition not_found : string :=
  (Fore_RED ++ "Контакт не знайдено." ++ Style_RESET_ALL)%string.

(** The body of [add_contact]. *)
Definition add_contact_body (args : list string) (book : AddressBook)
  : outcome * AddressBook :=
  match need "add" args 2 with
  | Some msg => (Returns msg, book)
  | None =>
      match args with
      | nm :: phone :: _ =>
          match find_record nm book with
          | Some record =>
              let message :=
                (Fore_YELLOW ++ "Contact updated." ++ Style_RESET_ALL)%string in
              if truthy phone then
                let (res, record') := add_phone phone record in
                let book' := dict_set nm record' book in
                match res with
                | Ok _ => (Returns message, book')
                | Raise e => (Raises e, book')
                end
              else (Returns message, book)
          | None =>
              match Record_new nm with
              | Raise e => (Raises e, book)
              | Ok record =>
                  let book1 := add_record record book in
                  let message :=
                    (Fore_GREEN ++ "Contact added." ++ Style_RESET_ALL)%string in
                  if truthy phone then
                    let (res, record') := add_phone phone record in
                    let book2 := dict_set (name record) record' book1 in
                    match res with
                    | Ok _ => (Returns message, book2)
                    | Raise e => (Raises e, book2)
                    end
                  else (Returns message, book1)
              end
          end
      | [] =>
          (Raises (ValueError
                     "not enough values to unpack (expected at least 2, got 0)"),
           book)
      | [_] =>
          (Raises (ValueError
                     "not enough values to unpack (expected at least 2, got 1)"),
           book)
      end
  end.

(** The body of [change]. *)
Definition change_body (args : list string) (book : AddressBook)
  : outcome * AddressBook :=
  match need "change" args 3 with
  | Some msg => (Returns msg, book)
  | None =>
      match args with
      | nm :: old :: new :: _ =>
          match find_record nm book with
          | None => (Returns not_found, book)
          | Some rec =>
              let (res, rec') := edit_phone old new rec in
              let book' := dict_set nm rec' book in
              match res with
              | Ok true =>
                  (Returns (Fore_GREEN ++ "Номер змінено."
                            ++ Style_RESET_ALL)%string, book')
              | Ok false =>
                  (Returns (Fore_RED ++ "Старий номер не знайдено."
                            ++ Style_RESET_ALL)%string, book')
              | Raise e => (Raises e, book')
              end
          end
      | _ => (RaisesIndexError, book)
      end
  end.

(** The body of [phone]. *)
Definition phone_body (args : list string) (book : AddressBook)
  : outcome * AddressBook :=
  match need "phone" args 1 with
  | Some msg => (Returns msg, book)
  | None =>
      match args with
      | nm :: _ =>
          match find_record nm book with
          | None => (Returns not_found, book)
          | Some rec =>
              match phones rec with
              | [] =>
                  (Returns (Fore_YELLOW ++ "У контакта немає телефонів."
                            ++ Style_RESET_ALL)%string, book)
              | _ =>
                  (Returns (Fore_GREEN ++ join ", " (phones rec)
                            ++ Style_RESET_ALL)%string, book)
              end
          end
      | _ => (RaisesIndexError, book)
      end
  end.

(** The body of [show_all]. *)
Definition show_all_body (args : list string) (book : AddressBook)
  : outcome * AddressBook :=
  match need "all" args 0 with
  | Some msg => (Returns msg, book)
  | None =>
      match book with
      | [] =>
          (Returns (Fore_YELLOW ++ "Адресна книга порожня."
                    ++ Style_RESET_ALL)%string, book)
      | _ =>
          (Returns (join (NL ++ NL) (map Record_str (dict_values book))), book)
      end
  end.

(** The body of the handler [add_birthday]. *)
Definition add_birthday_body (today : date) (args : list string)
  (book : AddressBook) : outcome * AddressBook :=
  match need "add-birthday" args 2 with
  | Some msg => (Returns msg, book)
  | None =>
      match args with
      | nm :: bday :: _ =>
          match find_record nm book with
          | None =>
              (Returns
                 (Fore_RED
                  ++ "Контакт не знайдено. Спочатку додайте контакт командою: add [ім'я] [телефон]"
                  ++ Style_RESET_ALL)%string, book)
          | Some rec =>
              let (res, rec') := add_birthday today (VStr bday) rec in
              let book' := dict_set nm rec' book in
              match res with
              | Ok _ =>
                  (Returns (Fore_GREEN ++ "День народження для " ++ nm
                            ++ " додано." ++ Style_RESET_ALL)%string, book')
              | Raise e => (Raises e, book')
              end
          end
      | _ => (RaisesIndexError, book)
      end
  end.

(** The body of [show_birthday]. *)
Definition show_birthday_body (args : list string) (book : AddressBook)
  : outcome * AddressBook :=
  match need "show-birthday" args 1 with
  | Some msg => (Returns msg, book)
  | None =>
      match args with
      | nm :: _ =>
          match find_record nm book with
          | None => (Returns not_found, book)
          | Some rec =>
              match birthday rec with
              | None =>
                  (Returns (Fore_YELLOW ++ "День народження не встановлено."
                            ++ Style_RESET_ALL)%string, book)
              | Some b =>
                  (Returns (Fore_GREEN ++ Birthday_str b
                            ++ Style_RESET_ALL)%string, book)
              end
          end
      | _ => (RaisesIndexError, book)
      end
  end.

(** [by_date.setdefault(k, []).append(v)] *)
Definition setdefault_append (k v : string) (d : list (string * list string))
  : list (string * list string) :=
  match dict_get k d with
  | Some l => dict_set k (l ++ [v]) d
  | None => dict_set k [v] d
  end.

(** The names of the schedule grouped by date. *)
Definition group_by_date (schedule : list entry)
  : list (string * list string) :=
  fold_left
    (fun by_date item =>
       setdefault_append (congratulation_date item) (entry_name item) by_date)
    schedule [].

(** The body of [birthdays]. *)
Definition birthdays_body (today : date) (args : list string)
  (book : AddressBook) : outcome * AddressBook :=
  match need "birthdays" args 0 with
  | Some msg => (Returns msg, book)
  | None =>
      match get_upcoming_birthdays today book with
      | Raise e => (Raises e, book)
      | Ok [] =>
          (Returns (Fore_YELLOW ++ "Найближчого тижня немає днів народження."
                    ++ Style_RESET_ALL)%string, book)
      | Ok schedule =>
          let by_date := group_by_date schedule in
          match sorted strptime (dict_keys by_date) with
          | Raise e => (Raises e, book)
          | Ok ds =>
              let lines :=
                map (fun d =>
                       (Fore_CYAN ++ d ++ ":" ++ Style_RESET_ALL ++ " "
                        ++ Fore_GREEN
                        ++ join ", " match dict_get d by_date with
                                     | Some names => names
                                     | None => []
                                     end
                        ++ Style_RESET_ALL)%string) ds in
              (Returns (join NL lines), book)
          end
      end
  end.

Definition hello_text : string :=
  (Fore_CYAN ++ "Вітаю! Чим можу допомогти?" ++ Style_RESET_ALL)%string.

Definition exit_text : string :=
  (Fore_CYAN ++ "До зустрічі!" ++ Style_RESET_ALL)%string.

(** The functions the table [COMMANDS] holds. *)
Inductive handler : Type :=
| hello
| add_contact
| change
| phone
| show_all
| add_birthday_handler
| show_birthday
| birthdays
| exit_cmd.

Definition COMMANDS : list (string * handler) :=
  [("hello", hello); ("add", add_contact); ("change", change);
   ("phone", phone); ("all", show_all);
   ("add-birthday", add_birthday_handler); ("show-birthday", show_birthday);
   ("birthdays", birthdays); ("close", exit_cmd); ("exit", exit_cmd)].

(** [handler(args, book)]: the text returned and the book after the
    call. *)
Definition call (h : handler) (today : date) (args : list string)
  (book : AddressBook) : string * AddressBook :=
  match h with
  | hello => (hello_text, book)
  | exit_cmd => (exit_text, book)
  | add_contact => input_error (add_contact_body args book)
  | change => input_error (change_body args book)
  | phone => input_error (phone_body args book)
  | show_all => input_error (show_all_body args book)
  | add_birthday_handler => input_error (add_birthday_body today args book)
  | show_birthday => input_error (show_birthday_body args book)
  | birthdays => input_error (birthdays_body today args book)
  end.

Definition is_exit_cmd (h : handler) : bool :=
  match h with exit_cmd => true | _ => false end.

(** [s.split()]: the maximal runs of characters that are no whitespace. *)
Fixpoint split (s : string) : list string :=
  match s with
  | EmptyString => []
  | String c s' =>
      if is_space c then split s'
      else
        match s' with
        | EmptyString => [String c EmptyString]
        | String c' _ =>
            if is_space c' then String c EmptyString :: split s'
            else
              match split s' with
              | w :: ws => String c w :: ws
              | [] => [String c EmptyString]
              end
        end
  end.

(** [c.lower()] on a code point below 256. *)
Definition lower_char (c : ascii) : ascii :=
  let n := code c in
  if ((65 <=? n) && (n <=? 90))
     || ((192 <=? n) && (n <=? 222) && negb (n =? 215))
  then ascii_of_nat (Z.to_nat (n + 32))
  else c.

Fixpoint lower (s : string) : string :=
  match s with
  | EmptyString => EmptyString
  | String c s' => String (lower_char c) (lower s')
  end.

Definition parse_command (line : string) : option string * list string :=
  match split (strip line) with
  | [] => (None, [])
  | cmd :: args => (Some (lower cmd), args)
  end.

Definition unknown_command : string :=
  (Fore_RED ++ "Невідома команда." ++ NL ++ "Можливі команди: "
   ++ join ", " (dict_keys COMMANDS) ++ Style_RESET_ALL)%string.

(** One turn of the loop of [main] on a line that was read: the text
    printed, if any, the book after the turn, and whether the loop ends.
    Reading the line, printing and saving the book are left out. *)
Definition main_turn (today : date) (line : string) (book : AddressBook)
  : option string * AddressBook * bool :=
  match parse_command line with
  | (None, _) => (None, book, false)
  | (Some cmd, args) =>
      if negb (truthy cmd) then (None, book, false)
      else
        match dict_get cmd COMMANDS with
        | None => (Some unknown_command, book, false)
        | Some h =>
            let (result, book') := call h today args book in
            (Some result, book', is_exit_cmd h)
        end
  end.

(** The turns of the loop on a sequence of lines, up to the line that
    ends it: the texts printed and the book at the end. *)
Fixpoint main_loop (today : date) (lines : list string) (book : AddressBook)
  : list string * AddressBook :=
  match lines with
  | [] => ([], book)
  | line :: lines' =>
      match main_turn today line book with
      | (printed, book', stop) =>
          let out := match printed with Some s => [s] | None => [] end in
          if stop then (out, book')
          else
            let (outs, book'') := main_loop today lines' book' in
            (out ++ outs, book'')
      end
  end.

(** ** Vocabulary of the properties of the handlers *)

Fixpoint no_space (s : string) : bool :=
  match s with
  | EmptyString => true
  | String c s' => negb (is_space c) && no_space s'
  end.

(** A word of a line: not empty, no whitespace in it. *)
Definition token (s : string) : Prop := s <> EmptyString /\ no_space s = true.

(** The characters of a string that are no whitespace. *)
Fixpoint without_space (s : string) : string :=
  match s with
  | EmptyString => EmptyString
  | String c s' =>
      if is_space c then without_space s' else String c (without_space s')
  end.

(** A stretch of whitespace between two words. *)
Definition gap (s : string) : Prop := s <> EmptyString /\ all_space s = true.

(** Words, each after its stretch of whitespace, and what follows the
    last of them. *)
Fixpoint weave (rest : list (string * string)) (tail : string) : string :=
  match rest with
  | [] => tail
  | (g, w) :: rest' => (g ++ w ++ weave rest' tail)%string
  end.

(** What the handlers keep true of a record: a trimmed name, phones of
    ten digits without repeats, and a birthday that is a date of the
    calendar not after [today]. *)
Definition record_ok (today : date) (r : Rec) : Prop :=
  trimmed (name r)
  /\ phones_inv r
  /\ forall b, birthday r = Some b ->
               valid_date b = true /\ date_ltb today b = false.

(** What the handlers keep true of the book. *)
Definition book_ok (today : date) (book : AddressBook) : Prop :=
  NoDup (dict_keys book)
  /\ Forall (fun kv => fst kv = name (snd kv) /\ record_ok today (snd kv)) book.

Definition number_changed : string :=
  (Fore_GREEN ++ "Номер змінено." ++ Style_RESET_ALL)%string.

Definition birthday_added (nm : string) : string :=
  (Fore_GREEN ++ "День народження для " ++ nm ++ " додано."
   ++ Style_RESET_ALL)%string.

Definition contact_added : string :=
  (Fore_GREEN ++ "Contact added." ++ Style_RESET_ALL)%string.

Definition contact_updated : string :=
  (Fore_YELLOW ++ "Contact updated." ++ Style_RESET_ALL)%string.

(** The names of the entries of one date, in the order of the schedule. *)
Definition names_on (d : string) (schedule : list entry) : list string :=
  map entry_name (filter (has_date d) schedule).

(** * Proofs *)

(** ** Strings and phones *)

Lemma digits_only_all_digits (s : string) : all_digits (digits_only s) = true.
Proof.
  induction s as [|c s IH]; simpl; [reflexivity|].
  destruct (is_digit c) eqn:E; simpl; [rewrite E|]; auto.
Qed.

Lemma Phone_ten_digits (raw p : string) :
  Phone raw = Ok p -> ten_digits p = true /\ p = digits_only raw.
Proof.
  unfold Phone, ten_digits.
  destruct (len (digits_only raw) =? 10) eqn:E; [|discriminate].
  intros H; injection H as <-.
  rewrite E, digits_only_all_digits. auto.
Qed.

Lemma Phone_raises (raw : string) (e : exn) :
  Phone raw = Raise e -> is_ValidationError e = true.
Proof.
  unfold Phone. destruct (len (digits_only raw) =? 10); [discriminate|].
  intros H; injection H as <-. reflexivity.
Qed.

Lemma any_value_In (v : string) (ps : list string) :
  any_value v ps = true <-> In v ps.
Proof.
  unfold any_value. rewrite existsb_exists. split.
  - intros (x & Hx & E). apply String.eqb_eq in E. now subst.
  - intros H. exists v. split; [assumption|apply String.eqb_refl].
Qed.

Lemma any_value_not_In (v : string) (ps : list string) :
  any_value v ps = false <-> ~ In v ps.
Proof.
  rewrite <- any_value_In. destruct (any_value v ps); split; congruence.
Qed.

Lemma list_remove_incl (x : string) (l : list string) :
  incl (list_remove x l) l.
Proof.
  induction l as [|y l IH]; simpl; [apply incl_refl|].
  destruct (y =? x)%string.
  - apply incl_tl, incl_refl.
  - intros z [->|Hz]; [now left|right; now apply IH].
Qed.

Lemma list_remove_NoDup (x : string) (l : list string) :
  NoDup l -> NoDup (list_remove x l).
Proof.
  induction 1 as [|y l Hy Hl IH]; simpl; [constructor|].
  destruct (y =? x)%string; [assumption|].
  constructor; [|assumption].
  intros Hin. apply Hy. now apply (list_remove_incl x l).
Qed.

(** The first stored phone equal to [v] splits the list around it. *)
Lemma find_split (v : string) (ps : list string) :
  match find (fun p => (p =? v)%string) ps with
  | Some t => t = v /\ exists pre post, ps = pre ++ v :: post /\ ~ In v pre
  | None => ~ In v ps
  end.
Proof.
  induction ps as [|p ps IH]; simpl; [tauto|].
  destruct (p =? v)%string eqn:E.
  - apply String.eqb_eq in E. subst. split; [reflexivity|].
    exists [], ps. simpl. tauto.
  - apply String.eqb_neq in E.
    destruct (find _ ps).
    + destruct IH as (-> & pre & post & -> & Hpre). split; [reflexivity|].
      exists (p :: pre), post. split; [reflexivity|].
      simpl. intros [?|?]; [congruence|tauto].
    + simpl. intros [?|?]; [congruence|tauto].
Qed.

Lemma list_remove_split (v : string) (pre post : list string) :
  ~ In v pre -> list_remove v (pre ++ v :: post) = pre ++ post.
Proof.
  induction pre as [|p pre IH]; simpl; intros H.
  - now rewrite String.eqb_refl.
  - destruct (p =? v)%string eqn:E.
    + apply String.eqb_eq in E. tauto.
    + f_equal. apply IH. tauto.
Qed.

Lemma list_pop_split {A : Type} (pre post : list A) (x : A) :
  list_pop (List.length pre) (pre ++ x :: post) = pre ++ post.
Proof.
  unfold list_pop. induction pre as [|a pre IH]; simpl; [reflexivity|].
  now f_equal.
Qed.

Lemma list_setitem_split {A : Type} (pre post : list A) (x v : A) :
  list_setitem (List.length pre) v (pre ++ x :: post) = pre ++ v :: post.
Proof.
  unfold list_setitem. induction pre as [|a pre IH]; simpl; [reflexivity|].
  now f_equal.
Qed.

(** The loop of [edit_phone] when no phone left to visit matches. *)
Lemma edit_phone_loop_no_match (old_digits new_p : string)
  (ps : list string) (i : nat) (rest : list string) :
  ~ In old_digits rest ->
  edit_phone_loop old_digits new_p ps i rest = (false, ps).
Proof.
  revert i. induction rest as [|p rest IH]; simpl; intros i H; [reflexivity|].
  destruct (p =? old_digits)%string eqn:E.
  - apply String.eqb_eq in E. tauto.
  - apply IH. tauto.
Qed.

(** The loop of [edit_phone] when the first match comes after [pre]. *)
Lemma edit_phone_loop_match (old_digits new_p : string)
  (visited pre post : list string) :
  ~ In old_digits pre ->
  edit_phone_loop old_digits new_p (visited ++ pre ++ old_digits :: post)
    (List.length visited) (pre ++ old_digits :: post) =
  if any_value new_p (visited ++ pre ++ old_digits :: post)
  then (true, visited ++ pre ++ post)
  else (true, visited ++ pre ++ new_p :: post).
Proof.
  revert visited. induction pre as [|p pre IH]; simpl; intros visited H.
  - rewrite String.eqb_refl, list_pop_split, list_setitem_split. reflexivity.
  - destruct (p =? old_digits)%string eqn:E.
    + apply String.eqb_eq in E. tauto.
    + specialize (IH (visited ++ [p])).
      rewrite length_app, Nat.add_comm in IH. simpl in IH.
      rewrite <- !app_assoc in IH. simpl in IH. apply IH. tauto.
Qed.

(** [edit_phone], case by case. *)
Lemma edit_phone_cases (phone_old phone_new : string) (self : Rec) :
  match Phone phone_new with
  | Raise e => edit_phone phone_old phone_new self = (Raise e, self)
  | Ok new_p =>
      (~ In (digits_only phone_old) (phones self) /\
       edit_phone phone_old phone_new self = (Ok false, self))
      \/ (exists pre post,
            phones self = pre ++ digits_only phone_old :: post /\
            ~ In (digits_only phone_old) pre /\
            edit_phone phone_old phone_new self =
            (Ok true,
             set_phones self
               (if any_value new_p (phones self)
                then pre ++ post else pre ++ new_p :: post)))
  end.
Proof.
  unfold edit_phone. destruct (Phone phone_new) as [new_p|e]; [|reflexivity].
  pose proof (find_split (digits_only phone_old) (phones self)) as F.
  destruct (find _ (phones self)).
  - right. destruct F as (_ & pre & post & E & Hpre).
    exists pre, post. split; [assumption|]. split; [assumption|].
    rewrite E.
    pose proof (edit_phone_loop_match (digits_only phone_old) new_p [] pre post Hpre) as L.
    simpl in L. rewrite L.
    destruct (any_value new_p _); reflexivity.
  - left. split; [assumption|].
    rewrite edit_phone_loop_no_match by assumption.
    destruct self; reflexivity.
Qed.

(** ** The invariant of a record's phones *)

(** A freshly created record has no phone and no birthday. *)
Lemma Record_new_fresh (raw : string) (r : Rec) :
  Record_new raw = Ok r -> r = mkRec (strip raw) [] None.
Proof.
  unfold Record_new, Name.
  destruct (strip raw =? "")%string; cbn [bind]; [discriminate|].
  now intros [= <-].
Qed.

Lemma add_phone_inv (raw : string) (r : Rec) :
  phones_inv r -> phones_inv (snd (add_phone raw r)).
Proof.
  intros [Hd Hn]. unfold add_phone.
  destruct (Phone raw) as [p|e] eqn:EP; [|now split].
  destruct (any_value p (phones r)) eqn:EA; simpl; [now split|].
  apply Phone_ten_digits in EP as [Hp _].
  apply any_value_not_In in EA.
  split; simpl.
  - apply Forall_app. split; [assumption|]. now constructor.
  - apply NoDup_app; [assumption|repeat constructor; intros []|].
    intros x Hx [<-|[]]. contradiction.
Qed.

Lemma remove_phone_inv (raw : string) (r : Rec) :
  phones_inv r -> phones_inv (snd (remove_phone raw r)).
Proof.
  intros [Hd Hn]. unfold remove_phone.
  destruct (find_phone raw r) as [t|]; [|now split].
  split; simpl.
  - rewrite Forall_forall in *. intros x Hx.
    apply Hd. now apply (list_remove_incl t).
  - now apply list_remove_NoDup.
Qed.

Lemma edit_phone_inv (o n : string) (r : Rec) :
  phones_inv r -> phones_inv (snd (edit_phone o n r)).
Proof.
  intros [Hd Hn].
  pose proof (edit_phone_cases o n r) as C.
  destruct (Phone n) as [new_p|e] eqn:EP.
  - destruct C as [[_ ->]|(pre & post & E & Hpre & ->)]; [now split|].
    apply Phone_ten_digits in EP as [Hp _].
    rewrite E in Hd, Hn.
    apply Forall_app in Hd as [Hd1 Hd2]. inversion Hd2 as [|? ? _ Hd3]; subst.
    pose proof (NoDup_remove_1 _ _ _ Hn) as Hn1.
    destruct (any_value new_p (phones r)) eqn:EA; split; simpl.
    + apply Forall_app. now split.
    + assumption.
    + apply Forall_app. split; [assumption|now constructor].
    + apply any_value_not_In in EA. rewrite E in EA.
      apply (NoDup_Add (Add_app new_p pre post)).
      split; [assumption|].
      intros Hin. apply EA. apply in_app_iff in Hin. apply in_app_iff.
      simpl. tauto.
  - rewrite C. now split.
Qed.

Lemma run_phone_op_inv (r : Rec) (op : phone_op) :
  phones_inv r -> phones_inv (run_phone_op r op).
Proof.
  destruct op; simpl; auto using add_phone_inv, remove_phone_inv, edit_phone_inv.
Qed.

Lemma run_phone_ops_inv (ops : list phone_op) (r : Rec) :
  phones_inv r -> phones_inv (run_phone_ops ops r).
Proof.
  revert r. induction ops as [|op ops IH]; simpl; intros r H; [assumption|].
  apply IH, run_phone_op_inv, H.
Qed.

(** C4. Starting from a freshly created record, after each operation of
    any sequence of [add_phone], [remove_phone], [edit_phone] and
    [find_phone] calls (that is, after every prefix of the sequence), each
    stored phone is a string of exactly ten decimal digits and no two
    stored phones are equal. *)
Theorem phones_invariant (nm : string) (ops : list phone_op) (n : nat) :
  phones_inv (run_phone_ops (firstn n ops) (mkRec nm [] None)).
Proof.
  apply run_phone_ops_inv. split; constructor.
Qed.

(** ** [edit_phone] against its description *)

(** A new number that already sits in another entry: the matched entry
    goes and the call reports success. *)
Lemma edit_phone_collapse (phone_old phone_new new_p : string) (self : Rec)
  (pre post : list string) :
  Phone phone_new = Ok new_p ->
  phones self = pre ++ digits_only phone_old :: post ->
  ~ In (digits_only phone_old) pre ->
  In new_p (pre ++ post) ->
  edit_phone phone_old phone_new self = (Ok true, set_phones self (pre ++ post)).
Proof.
  intros EP E Hpre Hin.
  pose proof (edit_phone_cases phone_old phone_new self) as C.
  rewrite EP in C. destruct C as [[Hno _]|(pre' & post' & E' & Hpre' & ->)].
  - exfalso. apply Hno. rewrite E. apply in_elt.
  - assert (A : any_value new_p (phones self) = true).
    { apply any_value_In. rewrite E. apply in_app_iff in Hin.
      apply in_app_iff. simpl. tauto. }
    rewrite A. rewrite E in E'.
    pose proof (find_split (digits_only phone_old) (pre ++ digits_only phone_old :: post)) as F.
    assert (R : list_remove (digits_only phone_old) (phones self) = pre ++ post)
      by (rewrite E; now apply list_remove_split).
    assert (R' : list_remove (digits_only phone_old) (phones self) = pre' ++ post')
      by (rewrite E, E'; now apply list_remove_split).
    congruence.
Qed.

(** A new number stored nowhere in the record: the matched entry is
    replaced where it stands. *)
Lemma edit_phone_replace (phone_old phone_new new_p : string) (self : Rec)
  (pre post : list string) :
  Phone phone_new = Ok new_p ->
  phones self = pre ++ digits_only phone_old :: post ->
  ~ In (digits_only phone_old) pre ->
  ~ In new_p (phones self) ->
  edit_phone phone_old phone_new self =
  (Ok true, set_phones self (pre ++ new_p :: post)).
Proof.
  intros EP E Hpre Hin.
  pose proof (edit_phone_cases phone_old phone_new self) as C.
  rewrite EP in C. destruct C as [[Hno _]|(pre' & post' & E' & Hpre' & ->)].
  - exfalso. apply Hno. rewrite E. apply in_elt.
  - apply any_value_not_In in Hin. rewrite Hin.
    pose proof (edit_phone_loop_match (digits_only phone_old) new_p [] pre post Hpre) as L1.
    pose proof (edit_phone_loop_match (digits_only phone_old) new_p [] pre' post' Hpre') as L2.
    simpl in L1, L2. rewrite <- E in L1. rewrite <- E' in L2.
    rewrite Hin in L1, L2. congruence.
Qed.

(** A new number equal to the matched entry's own: the test for a stored
    equal number also sees the matched entry, so the entry goes although
    no other entry holds the number. *)
Lemma edit_phone_same (phone_old phone_new : string) (self : Rec)
  (pre post : list string) :
  Phone phone_new = Ok (digits_only phone_old) ->
  phones self = pre ++ digits_only phone_old :: post ->
  ~ In (digits_only phone_old) pre ->
  edit_phone phone_old phone_new self = (Ok true, set_phones self (pre ++ post)).
Proof.
  intros EP E Hpre.
  unfold edit_phone. rewrite EP, E.
  pose proof (edit_phone_loop_match (digits_only phone_old)
                (digits_only phone_old) [] pre post Hpre) as L.
  simpl in L. rewrite L.
  assert (A : any_value (digits_only phone_old)
                (pre ++ digits_only phone_old :: post) = true)
    by (apply any_value_In, in_elt).
  now rewrite A.
Qed.

Lemma edit_phone_invalid (phone_old phone_new : string) (self : Rec) (e : exn) :
  Phone phone_new = Raise e ->
  edit_phone phone_old phone_new self = (Raise e, self)
  /\ is_ValidationError e = true.
Proof.
  intros EP. split; [|now apply Phone_raises in EP].
  unfold edit_phone. now rewrite EP.
Qed.

Lemma edit_phone_not_found (phone_old phone_new new_p : string) (self : Rec) :
  Phone phone_new = Ok new_p ->
  ~ In (digits_only phone_old) (phones self) ->
  edit_phone phone_old phone_new self = (Ok false, self).
Proof.
  intros EP Hno.
  pose proof (edit_phone_cases phone_old phone_new self) as C.
  rewrite EP in C. destruct C as [[_ ->]|(pre & post & E & _)]; [reflexivity|].
  exfalso. apply Hno. rewrite E. apply in_elt.
Qed.

(** C1. [edit_phone] validates the new number first and leaves the record
    alone when it is invalid or when no stored phone matches the old one;
    on a match it should drop the matched entry only when the new number
    sits in another entry, and otherwise replace the entry in place.  The
    code drops the matched entry whenever the new number is stored
    anywhere, the matched entry included: editing the only phone of a
    record to its own number empties the list, where the description asks
    for the entry to stay in place. *)
Theorem edit_phone_to_itself_removes :
  edit_phone "0931234567" "0931234567" (mkRec "Ann" ["0931234567"] None)
  = (Ok true, mkRec "Ann" [] None).
Proof. reflexivity. Qed.

(** ** The store *)

Lemma dict_get_set_same {V : Type} (k : string) (v : V) (d : list (string * V)) :
  dict_get k (dict_set k v d) = Some v.
Proof.
  induction d as [|[k' v'] d IH]; simpl.
  - now rewrite String.eqb_refl.
  - destruct (k' =? k)%string eqn:E; simpl; now rewrite E.
Qed.

Lemma dict_get_set_other {V : Type} (k k0 : string) (v : V)
  (d : list (string * V)) :
  k0 <> k -> dict_get k0 (dict_set k v d) = dict_get k0 d.
Proof.
  intros N. induction d as [|[k' v'] d IH]; simpl.
  - apply String.eqb_neq in N. rewrite String.eqb_sym in N. now rewrite N.
  - destruct (k' =? k)%string eqn:E; simpl; [|now rewrite IH].
    apply String.eqb_eq in E. subst k'.
    apply not_eq_sym, String.eqb_neq in N. now rewrite N.
Qed.

Lemma dict_set_split {V : Type} (k : string) (v old : V)
  (d : list (string * V)) :
  dict_get k d = Some old ->
  exists pre post,
    d = pre ++ (k, old) :: post
    /\ ~ In k (dict_keys pre)
    /\ dict_set k v d = pre ++ (k, v) :: post.
Proof.
  induction d as [|[k' v'] d IH]; simpl; [discriminate|].
  destruct (k' =? k)%string eqn:E.
  - apply String.eqb_eq in E. subst k'. intros [= ->].
    exists [], d. simpl. tauto.
  - intros H. destruct (IH H) as (pre & post & -> & Hpre & ->).
    exists ((k', v') :: pre), post. simpl. repeat split.
    apply String.eqb_neq in E. tauto.
Qed.

Lemma dict_set_keys_match (r : Rec) (book : AddressBook) :
  keys_match book -> keys_match (add_record r book).
Proof.
  unfold keys_match, add_record.
  induction 1 as [|[k v] d Hk Hd IH]; simpl.
  - now repeat constructor.
  - destruct (k =? name r)%string eqn:E.
    + apply String.eqb_eq in E. constructor; assumption.
    + constructor; assumption.
Qed.

Lemma dict_del_keys_match (nm : string) (book : AddressBook) :
  keys_match book -> keys_match (dict_del nm book).
Proof.
  unfold keys_match.
  induction 1 as [|[k v] d Hk Hd IH]; simpl; [constructor|].
  destruct (k =? nm)%string; [assumption|now constructor].
Qed.

Lemma run_store_op_keys_match (book : AddressBook) (op : store_op) :
  keys_match book -> keys_match (run_store_op book op).
Proof.
  intros H. destruct op as [r|nm]; simpl.
  - now apply dict_set_keys_match.
  - unfold delete. destruct (dict_contains nm book); simpl;
      [now apply dict_del_keys_match|assumption].
Qed.

Lemma run_store_ops_keys_match (ops : list store_op) (book : AddressBook) :
  keys_match book -> keys_match (run_store_ops ops book).
Proof.
  revert book. induction ops as [|op ops IH]; simpl; intros book H;
    [assumption|].
  apply IH, run_store_op_keys_match, H.
Qed.

(** The keys of a dict stay distinct. *)
Lemma dict_set_keys {V : Type} (k : string) (v : V) (d : list (string * V)) :
  dict_keys (dict_set k v d)
  = if dict_contains k d then dict_keys d else dict_keys d ++ [k].
Proof.
  unfold dict_contains, dict_keys.
  induction d as [|[k' v'] d IH]; cbn [dict_set dict_get map fst app];
    [reflexivity|].
  destruct (k' =? k)%string; [reflexivity|].
  cbn [map fst]. rewrite IH. now destruct (dict_get k d).
Qed.

Lemma dict_get_None {V : Type} (k : string) (d : list (string * V)) :
  dict_get k d = None -> ~ In k (dict_keys d).
Proof.
  unfold dict_keys.
  induction d as [|[k' v'] d IH]; cbn [dict_get map fst]; [intros _ []|].
  destruct (k' =? k)%string eqn:E; [discriminate|].
  apply String.eqb_neq in E. intros H [?|?]; [congruence|now apply IH].
Qed.

Lemma dict_del_keys_incl {V : Type} (k : string) (d : list (string * V)) :
  incl (dict_keys (dict_del k d)) (dict_keys d).
Proof.
  unfold dict_keys.
  induction d as [|[k' v'] d IH]; cbn [dict_del map fst]; [apply incl_refl|].
  destruct (k' =? k)%string; [apply incl_tl, incl_refl|].
  cbn [map fst]. intros x [->|Hx]; [now left|right; now apply IH].
Qed.

Lemma run_store_op_NoDup (book : AddressBook) (op : store_op) :
  NoDup (dict_keys book) -> NoDup (dict_keys (run_store_op book op)).
Proof.
  intros N. destruct op as [r|nm]; cbn [run_store_op].
  - unfold add_record. rewrite dict_set_keys. unfold dict_contains.
    destruct (dict_get (name r) book) eqn:G; [assumption|].
    apply dict_get_None in G.
    apply NoDup_app; [assumption|repeat constructor; intros []|].
    intros x Hx [<-|[]]. contradiction.
  - unfold delete. destruct (dict_contains nm book); cbn [snd]; [|assumption].
    clear -N. unfold dict_keys in *.
    induction book as [|[k v] d IH]; cbn [dict_del map fst] in *; [constructor|].
    inversion N as [|? ? Nk Nd]; subst.
    destruct (k =? nm)%string; [assumption|].
    cbn [map fst]. constructor; [|now apply IH].
    intros Hin. apply Nk. now apply (dict_del_keys_incl nm d).
Qed.

Lemma run_store_ops_NoDup (ops : list store_op) (book : AddressBook) :
  NoDup (dict_keys book) -> NoDup (dict_keys (run_store_ops ops book)).
Proof.
  revert book. induction ops as [|op ops IH]; cbn; intros book H;
    [assumption|].
  apply IH, run_store_op_NoDup, H.
Qed.

(** C7. From a store whose keys are the names of their records (the empty
    store is one), after each operation of any sequence of [add_record]
    and [delete] calls every key is still exactly the name of the record it
    maps to; and [add_record] of a record whose name is already a key puts
    the new record in the place of the old one and leaves every other item
    as it was. *)
Theorem store_keys_invariant (book : AddressBook) :
  keys_match []
  /\ (keys_match book ->
      forall ops n, keys_match (run_store_ops (firstn n ops) book))
  /\ (forall r, dict_contains (name r) book = true ->
      exists pre old post,
        book = pre ++ (name r, old) :: post
        /\ ~ In (name r) (dict_keys pre)
        /\ add_record r book = pre ++ (name r, r) :: post
        /\ find_record (name r) (add_record r book) = Some r
        /\ forall k, k <> name r ->
             find_record k (add_record r book) = find_record k book).
Proof.
  split; [constructor|]. split.
  - intros H ops n. now apply run_store_ops_keys_match.
  - intros r Hc. unfold dict_contains in Hc.
    destruct (dict_get (name r) book) as [old|] eqn:G; [|discriminate].
    destruct (dict_set_split (name r) r old book G) as (pre & post & E & Hpre & S).
    exists pre, old, post. unfold add_record, find_record.
    repeat split; try assumption.
    + apply dict_get_set_same.
    + intros k N. now apply dict_get_set_other.
Qed.

Lemma store_keys_invariant_witness :
  keys_match (run_store_ops
                (firstn 2 [Upsert (mkRec "Ann" [] None); Delete "Bo";
                           Upsert (mkRec "Ann" ["0931234567"] None)])
                [("Bo", mkRec "Bo" [] None)])
  /\ find_record "Bo"
       (add_record (mkRec "Bo" ["0931234567"] None) [("Bo", mkRec "Bo" [] None)])
     = Some (mkRec "Bo" ["0931234567"] None).
Proof.
  pose proof (store_keys_invariant [("Bo", mkRec "Bo" [] None)]) as (_ & H1 & H2).
  split.
  - apply H1. repeat constructor.
  - destruct (H2 (mkRec "Bo" ["0931234567"] None) eq_refl)
      as (pre & old & post & _ & _ & _ & F & _).
    exact F.
Defined.

(** ** [add_birthday] *)

Lemma date_new_raises (y m d : Z) (e : exn) :
  date_new y m d = Raise e -> exists msg, e = ValueError msg.
Proof.
  unfold date_new.
  repeat match goal with |- context [if ?b then _ else _] => destruct b end;
    intros [= <-]; eauto.
Qed.

Lemma strptime_raises (s : string) (e : exn) :
  strptime s = Raise e -> exists msg, e = ValueError msg.
Proof.
  unfold strptime.
  destruct (format_regex_matches s) as [|[[[d m] y] rest] ?];
    [intros [= <-]; eauto|].
  destruct rest; [apply date_new_raises|intros [= <-]; eauto].
Qed.

Lemma Birthday_raises (today : date) (value : pyvalue) (e : exn) :
  Birthday today value = Raise e ->
  (forall d, value <> VDateTime d) ->
  is_ValidationError e = true.
Proof.
  unfold Birthday, parse_birthday. destruct value as [d|d|s|]; simpl.
  - destruct (date_ltb today d); [intros [= <-]; reflexivity|discriminate].
  - intros _ H. now destruct (H d).
  - destruct (strptime (strip s)) as [d|e'] eqn:E; simpl.
    + destruct (date_ltb today d); [intros [= <-]; reflexivity|discriminate].
    + destruct (strptime_raises _ _ E) as [msg ->]. simpl.
      intros [= <-]. reflexivity.
  - intros [= <-]. reflexivity.
Qed.

(** C5. On a record that already has a birthday, [add_birthday] with any
    argument raises the "already set" error and leaves the record, hence
    the stored birthday, as it was.  On a record without one it validates
    the argument with [Birthday]: an error of [Birthday] is raised as it
    is and nothing is stored (for an argument that is not a [datetime] it
    is a validation error); on success the validated date is stored and
    nothing else changes. *)
Theorem add_birthday_once (today : date) (value : pyvalue) (self : Rec) :
  (forall b, birthday self = Some b ->
     add_birthday today value self = (Raise already_set, self)
     /\ is_DomainError already_set = true
     /\ birthday (snd (add_birthday today value self)) = Some b)
  /\ (birthday self = None ->
      (forall e, Birthday today value = Raise e ->
         add_birthday today value self = (Raise e, self)
         /\ birthday (snd (add_birthday today value self)) = None
         /\ ((forall d, value <> VDateTime d) -> is_ValidationError e = true))
      /\ (forall d, Birthday today value = Ok d ->
            add_birthday today value self
            = (Ok tt, mkRec (name self) (phones self) (Some d)))).
Proof.
  split.
  - intros b Hb. unfold add_birthday. rewrite Hb. simpl. auto.
  - intros Hn. split.
    + intros e He. unfold add_birthday. rewrite Hn, He. simpl.
      repeat split; [assumption|]. intros Hv. eapply Birthday_raises; eauto.
    + intros d Hd. unfold add_birthday. now rewrite Hn, Hd.
Qed.

Lemma add_birthday_once_witness :
  add_birthday (mkdate 2024 6 10) (VStr "01.01.2000")
    (mkRec "Ann" [] (Some (mkdate 1992 8 15)))
  = (Raise already_set, mkRec "Ann" [] (Some (mkdate 1992 8 15)))
  /\ add_birthday (mkdate 2024 6 10) (VStr "15.08.1992") (mkRec "Ann" [] None)
     = (Ok tt, mkRec "Ann" [] (Some (mkdate 1992 8 15)))
  /\ add_birthday (mkdate 2024 6 10) (VStr "31.04.1992") (mkRec "Ann" [] None)
     = (Raise invalid_format, mkRec "Ann" [] None).
Proof.
  split; [|split].
  - apply (proj1 (add_birthday_once (mkdate 2024 6 10) (VStr "01.01.2000")
                    (mkRec "Ann" [] (Some (mkdate 1992 8 15))))
             (mkdate 1992 8 15) eq_refl).
  - apply (proj2 (proj2 (add_birthday_once (mkdate 2024 6 10)
                           (VStr "15.08.1992") (mkRec "Ann" [] None)) eq_refl)).
    reflexivity.
  - apply (proj1 (proj2 (add_birthday_once (mkdate 2024 6 10)
                           (VStr "31.04.1992") (mkRec "Ann" [] None)) eq_refl)).
    reflexivity.
Defined.

(** ** Dates and ordinals *)

Lemma range_forallb (P : Z -> bool) (hi : nat) :
  forallb (fun k => P (Z.of_nat k)) (seq 0 hi) = true ->
  forall n, 0 <= n < Z.of_nat hi -> P n = true.
Proof.
  intros H n Hn. rewrite forallb_forall in H.
  specialize (H (Z.to_nat n)). rewrite Z2Nat.id in H by lia.
  apply H, in_seq. lia.
Qed.

Lemma month_day_checked (leapyear : bool) (n : Z) :
  0 <= n < 365 -> month_day_ok leapyear n = true.
Proof.
  intros Hn. destruct leapyear;
    apply (range_forallb (month_day_ok _) 365); try (vm_compute; reflexivity); lia.
Qed.

Lemma days_before_year_decomp (a b c e : Z) :
  0 <= a -> 0 <= b <= 3 -> 0 <= c <= 24 -> 0 <= e <= 3 ->
  days_before_year (400 * a + 100 * b + 4 * c + e + 1)
  = 146097 * a + 36524 * b + 1461 * c + 365 * e.
Proof.
  intros. unfold days_before_year.
  replace (400 * a + 100 * b + 4 * c + e + 1 - 1)
    with (400 * a + 100 * b + 4 * c + e) by lia.
  Z.div_mod_to_equations. lia.
Qed.

Lemma is_leap_decomp (a b c e : Z) :
  0 <= a -> 0 <= b <= 3 -> 0 <= c <= 24 -> 0 <= e <= 3 ->
  is_leap (400 * a + 100 * b + 4 * c + e + 1)
  = (e =? 3) && (negb (c =? 24) || (b =? 3)).
Proof.
  intros. unfold is_leap.
  repeat match goal with
         | |- context [?x =? ?y] => destruct (Z.eqb_spec x y)
         end; simpl; try reflexivity; exfalso;
    Z.div_mod_to_equations; lia.
Qed.

(** [_ord2ymd] inverts [_ymd2ord] and yields a date a [date] can hold. *)
Lemma ord2ymd_spec (n : Z) :
  1 <= n <= MAXORDINAL ->
  valid_date (ord2ymd n) = true /\ toordinal (ord2ymd n) = n.
Proof.
  unfold MAXORDINAL. intros Hn. unfold ord2ymd, DI400Y, DI100Y, DI4Y.
  pose proof (Z.div_mod (n - 1) 146097 ltac:(lia)) as E400.
  pose proof (Z.mod_pos_bound (n - 1) 146097 ltac:(lia)) as B400.
  set (a := (n - 1) / 146097) in *. set (r400 := (n - 1) mod 146097) in *.
  pose proof (Z.div_mod r400 36524 ltac:(lia)) as E100.
  pose proof (Z.mod_pos_bound r400 36524 ltac:(lia)) as B100.
  set (b := r400 / 36524) in *. set (r100 := r400 mod 36524) in *.
  pose proof (Z.div_mod r100 1461 ltac:(lia)) as E4.
  pose proof (Z.mod_pos_bound r100 1461 ltac:(lia)) as B4.
  set (c := r100 / 1461) in *. set (r4 := r100 mod 1461) in *.
  pose proof (Z.div_mod r4 365 ltac:(lia)) as E1.
  pose proof (Z.mod_pos_bound r4 365 ltac:(lia)) as B1.
  set (e := r4 / 365) in *. set (r1 := r4 mod 365) in *.
  clearbody a r400 b r100 c r4 e r1.
  assert (Ha : 0 <= a <= 24) by lia.
  assert (Hb : 0 <= b <= 4) by lia.
  assert (Hc : 0 <= c <= 24) by lia.
  assert (He : 0 <= e <= 4) by lia.
  destruct (Z.eqb_spec e 4) as [He4|He4]; cbn [orb].
  - (* the last day of a leap year that ends a 4-year cycle *)
    assert (r1 = 0) by lia. assert (c <= 23) by lia. assert (b <= 3) by lia.
    replace (a * 400 + 1 + (b * 100 + c * 4 + e) - 1)
      with (400 * a + 100 * b + 4 * c + 3 + 1) by lia.
    unfold valid_date, toordinal, ymd2ord, MINYEAR, MAXYEAR.
    cbn [year month day].
    change (days_in_month ?y 12) with 31.
    unfold days_before_month.
    rewrite days_before_year_decomp, is_leap_decomp by lia.
    replace (c =? 24) with false by (symmetry; apply Z.eqb_neq; lia).
    change (table DAYS_BEFORE_MONTH 12) with 334.
    cbn [andb orb negb Z.eqb Z.ltb Z.compare Pos.compare Pos.compare_cont Pos.eqb].
    rewrite !andb_true_iff, !Z.leb_le. lia.
  - destruct (Z.eqb_spec b 4) as [Hb4|Hb4].
    + (* the last day of a 400-year cycle *)
      assert (r100 = 0) by lia. assert (c = 0) by lia. assert (e = 0) by lia.
      assert (r1 = 0) by lia. assert (a <= 23) by lia.
      replace (a * 400 + 1 + (b * 100 + c * 4 + e) - 1)
        with (400 * a + 100 * 3 + 4 * 24 + 3 + 1) by lia.
      unfold valid_date, toordinal, ymd2ord, MINYEAR, MAXYEAR.
      cbn [year month day].
      change (days_in_month ?y 12) with 31.
      unfold days_before_month.
      rewrite days_before_year_decomp, is_leap_decomp by lia.
      change (table DAYS_BEFORE_MONTH 12) with 334.
      cbn [andb orb negb Z.eqb Z.ltb Z.compare Pos.compare Pos.compare_cont Pos.eqb].
      rewrite !andb_true_iff, !Z.leb_le. lia.
    + assert (b <= 3) by lia. assert (e <= 3) by lia.
      pose proof (month_day_checked
                    ((e =? 3) && (negb (c =? 24) || (b =? 3))) r1 B1) as M.
      unfold month_day_ok in M. cbn [orb].
      destruct (month_day _ r1) as [m d].
      replace (a * 400 + 1 + (b * 100 + c * 4 + e))
        with (400 * a + 100 * b + 4 * c + e + 1) by lia.
      unfold valid_date, toordinal, ymd2ord, days_in_month, days_before_month,
        MINYEAR, MAXYEAR.
      cbn [year month day].
      rewrite days_before_year_decomp, is_leap_decomp by lia.
      rewrite !andb_true_iff, !Z.leb_le, Z.eqb_eq in M.
      rewrite !andb_true_iff, !Z.leb_le. lia.
Qed.

Lemma valid_date_fields (d : date) :
  valid_date d = true ->
  1 <= year d <= 9999 /\ 1 <= month d <= 12
  /\ 1 <= day d <= days_in_month (year d) (month d).
Proof.
  unfold valid_date, MINYEAR, MAXYEAR.
  rewrite !andb_true_iff, !Z.leb_le. lia.
Qed.

Lemma days_before_year_next (y : Z) :
  days_before_year (y + 1)
  = days_before_year y + 365 + (if is_leap y then 1 else 0).
Proof.
  unfold days_before_year, is_leap.
  replace (y + 1 - 1) with y by lia.
  repeat match goal with
         | |- context [?x =? ?y] => destruct (Z.eqb_spec x y)
         end; cbn [andb orb negb];
    Z.div_mod_to_equations; lia.
Qed.

Lemma days_before_year_bounds (y : Z) :
  1 <= y <= 10000 -> 0 <= days_before_year y <= 3652059.
Proof.
  intros H.
  set (a := (y - 1) / 400). set (b := ((y - 1) mod 400) / 100).
  set (c := ((y - 1) mod 100) / 4). set (e := (y - 1) mod 4).
  assert (E : y = 400 * a + 100 * b + 4 * c + e + 1
              /\ 0 <= a <= 24 /\ 0 <= b <= 3 /\ 0 <= c <= 24 /\ 0 <= e <= 3)
    by (subst a b c e; Z.div_mod_to_equations; lia).
  clearbody a b c e. destruct E as (-> & ? & ? & ? & ?).
  rewrite days_before_year_decomp by lia. lia.
Qed.

Ltac eval_tables :=
  repeat match goal with
         | |- context [table ?t ?k] =>
             let v := eval vm_compute in (table t k) in
             change (table t k) with v
         end.

Ltac eval_bools :=
  cbn [andb orb negb Z.eqb Z.ltb Z.leb Z.compare Pos.compare
       Pos.compare_cont Pos.eqb].

(** The day of the year stays within the year. *)
Lemma day_of_year_bounds (y m d : Z) :
  1 <= m <= 12 -> 1 <= d <= days_in_month y m ->
  1 <= days_before_month y m + d <= 365 + (if is_leap y then 1 else 0).
Proof.
  intros Hm. unfold days_in_month, days_before_month.
  assert (C : m = 1 \/ m = 2 \/ m = 3 \/ m = 4 \/ m = 5 \/ m = 6 \/ m = 7
              \/ m = 8 \/ m = 9 \/ m = 10 \/ m = 11 \/ m = 12) by lia.
  destruct (is_leap y);
    repeat (destruct C as [->|C]); try subst m; eval_tables; eval_bools; lia.
Qed.

Lemma toordinal_bounds (d : date) :
  valid_date d = true -> 1 <= toordinal d <= MAXORDINAL.
Proof.
  intros V. apply valid_date_fields in V as (Hy & Hm & Hd).
  unfold toordinal, ymd2ord, MAXORDINAL.
  pose proof (day_of_year_bounds _ _ _ Hm Hd).
  pose proof (days_before_year_next (year d)).
  pose proof (days_before_year_bounds (year d) ltac:(lia)).
  pose proof (days_before_year_bounds (year d + 1) ltac:(lia)).
  lia.
Qed.

(** ** Rendering and parsing dates *)

Lemma digit_cases (a : Z) :
  0 <= a <= 9 ->
  a = 0 \/ a = 1 \/ a = 2 \/ a = 3 \/ a = 4 \/ a = 5 \/ a = 6 \/ a = 7
  \/ a = 8 \/ a = 9.
Proof. lia. Qed.

Ltac each_digit H :=
  apply digit_cases in H;
  repeat (destruct H as [->|H]); [..|subst].


Lemma digit_char_facts (a : Z) :
  0 <= a <= 9 ->
  is_digit (digit_char a) = true
  /\ is_space (digit_char a) = false
  /\ is_char "." (digit_char a) = false
  /\ code (digit_char a) = 48 + a.
Proof. intros H. each_digit H; vm_compute; auto. Qed.

Ltac eval_chars :=
  repeat match goal with
         | |- context [digit_char ?k] =>
             let v := eval vm_compute in (digit_char k) in
             change (digit_char k) with v
         end;
  repeat (repeat match goal with
                 | |- context [is_char ?a ?b] =>
                     let v := eval vm_compute in (is_char a b) in
                     change (is_char a b) with v
                 | |- context [in_class ?a ?b ?c] =>
                     let v := eval vm_compute in (in_class a b c) in
                     change (in_class a b c) with v
                 | |- context [is_digit ?c] =>
                     let v := eval vm_compute in (is_digit c) in
                     change (is_digit c) with v
                 end;
          progress cbn [andb app flat_map map snd fst re_dot]).

Lemma format_regex_matches_day (a1 a2 : Z) (r : string) :
  0 <= a1 <= 9 -> 0 <= a2 <= 9 ->
  format_regex_matches
    (String (digit_char a1) (String (digit_char a2) (String "." r)))
  = if (1 <=? 10 * a1 + a2) && (10 * a1 + a2 <=? 31)
    then
      flat_map (fun mr3 =>
        flat_map (fun r4 =>
          map (fun yr5 =>
                 (String (digit_char a1) (String (digit_char a2) EmptyString),
                  fst mr3, fst yr5, snd yr5)) (re_Y r4))
          (re_dot (snd mr3)))
        (re_m r)
    else [].
Proof.
  intros H1 H2. unfold format_regex_matches.
  each_digit H1; each_digit H2;
    unfold re_d, two_chars, one_char; eval_chars;
    rewrite ?app_nil_r; reflexivity.
Qed.

Lemma flat_map_re_m (A : Type) (b1 b2 : Z) (r : string)
  (k : string * string -> list A) :
  0 <= b1 <= 9 -> 0 <= b2 <= 9 ->
  (forall t, k (t, String (digit_char b2) (String "." r)) = []) ->
  flat_map k (re_m (String (digit_char b1) (String (digit_char b2) (String "." r))))
  = if (1 <=? 10 * b1 + b2) && (10 * b1 + b2 <=? 12)
    then k (String (digit_char b1) (String (digit_char b2) EmptyString),
            String "." r)
    else [].
Proof.
  intros H1 H2 K.
  each_digit H1; each_digit H2;
    unfold re_m, two_chars, one_char; eval_chars;
    rewrite ?K; rewrite ?app_nil_r; reflexivity.
Qed.

Lemma py_int_2 (a1 a2 : Z) :
  0 <= a1 <= 9 -> 0 <= a2 <= 9 ->
  py_int (String (digit_char a1) (String (digit_char a2) EmptyString))
  = 10 * a1 + a2.
Proof.
  intros H1 H2. unfold py_int. cbn [int_acc].
  destruct (digit_char_facts a1 H1) as (-> & _ & _ & ->).
  destruct (digit_char_facts a2 H2) as (-> & _ & _ & ->). lia.
Qed.

Lemma py_int_4 (c1 c2 c3 c4 : Z) :
  0 <= c1 <= 9 -> 0 <= c2 <= 9 -> 0 <= c3 <= 9 -> 0 <= c4 <= 9 ->
  py_int (String (digit_char c1) (String (digit_char c2)
            (String (digit_char c3) (String (digit_char c4) EmptyString))))
  = 1000 * c1 + 100 * c2 + 10 * c3 + c4.
Proof.
  intros H1 H2 H3 H4. unfold py_int. cbn [int_acc].
  destruct (digit_char_facts c1 H1) as (-> & _ & _ & ->).
  destruct (digit_char_facts c2 H2) as (-> & _ & _ & ->).
  destruct (digit_char_facts c3 H3) as (-> & _ & _ & ->).
  destruct (digit_char_facts c4 H4) as (-> & _ & _ & ->). lia.
Qed.

(** [strptime] on a string of the shape [DD.MM.YYYY]: the day and month
    tokens must be a day 01..31 and a month 01..12, and the date must
    exist. *)
Lemma strptime_digits (a1 a2 b1 b2 c1 c2 c3 c4 : Z) :
  0 <= a1 <= 9 -> 0 <= a2 <= 9 -> 0 <= b1 <= 9 -> 0 <= b2 <= 9 ->
  0 <= c1 <= 9 -> 0 <= c2 <= 9 -> 0 <= c3 <= 9 -> 0 <= c4 <= 9 ->
  strptime (dmy_string a1 a2 b1 b2 c1 c2 c3 c4)
  = if (1 <=? 10 * a1 + a2) && (10 * a1 + a2 <=? 31)
       && ((1 <=? 10 * b1 + b2) && (10 * b1 + b2 <=? 12))
    then date_new (1000 * c1 + 100 * c2 + 10 * c3 + c4)
                  (10 * b1 + b2) (10 * a1 + a2)
    else Raise (ValueError "time data does not match format").
Proof.
  intros A1 A2 B1 B2 Y1 Y2 Y3 Y4. unfold strptime, dmy_string.
  rewrite format_regex_matches_day by assumption.
  destruct ((1 <=? 10 * a1 + a2) && (10 * a1 + a2 <=? 31)); [|reflexivity].
  rewrite flat_map_re_m; try assumption.
  - destruct ((1 <=? 10 * b1 + b2) && (10 * b1 + b2 <=? 12)); [|reflexivity].
    cbn [andb snd fst re_dot flat_map].
    change (is_char "." ".") with true. cbn [flat_map app].
    unfold re_Y.
    destruct (digit_char_facts c1 Y1) as (-> & _).
    destruct (digit_char_facts c2 Y2) as (-> & _).
    destruct (digit_char_facts c3 Y3) as (-> & _).
    destruct (digit_char_facts c4 Y4) as (-> & _).
    cbn [andb map app fst snd].
    now rewrite py_int_2, py_int_2, py_int_4.
  - intros t. cbn [snd re_dot].
    destruct (digit_char_facts b2 B2) as (_ & _ & -> & _). reflexivity.
Qed.

Lemma str_year_four (y : Z) : 1000 <= y -> str_year y = zfill4 y.
Proof.
  intros H. unfold str_year.
  destruct (Z.ltb_spec y 10); [lia|]. destruct (Z.ltb_spec y 100); [lia|].
  destruct (Z.ltb_spec y 1000); [lia|reflexivity].
Qed.

Lemma strftime_dmy (d : date) :
  1000 <= year d ->
  strftime d
  = dmy_string (day d / 10) (day d mod 10) (month d / 10) (month d mod 10)
      (year d / 1000) ((year d / 100) mod 10) ((year d / 10) mod 10)
      (year d mod 10).
Proof. intros H. unfold strftime. now rewrite str_year_four. Qed.

(** The match of the day and the month, whatever follows the second
    dot. *)
Lemma format_regex_matches_dm (a1 a2 b1 b2 : Z) (r : string) :
  0 <= a1 <= 9 -> 0 <= a2 <= 9 -> 0 <= b1 <= 9 -> 0 <= b2 <= 9 ->
  format_regex_matches
    (String (digit_char a1) (String (digit_char a2) (String "."
       (String (digit_char b1) (String (digit_char b2) (String "." r))))))
  = if (1 <=? 10 * a1 + a2) && (10 * a1 + a2 <=? 31)
       && ((1 <=? 10 * b1 + b2) && (10 * b1 + b2 <=? 12))
    then map (fun yr5 =>
                (String (digit_char a1) (String (digit_char a2) EmptyString),
                 String (digit_char b1) (String (digit_char b2) EmptyString),
                 fst yr5, snd yr5)) (re_Y r)
    else [].
Proof.
  intros A1 A2 B1 B2.
  rewrite format_regex_matches_day by assumption.
  destruct ((1 <=? 10 * a1 + a2) && (10 * a1 + a2 <=? 31)); [|reflexivity].
  rewrite flat_map_re_m; try assumption.
  - destruct ((1 <=? 10 * b1 + b2) && (10 * b1 + b2 <=? 12)); [|reflexivity].
    cbn [andb snd fst re_dot flat_map].
    change (is_char "." ".") with true. cbn [flat_map app].
    now rewrite app_nil_r.
  - intros t. cbn [snd re_dot].
    destruct (digit_char_facts b2 B2) as (_ & _ & -> & _). reflexivity.
Qed.

Lemma re_Y_short (r : string) : (String.length r < 4)%nat -> re_Y r = [].
Proof.
  destruct r as [|a [|b [|c [|d r]]]]; cbn [String.length re_Y];
    try reflexivity; lia.
Qed.

Lemma str_year_short (y : Z) :
  y < 1000 -> (String.length (str_year y) < 4)%nat.
Proof.
  intros H. unfold str_year.
  destruct (Z.ltb_spec y 10); [cbn; lia|].
  destruct (Z.ltb_spec y 100); [cbn; lia|].
  destruct (Z.ltb_spec y 1000); [cbn; lia|lia].
Qed.

Lemma days_in_month_le_31 (y m : Z) :
  1 <= m <= 12 -> days_in_month y m <= 31.
Proof.
  intros Hm. unfold days_in_month.
  assert (C : m = 1 \/ m = 2 \/ m = 3 \/ m = 4 \/ m = 5 \/ m = 6 \/ m = 7
              \/ m = 8 \/ m = 9 \/ m = 10 \/ m = 11 \/ m = 12) by lia.
  destruct (is_leap y);
    repeat (destruct C as [->|C]); try subst m; eval_tables; eval_bools; lia.
Qed.

Lemma date_new_Ok (y m d : Z) (x : date) :
  date_new y m d = Ok x <-> x = mkdate y m d /\ valid_date (mkdate y m d) = true.
Proof.
  unfold date_new, valid_date. cbn [year month day].
  destruct (MINYEAR <=? y), (y <=? MAXYEAR), (1 <=? m), (m <=? 12),
    (1 <=? d), (d <=? days_in_month y m); cbn [negb andb];
    split; try discriminate; try (intros [_ ?]; discriminate);
    try (intros [= <-]; auto); intros [-> _]; reflexivity.
Qed.

Lemma date_eta (d : date) : mkdate (year d) (month d) (day d) = d.
Proof. now destruct d. Qed.

(** Parsing what [strftime] wrote gives the date back, from the year
    1000 on. *)
Lemma strptime_strftime (d : date) :
  valid_date d = true -> 1000 <= year d -> strptime (strftime d) = Ok d.
Proof.
  intros V Y4. pose proof (valid_date_fields d V) as (Hy & Hm & Hd).
  pose proof (days_in_month_le_31 (year d) (month d) Hm).
  rewrite strftime_dmy by assumption.
  rewrite strptime_digits by (Z.div_mod_to_equations; lia).
  replace (10 * (day d / 10) + day d mod 10) with (day d)
    by (Z.div_mod_to_equations; lia).
  replace (10 * (month d / 10) + month d mod 10) with (month d)
    by (Z.div_mod_to_equations; lia).
  replace (1000 * (year d / 1000) + 100 * (year d / 100 mod 10)
           + 10 * (year d / 10 mod 10) + year d mod 10) with (year d)
    by (Z.div_mod_to_equations; lia).
  replace ((1 <=? day d) && (day d <=? 31)
           && ((1 <=? month d) && (month d <=? 12))) with true
    by (symmetry; rewrite !andb_true_iff, !Z.leb_le; lia).
  apply date_new_Ok. now rewrite date_eta.
Qed.

(** Before the year 1000 the year is written with fewer than four
    digits, and [strptime] does not take the text back. *)
Lemma strptime_strftime_short (d : date) :
  valid_date d = true -> year d < 1000 ->
  strptime (strftime d) = Raise (ValueError "time data does not match format").
Proof.
  intros V Y3. pose proof (valid_date_fields d V) as (Hy & Hm & Hd).
  pose proof (days_in_month_le_31 (year d) (month d) Hm).
  unfold strptime, strftime, zfill2. cbn [String.append].
  rewrite format_regex_matches_dm by (Z.div_mod_to_equations; lia).
  rewrite re_Y_short by now apply str_year_short.
  now destruct (_ && _).
Qed.

(** What [strptime] reads from a rendered date is that date. *)
Lemma strptime_strftime_inv (d k : date) :
  valid_date d = true -> strptime (strftime d) = Ok k ->
  k = d /\ 1000 <= year d.
Proof.
  intros V H. destruct (Z.lt_ge_cases (year d) 1000) as [L|G].
  - rewrite strptime_strftime_short in H by assumption. discriminate.
  - rewrite strptime_strftime in H by (assumption || lia).
    split; [congruence|lia].
Qed.



Lemma Birthday_VStr (today : date) (s : string) (b : date) :
  Birthday today (VStr s) = Ok b ->
  strptime (strip s) = Ok b /\ date_ltb today b = false.
Proof.
  unfold Birthday, parse_birthday.
  destruct (strptime (strip s)) as [d|[]]; cbn [bind]; try discriminate.
  destruct (date_ltb today d) eqn:E; [discriminate|].
  intros [= <-]. auto.
Qed.




(** Outside that shape [Birthday] also takes strings it does not render
    back: a one-digit day or month, blanks around the date. *)
Example birthday_short_day :
  Birthday (mkdate 2024 6 10) (VStr " 5.8.1992 ") = Ok (mkdate 1992 8 5)
  /\ Birthday_str (mkdate 1992 8 5) = "05.08.1992".
Proof. split; reflexivity. Qed.

(** ** Order of dates and order of ordinals *)

Lemma days_before_year_mono (y1 y2 : Z) :
  1 <= y1 -> y1 <= y2 -> days_before_year y1 <= days_before_year y2.
Proof.
  intros H1 H. destruct (Z.eq_dec y1 y2) as [->|N]; [lia|].
  unfold days_before_year. Z.div_mod_to_equations. lia.
Qed.

Lemma days_before_month_next (y m : Z) :
  1 <= m <= 11 ->
  days_before_month y (m + 1) = days_before_month y m + days_in_month y m.
Proof.
  intros Hm. unfold days_in_month, days_before_month.
  assert (C : m = 1 \/ m = 2 \/ m = 3 \/ m = 4 \/ m = 5 \/ m = 6 \/ m = 7
              \/ m = 8 \/ m = 9 \/ m = 10 \/ m = 11) by lia.
  destruct (is_leap y);
    repeat (destruct C as [->|C]); try subst m;
    cbn [Z.add Pos.add Pos.succ]; eval_tables; eval_bools; lia.
Qed.

Lemma days_before_month_mono (y m1 m2 : Z) :
  1 <= m1 -> m1 < m2 -> m2 <= 12 ->
  days_before_month y m1 + days_in_month y m1 <= days_before_month y m2.
Proof.
  intros H1 H H2.
  replace m2 with (m1 + 1 + Z.of_nat (Z.to_nat (m2 - m1 - 1))) in * by lia.
  induction (Z.to_nat (m2 - m1 - 1)) as [|k IH].
  - rewrite Z.add_0_r. rewrite days_before_month_next; lia.
  - rewrite Nat2Z.inj_succ in *.
    replace (m1 + 1 + Z.succ (Z.of_nat k)) with (m1 + 1 + Z.of_nat k + 1) in * by lia.
    rewrite days_before_month_next by lia.
    assert (0 <= days_in_month y (m1 + 1 + Z.of_nat k)).
    { unfold days_in_month.
      assert (C : m1 + 1 + Z.of_nat k = 1 \/ m1 + 1 + Z.of_nat k = 2
                  \/ m1 + 1 + Z.of_nat k = 3 \/ m1 + 1 + Z.of_nat k = 4
                  \/ m1 + 1 + Z.of_nat k = 5 \/ m1 + 1 + Z.of_nat k = 6
                  \/ m1 + 1 + Z.of_nat k = 7 \/ m1 + 1 + Z.of_nat k = 8
                  \/ m1 + 1 + Z.of_nat k = 9 \/ m1 + 1 + Z.of_nat k = 10
                  \/ m1 + 1 + Z.of_nat k = 11) by lia.
      destruct (is_leap y);
        repeat (destruct C as [->|C]); try rewrite C;
        eval_tables; eval_bools; lia. }
    specialize (IH ltac:(lia)). lia.
Qed.

Lemma ymd2ord_lt (y1 m1 d1 y2 m2 d2 : Z) :
  1 <= y1 -> 1 <= m1 <= 12 -> 1 <= d1 <= days_in_month y1 m1 ->
  1 <= y2 -> 1 <= m2 <= 12 -> 1 <= d2 <= days_in_month y2 m2 ->
  y1 < y2 \/ (y1 = y2 /\ (m1 < m2 \/ (m1 = m2 /\ d1 < d2))) ->
  ymd2ord y1 m1 d1 < ymd2ord y2 m2 d2.
Proof.
  intros Y1 M1 D1 Y2 M2 D2 H. unfold ymd2ord.
  pose proof (day_of_year_bounds y1 m1 d1 M1 D1).
  pose proof (day_of_year_bounds y2 m2 d2 M2 D2).
  destruct H as [H|[-> [H|[-> H]]]].
  - pose proof (days_before_year_next y1).
    pose proof (days_before_year_mono (y1 + 1) y2 ltac:(lia) ltac:(lia)). lia.
  - pose proof (days_before_month_mono y2 m1 m2 ltac:(lia) H ltac:(lia)). lia.
  - lia.
Qed.

(** [<] on dates is [<] on their ordinals. *)
Lemma date_ltb_toordinal (d1 d2 : date) :
  valid_date d1 = true -> valid_date d2 = true ->
  date_ltb d1 d2 = true <-> toordinal d1 < toordinal d2.
Proof.
  intros V1 V2.
  apply valid_date_fields in V1 as (Y1 & M1 & D1), V2 as (Y2 & M2 & D2).
  unfold date_ltb, toordinal.
  rewrite !orb_true_iff, !andb_true_iff, !orb_true_iff, !andb_true_iff,
    !Z.ltb_lt, !Z.eqb_eq.
  split.
  - intros H. apply ymd2ord_lt; lia.
  - intros H.
    destruct (Z.lt_trichotomy (year d1) (year d2)) as [?|[Ey|?]]; [lia| |].
    + destruct (Z.lt_trichotomy (month d1) (month d2)) as [?|[Em|?]]; [lia| |].
      * destruct (Z.lt_trichotomy (day d1) (day d2)) as [?|[Ed|?]]; [lia| |].
        -- rewrite Ey, Em, Ed in H. lia.
        -- pose proof (ymd2ord_lt (year d2) (month d2) (day d2)
                         (year d1) (month d1) (day d1)). lia.
      * pose proof (ymd2ord_lt (year d2) (month d2) (day d2)
                      (year d1) (month d1) (day d1)). lia.
    + pose proof (ymd2ord_lt (year d2) (month d2) (day d2)
                    (year d1) (month d1) (day d1)). lia.
Qed.

Lemma toordinal_inj (d1 d2 : date) :
  valid_date d1 = true -> valid_date d2 = true ->
  toordinal d1 = toordinal d2 -> d1 = d2.
Proof.
  intros V1 V2 E.
  pose proof (date_ltb_toordinal d1 d2 V1 V2) as L12.
  pose proof (date_ltb_toordinal d2 d1 V2 V1) as L21.
  destruct (date_ltb d1 d2) eqn:E12; [destruct L12 as [L _]; specialize (L eq_refl); lia|].
  destruct (date_ltb d2 d1) eqn:E21; [destruct L21 as [L _]; specialize (L eq_refl); lia|].
  unfold date_ltb in E12, E21.
  rewrite !orb_false_iff, !andb_false_iff, !orb_false_iff, !andb_false_iff,
    !Z.ltb_ge, !Z.eqb_neq in E12, E21.
  destruct d1 as [y1 m1 x1], d2 as [y2 m2 x2]. cbn [year month day] in *.
  assert (y1 = y2) by lia. assert (m1 = m2) by lia. assert (x1 = x2) by lia.
  congruence.
Qed.

Lemma fromordinal_toordinal (d : date) :
  valid_date d = true -> fromordinal (toordinal d) = d.
Proof.
  intros V. pose proof (toordinal_bounds d V) as B.
  destruct (ord2ymd_spec (toordinal d) B) as [V' E].
  now apply toordinal_inj.
Qed.

(** ** The weekend shift *)

Lemma weekday_range (d : date) : 0 <= weekday d <= 6.
Proof. unfold weekday. pose proof (Z.mod_pos_bound (toordinal d + 6) 7). lia. Qed.

(** Moving a date by the weekend shift never leaves the range of dates,
    lands on a Monday when there is a shift, and is the date itself when
    there is none. *)
Lemma date_add_weekend_shift (occ : date) :
  valid_date occ = true ->
  exists c,
    date_add_days occ (weekend_shift occ) = Ok c
    /\ valid_date c = true
    /\ toordinal c = toordinal occ + weekend_shift occ
    /\ (5 <= weekday occ -> weekday c = 0)
    /\ (weekday occ < 5 -> c = occ).
Proof.
  intros V. pose proof (toordinal_bounds occ V) as B. unfold MAXORDINAL in B.
  pose proof (weekday_range occ) as W.
  unfold date_add_days, weekend_shift, MAXORDINAL.
  assert (K : 1 <= toordinal occ + (if weekday occ =? 5 then 2
                                   else if weekday occ =? 6 then 1 else 0)
              <= 3652059).
  { unfold weekday in *.
    destruct (Z.eqb_spec ((toordinal occ + 6) mod 7) 5);
      [Z.div_mod_to_equations; lia|].
    destruct (Z.eqb_spec ((toordinal occ + 6) mod 7) 6);
      Z.div_mod_to_equations; lia. }
  replace ((0 <? _) && (_ <=? 3652059)) with true
    by (symmetry; rewrite andb_true_iff, Z.ltb_lt, Z.leb_le; lia).
  destruct (ord2ymd_spec _ K) as [Vc Ec].
  eexists. split; [reflexivity|]. split; [exact Vc|]. split; [exact Ec|].
  split.
  - intros H. unfold weekday at 1. unfold fromordinal. rewrite Ec.
    unfold weekday in *.
    destruct (Z.eqb_spec ((toordinal occ + 6) mod 7) 5);
      [Z.div_mod_to_equations; lia|].
    destruct (Z.eqb_spec ((toordinal occ + 6) mod 7) 6);
      Z.div_mod_to_equations; lia.
  - intros H.
    destruct (Z.eqb_spec (weekday occ) 5); [lia|].
    destruct (Z.eqb_spec (weekday occ) 6); [lia|].
    rewrite Z.add_0_r. now apply fromordinal_toordinal.
Qed.

(** The code's shift is the shift of the design. *)
Lemma congrats_of_shift (occ : date) :
  congrats_of occ = date_add_days occ (weekend_shift occ)
  \/ (weekday occ < 5 /\ congrats_of occ = Ok occ).
Proof.
  unfold congrats_of, weekend_shift. pose proof (weekday_range occ).
  destruct (Z.leb_spec 5 (weekday occ)); [left|right; split; [lia|reflexivity]].
  destruct (Z.eqb_spec (weekday occ) 5) as [->|]; [reflexivity|].
  destruct (Z.eqb_spec (weekday occ) 6) as [->|]; [reflexivity|lia].
Qed.

Lemma congrats_of_spec (occ : date) :
  valid_date occ = true ->
  exists c,
    congrats_of occ = Ok c
    /\ date_add_days occ (weekend_shift occ) = Ok c
    /\ valid_date c = true
    /\ (5 <= weekday occ -> weekday c = 0)
    /\ (weekday occ < 5 -> c = occ).
Proof.
  intros V.
  destruct (date_add_weekend_shift occ V) as (c & A & Vc & _ & Sh & Un).
  exists c. repeat split; try assumption.
  destruct (congrats_of_shift occ) as [->|[Hw ->]]; [assumption|].
  now rewrite (Un Hw).
Qed.

(** ** The loop of the query *)

Lemma candidate_valid (today b c : date) :
  candidate today b = Ok c -> valid_date c = true.
Proof.
  unfold candidate.
  destruct (date_new (year today) (month b) (day b)) as [c0|e] eqn:E0;
    cbn [bind]; [|discriminate].
  destruct (date_ltb c0 today).
  - intros H. apply date_new_Ok in H as [-> V]. exact V.
  - intros [= <-]. apply date_new_Ok in E0 as [-> V]. exact V.
Qed.

Lemma candidate_raises (today b : date) (e : exn) :
  candidate today b = Raise e -> exists msg, e = ValueError msg.
Proof.
  unfold candidate.
  destruct (date_new (year today) (month b) (day b)) as [c0|e0] eqn:E0;
    cbn [bind].
  - destruct (date_ltb c0 today); [apply date_new_raises|discriminate].
  - intros [= <-]. eapply date_new_raises; eauto.
Qed.

(** One turn of the loop, on an empty list. *)
Lemma upcoming_step_spec (today : date) (r : Rec) :
  match birthday r with
  | None => upcoming_step today r [] = Ok []
  | Some b =>
      match candidate today b with
      | Raise e =>
          upcoming_step today r [] = Raise e /\ exists msg, e = ValueError msg
      | Ok occ =>
          if in_window today occ
          then exists c,
              date_add_days occ (weekend_shift occ) = Ok c
              /\ valid_date c = true
              /\ (5 <= weekday occ -> weekday c = 0)
              /\ (weekday occ < 5 -> c = occ)
              /\ upcoming_step today r [] = Ok [mkentry (name r) (strftime c)]
          else upcoming_step today r [] = Ok []
      end
  end.
Proof.
  unfold upcoming_step, in_window.
  destruct (birthday r) as [b|]; [|reflexivity].
  destruct (candidate today b) as [occ|e] eqn:C; cbn [bind].
  - destruct (_ && _); [|reflexivity].
    destruct (congrats_of_spec occ (candidate_valid _ _ _ C))
      as (c & -> & A & V & Sh & Un).
    exists c. cbn [bind app]. auto.
  - split; [reflexivity|]. eapply candidate_raises; eauto.
Qed.

Lemma upcoming_step_acc (today : date) (r : Rec) (acc : list entry) :
  upcoming_step today r acc
  = match upcoming_step today r [] with
    | Ok l => Ok (acc ++ l)
    | Raise e => Raise e
    end.
Proof.
  unfold upcoming_step.
  destruct (birthday r) as [b|]; [|now rewrite app_nil_r].
  destruct (candidate today b) as [occ|e]; cbn [bind]; [|reflexivity].
  destruct (_ && _); [|now rewrite app_nil_r].
  destruct (congrats_of occ); reflexivity.
Qed.

Lemma upcoming_step_raises (today : date) (r : Rec) (e : exn) :
  upcoming_step today r [] = Raise e -> exists msg, e = ValueError msg.
Proof.
  pose proof (upcoming_step_spec today r) as S.
  destruct (birthday r) as [b|]; [|congruence].
  destruct (candidate today b) as [occ|e'].
  - destruct (in_window today occ); [|congruence].
    destruct S as (c & _ & _ & _ & _ & ->). discriminate.
  - destruct S as [-> M]. now intros [= <-].
Qed.

Lemma entries_of_step (today : date) (r : Rec) (l : list entry) :
  upcoming_step today r [] = Ok l -> entries_of today r = l.
Proof. unfold entries_of. now intros ->. Qed.

(** The loop returns exactly when every turn does, and then it has
    collected the entries of the records in the order of the records. *)
Lemma upcoming_loop_Ok (today : date) (rs : list Rec) (acc res : list entry) :
  upcoming_loop today rs acc = Ok res <->
  Forall (fun r => exists l, upcoming_step today r [] = Ok l) rs
  /\ res = acc ++ flat_map (entries_of today) rs.
Proof.
  revert acc. induction rs as [|r rs IH]; intros acc; cbn [upcoming_loop flat_map].
  - rewrite app_nil_r. split; [intros [= <-]; auto|intros [_ ->]; reflexivity].
  - rewrite upcoming_step_acc.
    destruct (upcoming_step today r []) as [l|e] eqn:S; cbn [bind].
    + rewrite IH, (entries_of_step _ _ _ S), app_assoc. split.
      * intros [F ->]. split; [constructor; eauto|reflexivity].
      * intros [F ->]. inversion F; subst. auto.
    + split; [discriminate|]. intros [F _]. inversion F as [|? ? [l Hl] ?]; subst.
      congruence.
Qed.

Lemma upcoming_loop_raises (today : date) (rs : list Rec) (acc : list entry)
  (e : exn) :
  upcoming_loop today rs acc = Raise e -> exists msg, e = ValueError msg.
Proof.
  revert acc. induction rs as [|r rs IH]; intros acc; cbn [upcoming_loop];
    [discriminate|].
  rewrite upcoming_step_acc.
  destruct (upcoming_step today r []) as [l|e'] eqn:S; cbn [bind].
  - apply IH.
  - intros [= <-]. eapply upcoming_step_raises; eauto.
Qed.

(** ** The final sort *)

Lemma date_ltb_irrefl (d : date) : date_ltb d d = false.
Proof.
  unfold date_ltb. rewrite !Z.ltb_irrefl, !Z.eqb_refl. reflexivity.
Qed.

Lemma date_ltb_asym (a b : date) :
  date_ltb a b = true -> date_ltb b a = false.
Proof.
  unfold date_ltb.
  rewrite !orb_true_iff, !andb_true_iff, !orb_true_iff, !andb_true_iff,
    !orb_false_iff, !andb_false_iff, !orb_false_iff, !andb_false_iff,
    !Z.ltb_lt, !Z.eqb_eq, !Z.ltb_ge, !Z.eqb_neq.
  lia.
Qed.

Section Sort_by.

Context {A : Type}.

Lemma insert_by_perm (x : date * A) (l : list (date * A)) :
  Permutation (insert_by x l) (x :: l).
Proof.
  induction l as [|y l IH]; cbn [insert_by]; [reflexivity|].
  destruct (date_ltb (fst y) (fst x)); [|reflexivity].
  rewrite IH. apply perm_swap.
Qed.

Lemma sort_by_perm (l : list (date * A)) :
  Permutation (sort_by l) l.
Proof.
  induction l as [|x l IH]; cbn [sort_by]; [reflexivity|].
  rewrite insert_by_perm. now constructor.
Qed.

(** Inserting [x] puts it in front of every item that [p] selects, when
    no selected item has a key below the key of a selected [x]. *)
Lemma filter_insert_by (p : date * A -> bool) (x : date * A)
  (l : list (date * A)) :
  (p x = true ->
   forall y, In y l -> p y = true -> date_ltb (fst y) (fst x) = false) ->
  filter p (insert_by x l) = filter p (x :: l).
Proof.
  induction l as [|y l IH]; intros H; cbn [insert_by]; [reflexivity|].
  destruct (date_ltb (fst y) (fst x)) eqn:L; [|reflexivity].
  cbn [filter]. rewrite IH by (intros Hx z Hz; apply H; [assumption|now right]).
  cbn [filter]. destruct (p x) eqn:Px; [|reflexivity].
  destruct (p y) eqn:Py; [|reflexivity].
  rewrite (H eq_refl y (or_introl eq_refl) Py) in L. discriminate.
Qed.

(** The sort is stable: the items [p] selects keep their order, when [p]
    only selects items of one key. *)
Lemma filter_sort_by (p : date * A -> bool) (l : list (date * A)) :
  (forall x y, In x l -> In y l -> p x = true -> p y = true -> fst x = fst y) ->
  filter p (sort_by l) = filter p l.
Proof.
  induction l as [|x l IH]; intros H; cbn [sort_by]; [reflexivity|].
  rewrite filter_insert_by.
  - cbn [filter]. rewrite IH; [reflexivity|].
    intros a b Ha Hb. apply H; now right.
  - intros Px y Hy Py.
    apply (Permutation_in _ (sort_by_perm l)) in Hy.
    rewrite (H y x (or_intror Hy) (or_introl eq_refl) Py Px).
    apply date_ltb_irrefl.
Qed.

(** The sort leaves no item with a key below the key of the item before
    it. *)
Lemma sort_by_sorted (l : list (date * A)) :
  Sorted (fun a b => date_ltb (fst b) (fst a) = false) (sort_by l).
Proof.
  induction l as [|x l IH]; cbn [sort_by]; [constructor|].
  induction IH as [|y s Hs IHs Hy]; cbn [insert_by].
  - repeat constructor.
  - destruct (date_ltb (fst y) (fst x)) eqn:L.
    + constructor; [assumption|].
      destruct s as [|z s]; cbn [insert_by].
      * constructor. now apply date_ltb_asym.
      * destruct (date_ltb (fst z) (fst x)).
        -- constructor. now inversion Hy.
        -- constructor. now apply date_ltb_asym.
    + constructor; [now constructor|]. now constructor.
Qed.

End Sort_by.

(** An entry whose date the sort can parse. *)
Lemma decorate_Ok (l : list entry) (kl : list (date * entry)) :
  decorate sort_key l = Ok kl ->
  map snd kl = l
  /\ Forall (fun kx => sort_key (snd kx) = Ok (fst kx)) kl.
Proof.
  revert kl. induction l as [|e l IH]; cbn [decorate]; intros kl.
  - intros [= <-]. split; constructor.
  - destruct (sort_key e) as [k|x] eqn:K; cbn [bind]; [|discriminate].
    destruct (decorate sort_key l) as [kl'|x]; cbn [bind]; [|discriminate].
    intros [= <-]. destruct (IH kl' eq_refl) as [M F].
    split; [cbn [map snd]; now rewrite M|]. now constructor.
Qed.

Lemma decorate_returns (l : list entry) :
  Forall (fun e => exists k, sort_key e = Ok k) l ->
  exists kl, decorate sort_key l = Ok kl.
Proof.
  induction 1 as [|e l [k K] Hl [kl D]]; cbn [decorate]; [eauto|].
  rewrite K, D. cbn [bind]. eauto.
Qed.

Lemma decorate_raises (l : list entry) (x : exn) :
  decorate sort_key l = Raise x -> exists msg, x = ValueError msg.
Proof.
  induction l as [|e l IH]; cbn [decorate]; [discriminate|].
  destruct (sort_key e) as [k|x'] eqn:K; cbn [bind].
  - destruct (decorate sort_key l) as [kl'|x']; cbn [bind]; [discriminate|].
    intros [= <-]. now apply IH.
  - intros [= <-]. unfold sort_key in K. eapply strptime_raises; eauto.
Qed.

Lemma filter_map_snd {A K : Type} (p : A -> bool) (l : list (K * A)) :
  filter p (map snd l) = map snd (filter (fun kx => p (snd kx)) l).
Proof.
  induction l as [|x l IH]; cbn [map filter]; [reflexivity|].
  destruct (p (snd x)); cbn [map]; now rewrite IH.
Qed.

(** [sorted] on entries: when it returns, the date of every entry was
    parsed, the result is a rearrangement, and entries of one date keep
    their order. *)
Lemma sorted_Ok (l out : list entry) :
  sorted sort_key l = Ok out ->
  Forall (fun e => exists k, sort_key e = Ok k) l
  /\ Permutation l out
  /\ forall s, filter (has_date s) out = filter (has_date s) l.
Proof.
  unfold sorted. destruct (decorate sort_key l) as [kl|x] eqn:D; cbn [bind];
    [|discriminate].
  intros [= <-]. destruct (decorate_Ok l kl D) as [M F].
  split; [|split].
  - rewrite <- M. apply Forall_forall. intros e He.
    apply in_map_iff in He as (kx & <- & Hkx).
    rewrite Forall_forall in F. eauto.
  - rewrite <- M. apply Permutation_map. symmetry. apply sort_by_perm.
  - intros s. rewrite <- M. rewrite !filter_map_snd. f_equal.
    apply filter_sort_by. intros x y Hx Hy Px Py.
    rewrite Forall_forall in F.
    pose proof (F x Hx) as Kx. pose proof (F y Hy) as Ky.
    unfold has_date in Px, Py. apply String.eqb_eq in Px, Py.
    unfold sort_key in Kx, Ky. rewrite Px in Kx. rewrite Py in Ky.
    congruence.
Qed.

Lemma sorted_returns (l : list entry) :
  Forall (fun e => exists k, sort_key e = Ok k) l ->
  exists out, sorted sort_key l = Ok out.
Proof.
  intros H. destruct (decorate_returns l H) as [kl D].
  unfold sorted. rewrite D. cbn [bind]. eauto.
Qed.

Lemma sorted_raises (l : list entry) (x : exn) :
  sorted sort_key l = Raise x -> exists msg, x = ValueError msg.
Proof.
  unfold sorted. destruct (decorate sort_key l) as [kl|x'] eqn:D; cbn [bind];
    [discriminate|].
  intros [= <-]. eapply decorate_raises; eauto.
Qed.

(** ** The query *)

(** What a record with a birthday contributes. *)
Lemma entries_of_birthday (today : date) (r : Rec) (b occ : date) :
  birthday r = Some b ->
  candidate today b = Ok occ ->
  exists c,
    date_add_days occ (weekend_shift occ) = Ok c
    /\ valid_date c = true
    /\ (5 <= weekday occ -> weekday c = 0)
    /\ (weekday occ < 5 -> c = occ)
    /\ upcoming_step today r [] = Ok (entries_of today r)
    /\ entries_of today r
       = if in_window today occ then [mkentry (name r) (strftime c)] else [].
Proof.
  intros Hb Hc. pose proof (upcoming_step_spec today r) as S.
  rewrite Hb, Hc in S. unfold entries_of.
  destruct (in_window today occ).
  - destruct S as (c & A & V & Sh & Un & ->). exists c. auto 6.
  - rewrite S.
    destruct (date_add_weekend_shift occ (candidate_valid _ _ _ Hc))
      as (c & A & V & _ & Sh & Un).
    exists c. auto 6.
Qed.

(** Where an entry of a record comes from. *)
Lemma entries_of_In (today : date) (r : Rec) (e : entry) :
  In e (entries_of today r) ->
  exists b occ c,
    birthday r = Some b
    /\ candidate today b = Ok occ
    /\ in_window today occ = true
    /\ date_add_days occ (weekend_shift occ) = Ok c
    /\ valid_date c = true
    /\ (5 <= weekday occ -> weekday c = 0)
    /\ (weekday occ < 5 -> c = occ)
    /\ e = mkentry (name r) (strftime c).
Proof.
  intros He. pose proof (upcoming_step_spec today r) as S.
  unfold entries_of in He.
  destruct (birthday r) as [b|]; [|rewrite S in He; destruct He].
  destruct (candidate today b) as [occ|e'] eqn:C.
  - destruct (in_window today occ) eqn:W; [|rewrite S in He; destruct He].
    destruct S as (c & A & V & Sh & Un & S). rewrite S in He.
    destruct He as [<-|[]]. exists b, occ, c. auto 8.
  - destruct S as [S _]. rewrite S in He. destruct He.
Qed.

Lemma entries_of_rendered (today : date) (rs : list Rec) :
  Forall rendered (flat_map (entries_of today) rs).
Proof.
  apply Forall_forall. intros e He. apply in_flat_map in He as (r & _ & He).
  apply entries_of_In in He as (b & occ & c & _ & _ & _ & _ & V & _ & _ & ->).
  exists c. auto.
Qed.

(** The query returns exactly when every turn of its loop does and the
    sort can parse every date written; what it returns is a rearrangement
    of the entries in the order of the store in which entries of one date
    keep that order. *)
Lemma get_upcoming_birthdays_Ok (today : date) (book : AddressBook) :
  (Forall (fun r => exists l, upcoming_step today r [] = Ok l)
     (dict_values book) ->
   Forall (fun e => exists k, sort_key e = Ok k)
     (flat_map (entries_of today) (dict_values book)) ->
   exists out, get_upcoming_birthdays today book = Ok out)
  /\ (forall out,
        get_upcoming_birthdays today book = Ok out ->
        Forall (fun r => exists l, upcoming_step today r [] = Ok l)
          (dict_values book)
        /\ Permutation (flat_map (entries_of today) (dict_values book)) out
        /\ forall s,
            filter (has_date s) out
            = filter (has_date s)
                (flat_map (entries_of today) (dict_values book))).
Proof.
  unfold get_upcoming_birthdays. split.
  - intros F S.
    assert (L : upcoming_loop today (dict_values book) []
                = Ok (flat_map (entries_of today) (dict_values book)))
      by (apply upcoming_loop_Ok; auto).
    rewrite L. cbn [bind]. now apply sorted_returns.
  - intros out H.
    destruct (upcoming_loop today (dict_values book) []) as [res|e] eqn:L;
      cbn [bind] in H; [|discriminate].
    apply upcoming_loop_Ok in L as [F ->]. cbn [app] in H.
    apply sorted_Ok in H as (_ & P & St). auto.
Qed.

(** When the query returns, the date of each entry is read back by the
    sort as the date that was written. *)
Lemma upcoming_parses (today : date) (book : AddressBook) (out : list entry)
  (e : entry) (c : date) :
  get_upcoming_birthdays today book = Ok out ->
  In e (flat_map (entries_of today) (dict_values book)) ->
  valid_date c = true ->
  congratulation_date e = strftime c ->
  sort_key e = Ok c /\ 1000 <= year c.
Proof.
  unfold get_upcoming_birthdays. intros H He V E.
  destruct (upcoming_loop today (dict_values book) []) as [res|x] eqn:L;
    cbn [bind] in H; [|discriminate].
  apply upcoming_loop_Ok in L as [_ ->]. cbn [app] in H.
  apply sorted_Ok in H as (S & _ & _). rewrite Forall_forall in S.
  destruct (S e He) as [k K]. unfold sort_key in *. rewrite E in *.
  destruct (strptime_strftime_inv c k V K) as [-> Y]. auto.
Qed.

Lemma get_upcoming_birthdays_raises (today : date) (book : AddressBook)
  (e : exn) :
  get_upcoming_birthdays today book = Raise e -> exists msg, e = ValueError msg.
Proof.
  unfold get_upcoming_birthdays.
  destruct (upcoming_loop today (dict_values book) []) as [res|e'] eqn:L;
    cbn [bind].
  - apply sorted_raises.
  - intros [= <-]. eapply upcoming_loop_raises; eauto.
Qed.

Lemma names_NoDup (book : AddressBook) :
  keys_match book -> NoDup (dict_keys book) ->
  NoDup (map name (dict_values book)).
Proof.
  unfold keys_match, dict_keys, dict_values. intros K N.
  replace (map name (map snd book)) with (map fst book); [assumption|].
  rewrite map_map. apply map_ext_in. intros kv Hkv.
  rewrite Forall_forall in K. now apply K.
Qed.

Lemma NoDup_map_inj {A B : Type} (f : A -> B) (l : list A) (x y : A) :
  NoDup (map f l) -> In x l -> In y l -> f x = f y -> x = y.
Proof.
  induction l as [|a l IH]; cbn [map]; intros N Hx Hy E; [destruct Hx|].
  inversion N as [|? ? Na Nl]; subst.
  destruct Hx as [->|Hx], Hy as [->|Hy]; auto.
  - exfalso. apply Na. rewrite E. now apply in_map.
  - exfalso. apply Na. rewrite <- E. now apply in_map.
Qed.

(** The candidate of the code is the occurrence of the design. *)
Lemma candidate_occurrence (today b occ : date) :
  candidate today b = Ok occ -> occ = occurrence today b.
Proof.
  unfold candidate, occurrence.
  destruct (date_new (year today) (month b) (day b)) as [c0|e] eqn:E0;
    cbn [bind]; [|discriminate].
  apply date_new_Ok in E0 as [-> _].
  destruct (date_ltb (mkdate (year today) (month b) (day b)) today).
  - intros H. now apply date_new_Ok in H as [-> _].
  - now intros [= <-].
Qed.

(** C2. In a store whose keys are the names of its records, when the
    query returns: for every record with a birthday, let the occurrence be
    the birthday's month and day in today's year, taken in the next year
    when that date is strictly before today.  The code builds exactly that
    date, it is a date of the calendar, and the record's name is in the
    result if and only if the occurrence is at least 0 and less than 7
    days after today.  In particular a birthday whose month and day are
    today's is in the result, and one whose occurrence is exactly 7 days
    after today is not. *)
Theorem upcoming_window (today : date) (book : AddressBook) (out : list entry) :
  keys_match book ->
  NoDup (dict_keys book) ->
  get_upcoming_birthdays today book = Ok out ->
  forall r b,
    In r (dict_values book) ->
    birthday r = Some b ->
    candidate today b = Ok (occurrence today b)
    /\ valid_date (occurrence today b) = true
    /\ (In (name r) (map entry_name out)
        <-> 0 <= days_between (occurrence today b) today < 7)
    /\ (month b = month today -> day b = day today ->
        occurrence today b = today /\ In (name r) (map entry_name out))
    /\ (days_between (occurrence today b) today = 7 ->
        ~ In (name r) (map entry_name out)).
Proof.
  intros K N H r b Hr Hb.
  apply get_upcoming_birthdays_Ok in H as (F & P & _).
  rewrite Forall_forall in F. destruct (F r Hr) as [l Hl].
  pose proof (upcoming_step_spec today r) as S. rewrite Hb in S.
  destruct (candidate today b) as [occ|e] eqn:C;
    [clear S|destruct S as [S _]; congruence].
  pose proof (candidate_valid _ _ _ C) as V.
  pose proof (candidate_occurrence _ _ _ C) as ->.
  destruct (entries_of_birthday today r b _ Hb C) as (c & _ & _ & _ & _ & _ & E).
  assert (W : in_window today (occurrence today b) = true
              <-> 0 <= days_between (occurrence today b) today < 7)
    by (unfold in_window; rewrite andb_true_iff, Z.leb_le, Z.ltb_lt; tauto).
  assert (I : In (name r) (map entry_name out)
              <-> 0 <= days_between (occurrence today b) today < 7).
  { rewrite <- W. split.
    - intros Hin. apply in_map_iff in Hin as (e & En & He).
      apply (Permutation_in _ (Permutation_sym P)) in He.
      apply in_flat_map in He as (r' & Hr' & He).
      apply entries_of_In in He
        as (b' & occ' & c' & Hb' & C' & W' & _ & _ & _ & _ & ->).
      cbn [entry_name] in En.
      assert (r' = r)
        by (eapply NoDup_map_inj; eauto using names_NoDup).
      subst r'. congruence.
    - intros Hw. rewrite Hw in E.
      apply in_map_iff. exists (mkentry (name r) (strftime c)).
      split; [reflexivity|].
      apply (Permutation_in _ P), in_flat_map. exists r.
      split; [assumption|]. rewrite E. now left. }
  split; [reflexivity|]. split; [assumption|]. split; [assumption|]. split.
  - intros Em Ed.
    assert (O : occurrence today b = today).
    { unfold occurrence. rewrite Em, Ed, date_eta, date_ltb_irrefl.
      reflexivity. }
    split; [assumption|]. apply I. rewrite O. unfold days_between. lia.
  - intros D7 Hin. apply I in Hin. lia.
Qed.

Lemma upcoming_window_witness :
  (In "Bo" (map entry_name [mkentry "Cy" "10.06.2024"])
   <-> 0 <= days_between (occurrence (mkdate 2024 6 10) (mkdate 1990 6 17))
                         (mkdate 2024 6 10) < 7)
  /\ In "Cy" (map entry_name [mkentry "Cy" "10.06.2024"]).
Proof.
  assert (K : keys_match [("Cy", mkRec "Cy" [] (Some (mkdate 1990 6 10)));
                          ("Bo", mkRec "Bo" [] (Some (mkdate 1990 6 17)))])
    by (repeat constructor).
  assert (N : NoDup (dict_keys
                       [("Cy", mkRec "Cy" [] (Some (mkdate 1990 6 10)));
                        ("Bo", mkRec "Bo" [] (Some (mkdate 1990 6 17)))]))
    by (repeat constructor; cbn; intuition discriminate).
  split.
  - apply (upcoming_window (mkdate 2024 6 10) _ [mkentry "Cy" "10.06.2024"]
             K N eq_refl (mkRec "Bo" [] (Some (mkdate 1990 6 17)))
             (mkdate 1990 6 17)).
    + cbn. right. left. reflexivity.
    + reflexivity.
  - apply (upcoming_window (mkdate 2024 6 10) _ [mkentry "Cy" "10.06.2024"]
             K N eq_refl (mkRec "Cy" [] (Some (mkdate 1990 6 10)))
             (mkdate 1990 6 10)).
    + cbn. left. reflexivity.
    + reflexivity.
    + reflexivity.
    + reflexivity.
Defined.

(** The boundaries of the window on 10.06.2024: a birthday on 10.06 is
    reported, one on 17.06 is not. *)
Example upcoming_window_boundaries :
  get_upcoming_birthdays (mkdate 2024 6 10)
    [("Cy", mkRec "Cy" [] (Some (mkdate 1990 6 10)));
     ("Bo", mkRec "Bo" [] (Some (mkdate 1990 6 17)))]
  = Ok [mkentry "Cy" "10.06.2024"].
Proof. vm_compute. reflexivity. Qed.

(** C3. When the query returns, every record whose occurrence is in the
    window has an entry whose date is the rendered occurrence moved by 2
    days from a Saturday and by 1 day from a Sunday (a Monday in both
    cases) and not moved otherwise; and every entry of the result is such
    an entry of a record whose unshifted occurrence is in the window: the
    window is tested on the occurrence, never on the shifted date. *)
Theorem upcoming_weekend_shift (today : date) (book : AddressBook)
  (out : list entry) :
  get_upcoming_birthdays today book = Ok out ->
  (forall r b occ,
      In r (dict_values book) ->
      birthday r = Some b ->
      candidate today b = Ok occ ->
      0 <= days_between occ today < 7 ->
      exists c,
        date_add_days occ (weekend_shift occ) = Ok c
        /\ In (mkentry (name r) (strftime c)) out
        /\ (weekday occ = 5 \/ weekday occ = 6 -> weekday c = 0)
        /\ (weekday occ < 5 -> c = occ))
  /\ (forall e,
        In e out ->
        exists r b occ c,
          In r (dict_values book)
          /\ birthday r = Some b
          /\ candidate today b = Ok occ
          /\ 0 <= days_between occ today < 7
          /\ date_add_days occ (weekend_shift occ) = Ok c
          /\ e = mkentry (name r) (strftime c)).
Proof.
  intros H. apply get_upcoming_birthdays_Ok in H as (_ & P & _).
  split.
  - intros r b occ Hr Hb C W.
    destruct (entries_of_birthday today r b occ Hb C)
      as (c & A & _ & Sh & Un & _ & E).
    exists c. split; [assumption|]. split; [|split; [intros; apply Sh; lia|assumption]].
    apply (Permutation_in _ P), in_flat_map. exists r. split; [assumption|].
    rewrite E.
    replace (in_window today occ) with true; [now left|].
    symmetry. unfold in_window. rewrite andb_true_iff, Z.leb_le, Z.ltb_lt. lia.
  - intros e He. apply (Permutation_in _ (Permutation_sym P)) in He.
    apply in_flat_map in He as (r & Hr & He).
    apply entries_of_In in He as (b & occ & c & Hb & C & W & A & _ & _ & _ & ->).
    exists r, b, occ, c. repeat split; try assumption;
      unfold in_window in W; rewrite andb_true_iff, Z.leb_le, Z.ltb_lt in W; lia.
Qed.

Lemma upcoming_weekend_shift_witness :
  exists c,
    date_add_days (mkdate 2024 6 16) (weekend_shift (mkdate 2024 6 16)) = Ok c
    /\ In (mkentry "Ann" (strftime c)) [mkentry "Ann" "17.06.2024"]
    /\ (weekday (mkdate 2024 6 16) = 5 \/ weekday (mkdate 2024 6 16) = 6 ->
        weekday c = 0)
    /\ (weekday (mkdate 2024 6 16) < 5 -> c = mkdate 2024 6 16).
Proof.
  apply (proj1 (upcoming_weekend_shift (mkdate 2024 6 10)
                  [("Ann", mkRec "Ann" ["0931234567"] (Some (mkdate 1990 6 16)));
                   ("Bo", mkRec "Bo" [] (Some (mkdate 1990 6 17)))]
                  [mkentry "Ann" "17.06.2024"] ltac:(vm_compute; reflexivity))
           (mkRec "Ann" ["0931234567"] (Some (mkdate 1990 6 16)))
           (mkdate 1990 6 16)).
  - cbn. left. reflexivity.
  - reflexivity.
  - reflexivity.
  - vm_compute. split; [discriminate|reflexivity].
Defined.

(** On Monday 10.06.2024 a birthday on Sunday 16.06 is reported for
    17.06.2024, a date that is itself outside the window. *)
Example upcoming_sunday_reported_on_monday :
  get_upcoming_birthdays (mkdate 2024 6 10)
    [("Ann", mkRec "Ann" ["0931234567"] (Some (mkdate 1990 6 16)));
     ("Bo", mkRec "Bo" [] (Some (mkdate 1990 6 17)))]
  = Ok [mkentry "Ann" "17.06.2024"]
  /\ days_between (mkdate 2024 6 17) (mkdate 2024 6 10) = 7.
Proof. split; vm_compute; reflexivity. Qed.

(** C10. Every date in the result of the query parses to a day from
    Monday to Friday: never a Saturday, never a Sunday. *)
Theorem upcoming_on_weekdays (today : date) (book : AddressBook)
  (out : list entry) :
  get_upcoming_birthdays today book = Ok out ->
  forall e,
    In e out ->
    exists c,
      strptime (congratulation_date e) = Ok c
      /\ 0 <= weekday c <= 4.
Proof.
  intros H e He. pose proof H as Q.
  apply get_upcoming_birthdays_Ok in H as (_ & P & _).
  apply (Permutation_in _ (Permutation_sym P)) in He.
  pose proof He as He'.
  apply in_flat_map in He as (r & Hr & He).
  apply entries_of_In in He as (b & occ & c & _ & _ & _ & _ & V & Sh & Un & ->).
  exists c. split; [exact (proj1 (upcoming_parses _ _ _ _ c Q He' V eq_refl))|].
  pose proof (weekday_range occ).
  destruct (Z.le_gt_cases 5 (weekday occ)) as [L|L].
  - rewrite (Sh L). lia.
  - rewrite (Un ltac:(lia)). lia.
Qed.

Lemma upcoming_on_weekdays_witness :
  exists c,
    strptime (congratulation_date (mkentry "Dd" "17.06.2024")) = Ok c
    /\ 0 <= weekday c <= 4.
Proof.
  apply (upcoming_on_weekdays (mkdate 2024 6 10)
           [("Cy", mkRec "Cy" [] (Some (mkdate 1990 6 10)));
            ("Dd", mkRec "Dd" [] (Some (mkdate 1990 6 15)))]
           [mkentry "Cy" "10.06.2024"; mkentry "Dd" "17.06.2024"]).
  - vm_compute. reflexivity.
  - cbn. right. left. reflexivity.
Defined.

Lemma is_leap_next (y : Z) : is_leap y = true -> is_leap (y + 1) = false.
Proof.
  unfold is_leap.
  destruct (Z.eqb_spec (y mod 4) 0) as [E|]; [|discriminate]. intros _.
  destruct (Z.eqb_spec ((y + 1) mod 4) 0) as [E'|]; [|reflexivity].
  exfalso. Z.div_mod_to_equations. lia.
Qed.

Lemma date_new_feb29 (y : Z) (c : date) :
  date_new y 2 29 = Ok c -> c = mkdate y 2 29 /\ is_leap y = true.
Proof.
  intros H. apply date_new_Ok in H as [-> V]. split; [reflexivity|].
  apply valid_date_fields in V as (_ & _ & D). cbn [year month day] in D.
  unfold days_in_month in D. destruct (is_leap y); [reflexivity|].
  exfalso. vm_compute in D. destruct D as [_ D]. now apply D.
Qed.

(** C6. When a stored record's birthday is 29 February and the year the
    occurrence is built in (today's year, or the next one when 29 February
    of today's year is strictly before today) is not a leap year, the
    query raises [ValueError] from the date construction and returns no
    result: no rule skips or clamps that day. *)
Theorem upcoming_feb29_raises (today : date) (book : AddressBook) (r : Rec)
  (b : date) (target : Z) :
  In r (dict_values book) ->
  birthday r = Some b ->
  month b = 2 -> day b = 29 ->
  target = year today
  \/ (target = year today + 1
      /\ date_ltb (mkdate (year today) 2 29) today = true) ->
  is_leap target = false ->
  exists msg, get_upcoming_birthdays today book = Raise (ValueError msg).
Proof.
  intros Hr Hb Hm Hd Ht Hl.
  assert (C : exists e, candidate today b = Raise e).
  { unfold candidate. rewrite Hm, Hd.
    destruct (date_new (year today) 2 29) as [c0|e] eqn:E0; cbn [bind]; [|eauto].
    apply date_new_feb29 in E0 as [-> L].
    destruct Ht as [->|[-> ->]]; [congruence|].
    destruct (date_new (year today + 1) 2 29) as [c1|e] eqn:E1; [|eauto].
    apply date_new_feb29 in E1 as [_ L1]. congruence. }
  destruct C as [e C].
  destruct (get_upcoming_birthdays today book) as [out|e'] eqn:Q.
  - apply get_upcoming_birthdays_Ok in Q as (F & _).
    rewrite Forall_forall in F. destruct (F r Hr) as [l Hl'].
    pose proof (upcoming_step_spec today r) as S. rewrite Hb, C in S.
    destruct S as [S _]. congruence.
  - destruct (get_upcoming_birthdays_raises _ _ _ Q) as [msg ->]. eauto.
Qed.

Lemma upcoming_feb29_raises_witness :
  exists msg,
    get_upcoming_birthdays (mkdate 2023 2 10)
      [("Ann", mkRec "Ann" [] (Some (mkdate 1990 2 11)));
       ("Leo", mkRec "Leo" [] (Some (mkdate 2020 2 29)))]
    = Raise (ValueError msg).
Proof.
  apply (upcoming_feb29_raises (mkdate 2023 2 10) _
           (mkRec "Leo" [] (Some (mkdate 2020 2 29))) (mkdate 2020 2 29) 2023).
  - cbn. right. left. reflexivity.
  - reflexivity.
  - reflexivity.
  - reflexivity.
  - left. reflexivity.
  - reflexivity.
Defined.

(** In a leap year the same store is answered up to 29 February and
    raises from 1 March on, when the occurrence moves to the next year. *)
Example upcoming_feb29_leap_year :
  get_upcoming_birthdays (mkdate 2024 2 26)
    [("Leo", mkRec "Leo" [] (Some (mkdate 2020 2 29)))]
  = Ok [mkentry "Leo" "29.02.2024"]
  /\ get_upcoming_birthdays (mkdate 2024 3 1)
       [("Leo", mkRec "Leo" [] (Some (mkdate 2020 2 29)))]
     = Raise (ValueError "day is out of range for month").
Proof. split; vm_compute; reflexivity. Qed.

(** ** Ties *)

Lemma filter_split {A : Type} (p : A -> bool) (l a b : list A) (x : A) :
  filter p l = a ++ x :: b ->
  exists l1 l2, l = l1 ++ x :: l2 /\ filter p l1 = a /\ filter p l2 = b.
Proof.
  revert a. induction l as [|h t IH]; intros a; cbn [filter].
  - destruct a; discriminate.
  - destruct (p h) eqn:Ph.
    + destruct a as [|a0 a]; cbn [app]; intros [= -> E].
      * exists [], t. cbn. auto.
      * destruct (IH _ E) as (l1 & l2 & -> & F1 & F2).
        exists (a0 :: l1), l2. cbn [app filter]. rewrite Ph, F1. auto.
    + intros E. destruct (IH _ E) as (l1 & l2 & -> & F1 & F2).
      exists (h :: l1), l2. cbn [app filter]. rewrite Ph. auto.
Qed.

Lemma entries_of_single (today : date) (r : Rec) (e : entry) :
  In e (entries_of today r) -> entries_of today r = [e].
Proof.
  intros He.
  destruct (entries_of_In _ _ _ He) as (b & occ & c & Hb & C & W & A & _ & _ & _ & ->).
  destruct (entries_of_birthday today r b occ Hb C) as (c' & A' & _ & _ & _ & _ & E).
  rewrite E, W. congruence.
Qed.

(** C9. When the query returns, its result is a rearrangement of the
    entries taken in the iteration order of the store in which the
    entries of one congratulation date keep that order: of two records
    with the same congratulation date, the one met first in the store
    comes first in the result.  The result is a function of the store (its
    items and their order) and of the evaluation date. *)
Theorem upcoming_ties_in_store_order (today : date) (book : AddressBook)
  (out : list entry) :
  get_upcoming_birthdays today book = Ok out ->
  Permutation (flat_map (entries_of today) (dict_values book)) out
  /\ (forall s,
        filter (has_date s) out
        = filter (has_date s) (flat_map (entries_of today) (dict_values book)))
  /\ (forall rs1 r1 rs2 r2 rs3 e1 e2,
        dict_values book = rs1 ++ r1 :: rs2 ++ r2 :: rs3 ->
        In e1 (entries_of today r1) ->
        In e2 (entries_of today r2) ->
        congratulation_date e1 = congratulation_date e2 ->
        exists o1 o2 o3, out = o1 ++ e1 :: o2 ++ e2 :: o3).
Proof.
  intros H. apply get_upcoming_birthdays_Ok in H as (_ & P & St).
  split; [assumption|]. split; [assumption|].
  intros rs1 r1 rs2 r2 rs3 e1 e2 E H1 H2 Hd.
  specialize (St (congratulation_date e1)).
  rewrite E in St.
  rewrite flat_map_app in St. cbn [flat_map] in St.
  rewrite flat_map_app in St. cbn [flat_map] in St.
  rewrite (entries_of_single _ _ _ H1), (entries_of_single _ _ _ H2) in St.
  rewrite !filter_app in St. cbn [app filter] in St.
  replace (has_date (congratulation_date e1) e1) with true in St
    by (symmetry; apply String.eqb_refl).
  replace (has_date (congratulation_date e1) e2) with true in St
    by (symmetry; unfold has_date; rewrite Hd; apply String.eqb_refl).
  cbn [app] in St.
  apply filter_split in St as (o1 & t & -> & _ & St).
  apply filter_split in St as (o2 & o3 & -> & _ & _).
  eauto.
Qed.

Lemma upcoming_ties_in_store_order_witness :
  Permutation
    (flat_map (entries_of (mkdate 2024 6 10))
       (dict_values
          [("Zed", mkRec "Zed" [] (Some (mkdate 1990 6 16)));
           ("Cy", mkRec "Cy" [] (Some (mkdate 1990 6 11)));
           ("Ann", mkRec "Ann" [] (Some (mkdate 1990 6 15)))]))
    [mkentry "Cy" "11.06.2024"; mkentry "Zed" "17.06.2024";
     mkentry "Ann" "17.06.2024"].
Proof.
  apply (upcoming_ties_in_store_order (mkdate 2024 6 10)
           [("Zed", mkRec "Zed" [] (Some (mkdate 1990 6 16)));
            ("Cy", mkRec "Cy" [] (Some (mkdate 1990 6 11)));
            ("Ann", mkRec "Ann" [] (Some (mkdate 1990 6 15)))]).
  vm_compute. reflexivity.
Defined.

(** * Further properties of the code *)

(** ** Normal forms of the validated fields *)

Lemma digits_only_fixed (s : string) :
  all_digits s = true -> digits_only s = s.
Proof.
  induction s as [|c s IH]; cbn [all_digits digits_only]; [reflexivity|].
  rewrite andb_true_iff. intros [-> H]. now rewrite IH.
Qed.

(** Stripping the non-digits twice is stripping them once, and a stored
    phone is its own normal form: [Phone] takes it again and gives it
    back. *)
Theorem Phone_idempotent :
  (forall s, digits_only (digits_only s) = digits_only s)
  /\ (forall raw p, Phone raw = Ok p -> Phone p = Ok p).
Proof.
  assert (F : forall s, digits_only (digits_only s) = digits_only s)
    by (intros s; apply digits_only_fixed, digits_only_all_digits).
  split; [exact F|].
  intros raw p H. apply Phone_ten_digits in H as [T ->].
  unfold Phone. rewrite F.
  unfold ten_digits in T. apply andb_prop in T as [-> _]. reflexivity.
Qed.

Lemma Phone_idempotent_witness : Phone "0931234567" = Ok "0931234567".
Proof.
  apply (proj2 Phone_idempotent "(093) 123-45-67" "0931234567").
  reflexivity.
Defined.

Lemma lstrip_all_space (s : string) :
  all_space s = true -> lstrip s = EmptyString.
Proof.
  induction s as [|c s IH]; cbn [all_space lstrip]; [reflexivity|].
  rewrite andb_true_iff. intros [-> H]. auto.
Qed.

Lemma lstrip_not_all_space (s : string) :
  all_space s = false ->
  exists c t, lstrip s = String c t /\ is_space c = false
              /\ all_space (String c t) = false.
Proof.
  induction s as [|c s IH]; cbn [all_space lstrip]; [discriminate|].
  destruct (is_space c) eqn:E; cbn [andb]; [exact IH|].
  intros _. exists c, s. cbn [all_space]. rewrite E. auto.
Qed.

Lemma rstrip_all_space (s : string) :
  all_space s = true -> rstrip s = EmptyString.
Proof.
  induction s as [|c s IH]; cbn [all_space rstrip]; [reflexivity|].
  rewrite andb_true_iff. intros [-> H]. now rewrite IH.
Qed.

(** What [rstrip] leaves of a string that is not all whitespace: it keeps
    the first character, ends on a character that is no whitespace and is
    left alone by a second [rstrip]. *)
Lemma rstrip_not_all_space (s : string) :
  all_space s = false ->
  exists c t,
    rstrip s = String c t
    /\ first_char s = Some c
    /\ (exists z, last_char (String c t) = Some z /\ is_space z = false)
    /\ rstrip (String c t) = String c t.
Proof.
  induction s as [|c s IH]; [discriminate|].
  cbn [all_space]. intros H.
  destruct (all_space s) eqn:A.
  - rewrite andb_true_r in H.
    cbn [rstrip]. rewrite (rstrip_all_space s A), H.
    exists c, EmptyString. cbn [rstrip first_char last_char]. rewrite H.
    eauto 6.
  - destruct (IH eq_refl) as (c' & t & R & _ & (z & L & Z) & I).
    cbn [rstrip]. rewrite R. exists c, (String c' t).
    split; [reflexivity|]. split; [reflexivity|].
    split; [exists z; auto|].
    cbn [rstrip] in I |- *. cbn [rstrip] in I.
    destruct (rstrip t) eqn:Rt.
    + destruct (is_space c'); [discriminate|]. now injection I as <-.
    + injection I as <-. reflexivity.
Qed.

(** [Name] refuses exactly the strings of whitespace only; a name it
    accepts is trimmed, not empty, and accepted again as it is. *)
Theorem Name_trimmed (raw : string) :
  (all_space raw = true -> Name raw = Raise (ValueError "Name cannot be empty"))
  /\ (all_space raw = false ->
      exists n, Name raw = Ok n /\ trimmed n /\ Name n = Ok n).
Proof.
  unfold Name, strip. split.
  - intros A. now rewrite (lstrip_all_space raw A).
  - intros A.
    destruct (lstrip_not_all_space raw A) as (c & t & L & Sc & A').
    destruct (rstrip_not_all_space _ A') as (c' & t' & R & F & Z & I).
    cbn [first_char] in F. injection F as <-.
    rewrite L, R. cbn [String.eqb]. exists (String c t').
    split; [reflexivity|]. split.
    + split; [exists c; auto|exact Z].
    + cbn [lstrip]. rewrite Sc, I. reflexivity.
Qed.

Lemma Name_trimmed_witness :
  exists n, Name "  Ann Lee " = Ok n /\ trimmed n /\ Name n = Ok n.
Proof.
  apply (proj2 (Name_trimmed "  Ann Lee ")). reflexivity.
Defined.

Lemma strptime_valid (s : string) (d : date) :
  strptime s = Ok d -> valid_date d = true.
Proof.
  unfold strptime.
  destruct (format_regex_matches s) as [|[[[dd mm] yy] rest] ?]; [discriminate|].
  destruct rest; [|discriminate].
  intros H. apply date_new_Ok in H as [-> V]. exact V.
Qed.

Lemma is_DDMMYYYY_dmy_string (a1 a2 b1 b2 c1 c2 c3 c4 : Z) :
  0 <= a1 <= 9 -> 0 <= a2 <= 9 -> 0 <= b1 <= 9 -> 0 <= b2 <= 9 ->
  0 <= c1 <= 9 -> 0 <= c2 <= 9 -> 0 <= c3 <= 9 -> 0 <= c4 <= 9 ->
  is_DDMMYYYY (dmy_string a1 a2 b1 b2 c1 c2 c3 c4) = true.
Proof.
  intros A1 A2 B1 B2 Y1 Y2 Y3 Y4. unfold is_DDMMYYYY, dmy_string.
  destruct (digit_char_facts a1 A1) as (-> & _).
  destruct (digit_char_facts a2 A2) as (-> & _).
  destruct (digit_char_facts b1 B1) as (-> & _).
  destruct (digit_char_facts b2 B2) as (-> & _).
  destruct (digit_char_facts c1 Y1) as (-> & _).
  destruct (digit_char_facts c2 Y2) as (-> & _).
  destruct (digit_char_facts c3 Y3) as (-> & _).
  destruct (digit_char_facts c4 Y4) as (-> & _).
  reflexivity.
Qed.

Lemma strftime_digits (d : date) :
  valid_date d = true -> 1000 <= year d ->
  exists a1 a2 b1 b2 c1 c2 c3 c4,
    (0 <= a1 <= 9 /\ 0 <= a2 <= 9 /\ 0 <= b1 <= 9 /\ 0 <= b2 <= 9)
    /\ (0 <= c1 <= 9 /\ 0 <= c2 <= 9 /\ 0 <= c3 <= 9 /\ 0 <= c4 <= 9)
    /\ strftime d = dmy_string a1 a2 b1 b2 c1 c2 c3 c4.
Proof.
  intros V Y. pose proof (valid_date_fields d V) as (Hy & Hm & Hd).
  pose proof (days_in_month_le_31 (year d) (month d) Hm).
  rewrite strftime_dmy by assumption. do 8 eexists.
  split; [|split; [|reflexivity]]; repeat split;
    Z.div_mod_to_equations; lia.
Qed.

Lemma rstrip_last_char (s : string) (z : ascii) :
  last_char s = Some z -> is_space z = false -> rstrip s = s.
Proof.
  induction s as [|c s IH]; [discriminate|].
  destruct s as [|c' s'].
  - cbn [last_char rstrip]. intros [= ->] ->. reflexivity.
  - intros L Z. change (last_char (String c (String c' s')))
      with (last_char (String c' s')) in L.
    specialize (IH L Z).
    change (rstrip (String c (String c' s')))
      with (match rstrip (String c' s') with
            | EmptyString =>
                if is_space c then EmptyString else String c EmptyString
            | t => String c t
            end).
    now rewrite IH.
Qed.

Lemma last_char_append (a : string) (c : ascii) (t : string) :
  last_char (a ++ String c t)%string = last_char (String c t).
Proof.
  induction a as [|x a IH]; [reflexivity|].
  cbn [String.append].
  destruct (a ++ String c t)%string eqn:E.
  - destruct a; discriminate.
  - exact IH.
Qed.

Lemma last_char_str_year (y : Z) :
  1 <= y -> last_char (str_year y) = Some (digit_char (y mod 10)).
Proof.
  intros H. unfold str_year.
  destruct (Z.ltb_spec y 10); [now rewrite Z.mod_small by lia|].
  destruct (Z.ltb_spec y 100); [reflexivity|].
  destruct (Z.ltb_spec y 1000); reflexivity.
Qed.

(** The rendering of a date has no whitespace at either end. *)
Lemma strip_strftime (d : date) :
  valid_date d = true -> strip (strftime d) = strftime d.
Proof.
  intros V. pose proof (valid_date_fields d V) as (Hy & Hm & Hd).
  pose proof (days_in_month_le_31 (year d) (month d) Hm).
  assert (L : lstrip (strftime d) = strftime d).
  { unfold strftime, zfill2. cbn [String.append lstrip].
    destruct (digit_char_facts (day d / 10)) as (_ & -> & _);
      [Z.div_mod_to_equations; lia | reflexivity]. }
  unfold strip. rewrite L.
  apply rstrip_last_char with (z := digit_char (year d mod 10)).
  - unfold strftime, zfill2. cbn [String.append].
    destruct (str_year (year d)) as [|c t] eqn:E.
    + pose proof (last_char_str_year (year d)) as K. rewrite E in K.
      discriminate K; lia.
    + rewrite <- (last_char_str_year (year d)), E by lia.
      reflexivity.
  - apply digit_char_facts. Z.div_mod_to_equations; lia.
Qed.

Lemma is_DDMMYYYY_length (s : string) :
  is_DDMMYYYY s = true -> String.length s = 10%nat.
Proof.
  unfold is_DDMMYYYY.
  repeat (destruct s as [|? s]; [discriminate|]).
  destruct s; [reflexivity|discriminate].
Qed.

(** A date that exists and is not after today, rendered and read back.
    From the year 1000 on the rendering has the shape [DD.MM.YYYY] and
    [Birthday] reads it back as that date.  Before the year 1000 the
    year is rendered with fewer than four digits, the rendering has not
    that shape and [Birthday] refuses it. *)
Theorem Birthday_of_rendered (today d : date) :
  valid_date d = true ->
  date_ltb today d = false ->
  (1000 <= year d ->
   is_DDMMYYYY (Birthday_str d) = true
   /\ Birthday today (VStr (Birthday_str d)) = Ok d)
  /\ (year d < 1000 ->
      is_DDMMYYYY (Birthday_str d) = false
      /\ Birthday today (VStr (Birthday_str d)) = Raise invalid_format).
Proof.
  intros V F. unfold Birthday_str. split; intros Y.
  - destruct (strftime_digits d V Y)
      as (a1 & a2 & b1 & b2 & c1 & c2 & c3 & c4 & HA & HC & E).
    split.
    + rewrite E. apply is_DDMMYYYY_dmy_string; tauto.
    + unfold Birthday, parse_birthday.
      rewrite (strip_strftime d V), (strptime_strftime d V Y).
      cbn [bind]. now rewrite F.
  - split.
    + destruct (is_DDMMYYYY (strftime d)) eqn:E; [|reflexivity].
      apply is_DDMMYYYY_length in E.
      pose proof (str_year_short (year d) Y) as S.
      unfold strftime, zfill2 in E. cbn [String.append String.length] in E.
      lia.
    + unfold Birthday, parse_birthday.
      rewrite (strip_strftime d V), (strptime_strftime_short d V Y).
      reflexivity.
Qed.

Lemma Birthday_of_rendered_witness :
  (is_DDMMYYYY (Birthday_str (mkdate 1992 8 5)) = true
   /\ Birthday (mkdate 2024 6 10) (VStr (Birthday_str (mkdate 1992 8 5)))
      = Ok (mkdate 1992 8 5))
  /\ (is_DDMMYYYY (Birthday_str (mkdate 999 1 1)) = false
      /\ Birthday (mkdate 2024 6 10) (VStr (Birthday_str (mkdate 999 1 1)))
         = Raise invalid_format).
Proof.
  split.
  - apply (proj1 (Birthday_of_rendered (mkdate 2024 6 10) (mkdate 1992 8 5)
                    eq_refl eq_refl)).
    cbn. lia.
  - apply (proj2 (Birthday_of_rendered (mkdate 2024 6 10) (mkdate 999 1 1)
                    eq_refl eq_refl)).
    cbn. lia.
Defined.

(** What [Birthday] accepts is never after today; from a string it is a
    date of the calendar, from a [date] it is that date; a [datetime] and
    a value of another type are never accepted. *)
Theorem Birthday_accepts (today : date) (value : pyvalue) (d : date) :
  Birthday today value = Ok d ->
  date_ltb today d = false
  /\ match value with
     | VStr s => strptime (strip s) = Ok d /\ valid_date d = true
     | VDate d0 => d = d0
     | VDateTime _ | VOther => False
     end.
Proof.
  destruct value as [d0|d0|s|].
  - unfold Birthday, parse_birthday. cbn [bind].
    destruct (date_ltb today d0) eqn:E; [discriminate|]. now intros [= <-].
  - discriminate.
  - intros H. apply Birthday_VStr in H as [P F].
    split; [assumption|]. split; [assumption|]. now apply strptime_valid in P.
  - discriminate.
Qed.

Lemma Birthday_accepts_witness :
  date_ltb (mkdate 2024 6 10) (mkdate 2024 2 29) = false
  /\ strptime (strip " 29.2.2024") = Ok (mkdate 2024 2 29)
     /\ valid_date (mkdate 2024 2 29) = true.
Proof.
  apply (Birthday_accepts (mkdate 2024 6 10) (VStr " 29.2.2024")
           (mkdate 2024 2 29)).
  reflexivity.
Defined.

(** ** The phones of a record *)

Lemma find_phone_In (q : string) (r : Rec) :
  match find_phone q r with
  | Some x => x = digits_only q /\ In (digits_only q) (phones r)
  | None => ~ In (digits_only q) (phones r)
  end.
Proof.
  unfold find_phone.
  pose proof (find_split (digits_only q) (phones r)) as F.
  destruct (find _ (phones r)).
  - destruct F as (-> & pre & post & -> & _). split; [reflexivity|apply in_elt].
  - exact F.
Qed.

Lemma find_phone_Some (q : string) (r : Rec) :
  In (digits_only q) (phones r) -> find_phone q r = Some (digits_only q).
Proof.
  intros H. pose proof (find_phone_In q r) as F.
  destruct (find_phone q r); [destruct F as [-> _]; reflexivity|contradiction].
Qed.

Lemma find_phone_None (q : string) (r : Rec) :
  ~ In (digits_only q) (phones r) -> find_phone q r = None.
Proof.
  intros H. pose proof (find_phone_In q r) as F.
  destruct (find_phone q r); [destruct F as [_ F]; contradiction|reflexivity].
Qed.

(** Two records with the same phones in the list answer [find_phone]
    alike. *)
Lemma find_phone_same_In (q : string) (r r' : Rec) :
  (In (digits_only q) (phones r') <-> In (digits_only q) (phones r)) ->
  find_phone q r' = find_phone q r.
Proof.
  intros H. pose proof (find_phone_In q r) as F.
  destruct (find_phone q r).
  - destruct F as [-> F]. apply find_phone_Some. tauto.
  - apply find_phone_None. tauto.
Qed.

(** Adding the same number a second time changes nothing more. *)
Theorem add_phone_twice (raw : string) (r : Rec) :
  add_phone raw (snd (add_phone raw r))
  = (fst (add_phone raw r), snd (add_phone raw r)).
Proof.
  unfold add_phone. destruct (Phone raw) as [p|e] eqn:EP; cbn [fst snd].
  - destruct (any_value p (phones r)) eqn:A; cbn [negb fst snd].
    + rewrite A. reflexivity.
    + cbn [set_phones phones].
      replace (any_value p (phones r ++ [p])) with true; [reflexivity|].
      symmetry. apply any_value_In, in_or_app. right. now left.
  - reflexivity.
Qed.

(** After [add_phone] with a well-formed number the number is found, and
    the phones that were there are still there, in their order, followed
    by at most the new one. *)
Theorem add_phone_found (raw p : string) (r : Rec) :
  Phone raw = Ok p ->
  fst (add_phone raw r) = Ok tt
  /\ find_phone raw (snd (add_phone raw r)) = Some p
  /\ (phones (snd (add_phone raw r)) = phones r
      \/ phones (snd (add_phone raw r)) = phones r ++ [p])
  /\ forall q x, find_phone q r = Some x ->
                 find_phone q (snd (add_phone raw r)) = Some x.
Proof.
  intros EP. pose proof (Phone_ten_digits _ _ EP) as [_ D].
  unfold add_phone. rewrite EP.
  destruct (any_value p (phones r)) eqn:A; cbn [negb fst snd].
  - split; [reflexivity|]. split; [|split; [now left|auto]].
    apply any_value_In in A. subst p. now apply find_phone_Some.
  - split; [reflexivity|]. split; [|split; [now right|]].
    + subst p. apply find_phone_Some. cbn [set_phones phones].
      apply in_or_app. right. now left.
    + intros q x Hq. pose proof (find_phone_In q r) as F. rewrite Hq in F.
      destruct F as [-> F]. apply find_phone_Some. cbn [set_phones phones].
      apply in_or_app. now left.
Qed.

Lemma add_phone_found_witness :
  find_phone "093-123-45-67"
    (snd (add_phone "(093) 123 45 67" (mkRec "Ann" ["0501112233"] None)))
  = Some "0931234567".
Proof.
  exact (proj1 (proj2 (add_phone_found "(093) 123 45 67" "0931234567"
                         (mkRec "Ann" ["0501112233"] None) eq_refl))).
Defined.

Lemma list_remove_not_In (x : string) (l : list string) :
  ~ In x l -> list_remove x l = l.
Proof.
  induction l as [|y l IH]; cbn [list_remove]; [reflexivity|].
  intros H. destruct (y =? x)%string eqn:E.
  - apply String.eqb_eq in E. subst. exfalso. apply H. now left.
  - f_equal. apply IH. intros ?. apply H. now right.
Qed.

Lemma list_remove_In_other (x y : string) (l : list string) :
  y <> x -> In y (list_remove x l) <-> In y l.
Proof.
  intros N. induction l as [|z l IH]; cbn [list_remove]; [tauto|].
  destruct (z =? x)%string eqn:E.
  - apply String.eqb_eq in E. subst z. cbn [In]. split; [tauto|].
    intros [?|?]; [congruence|assumption].
  - cbn [In]. tauto.
Qed.

Lemma list_remove_NoDup_gone (x : string) (l : list string) :
  NoDup l -> ~ In x (list_remove x l).
Proof.
  induction 1 as [|y l Hy Hl IH]; cbn [list_remove]; [tauto|].
  destruct (y =? x)%string eqn:E.
  - apply String.eqb_eq in E. now subst.
  - apply String.eqb_neq in E. cbn [In]. tauto.
Qed.

Lemma list_remove_length (x : string) (l : list string) :
  In x l -> S (List.length (list_remove x l)) = List.length l.
Proof.
  induction l as [|y l IH]; cbn [list_remove In]; [tauto|].
  destruct (y =? x)%string eqn:E; [reflexivity|].
  apply String.eqb_neq in E. intros [?|H]; [congruence|].
  cbn [List.length]. now rewrite IH.
Qed.

(** [remove_phone] answers whether the number was stored.  When it was
    not, nothing changes; when it was, one entry goes, every other number
    is found as before, and in a list without repeats the number is not
    found any more. *)
Theorem remove_phone_effect (raw : string) (r : Rec) :
  (find_phone raw r = None -> remove_phone raw r = (Ok false, r))
  /\ (forall p, find_phone raw r = Some p ->
        fst (remove_phone raw r) = Ok true
        /\ S (List.length (phones (snd (remove_phone raw r))))
           = List.length (phones r)
        /\ (forall q, digits_only q <> digits_only raw ->
              find_phone q (snd (remove_phone raw r)) = find_phone q r)
        /\ (NoDup (phones r) ->
            find_phone raw (snd (remove_phone raw r)) = None)).
Proof.
  unfold remove_phone. split; [now intros ->|].
  intros p Hp. rewrite Hp. cbn [fst snd].
  pose proof (find_phone_In raw r) as F. rewrite Hp in F. destruct F as [-> F].
  split; [reflexivity|]. split; [now apply list_remove_length|]. split.
  - intros q N. apply find_phone_same_In. cbn [set_phones phones].
    now apply list_remove_In_other.
  - intros N. apply find_phone_None. cbn [set_phones phones].
    now apply list_remove_NoDup_gone.
Qed.

Lemma remove_phone_effect_witness :
  remove_phone "0000000000" (mkRec "Ann" ["0931234567"] None)
  = (Ok false, mkRec "Ann" ["0931234567"] None)
  /\ find_phone "0931234567"
       (snd (remove_phone "093 123 45 67"
               (mkRec "Ann" ["0501112233"; "0931234567"] None)))
     = None.
Proof.
  split.
  - apply (proj1 (remove_phone_effect "0000000000"
                    (mkRec "Ann" ["0931234567"] None))).
    reflexivity.
  - apply (proj2 (remove_phone_effect "093 123 45 67"
                    (mkRec "Ann" ["0501112233"; "0931234567"] None))
             "0931234567" eq_refl).
    repeat constructor; cbn; intuition discriminate.
Defined.

Lemma set_phones_same (r : Rec) : set_phones r (phones r) = r.
Proof. now destruct r. Qed.

(** Removing a number just added to a record that did not hold it gives
    the record back. *)
Theorem add_then_remove_phone (raw p : string) (r : Rec) :
  Phone raw = Ok p ->
  ~ In p (phones r) ->
  remove_phone raw (snd (add_phone raw r)) = (Ok true, r).
Proof.
  intros EP N. pose proof (Phone_ten_digits _ _ EP) as [_ D].
  unfold add_phone. rewrite EP.
  rewrite (proj2 (any_value_not_In p (phones r)) N). cbn [negb snd].
  unfold remove_phone.
  rewrite (find_phone_Some raw) by
    (cbn [set_phones phones]; rewrite <- D; apply in_or_app; right; now left).
  cbn [set_phones phones name birthday]. rewrite <- D.
  replace (phones r ++ [p]) with (phones r ++ p :: []) by reflexivity.
  rewrite list_remove_split by assumption.
  rewrite app_nil_r. now destruct r.
Qed.

Lemma add_then_remove_phone_witness :
  remove_phone "0931234567"
    (snd (add_phone "0931234567" (mkRec "Ann" ["0501112233"] None)))
  = (Ok true, mkRec "Ann" ["0501112233"] None).
Proof.
  apply (add_then_remove_phone "0931234567" "0931234567"
           (mkRec "Ann" ["0501112233"] None) eq_refl).
  cbn. intuition discriminate.
Defined.

(** A successful [edit_phone] to a number other than the old one, in a
    list without repeats: the old number is not found any more, the new
    one is, and every other number is found as before.  This covers both
    the replacement in place and the removal of the old entry when the
    new number is already stored. *)
Theorem edit_phone_effect (phone_old phone_new new_p : string) (r : Rec) :
  NoDup (phones r) ->
  Phone phone_new = Ok new_p ->
  In (digits_only phone_old) (phones r) ->
  new_p <> digits_only phone_old ->
  fst (edit_phone phone_old phone_new r) = Ok true
  /\ find_phone phone_old (snd (edit_phone phone_old phone_new r)) = None
  /\ find_phone phone_new (snd (edit_phone phone_old phone_new r)) = Some new_p
  /\ (forall q,
        digits_only q <> digits_only phone_old ->
        digits_only q <> new_p ->
        find_phone q (snd (edit_phone phone_old phone_new r))
        = find_phone q r).
Proof.
  intros N EP Hin Hne.
  pose proof (Phone_ten_digits _ _ EP) as [_ D].
  pose proof (edit_phone_cases phone_old phone_new r) as C. rewrite EP in C.
  destruct C as [[Hno _]|(pre & post & E & Hpre & ->)]; [contradiction|].
  cbn [fst snd]. split; [reflexivity|].
  rewrite E in N. pose proof (NoDup_remove_2 _ _ _ N) as Hold.
  assert (A : any_value new_p (phones r) = true -> In new_p (pre ++ post)).
  { rewrite any_value_In, E, !in_app_iff. cbn [In]. rewrite in_app_iff in *.
    intros [?|[?|?]]; [tauto|congruence|tauto]. }
  destruct (any_value new_p (phones r)) eqn:EA; cbn [set_phones phones].
  - specialize (A eq_refl). split; [|split].
    + now apply find_phone_None.
    + rewrite D in *. now apply find_phone_Some.
    + intros q Q1 Q2. apply find_phone_same_In. cbn [set_phones phones].
      rewrite E, !in_app_iff. cbn [In]. split; [tauto|].
      intros [?|[?|?]]; [tauto|congruence|tauto].
  - split; [|split].
    + apply find_phone_None. cbn [set_phones phones].
      rewrite in_app_iff in *. cbn [In]. intros [?|[?|?]]; [tauto|congruence|tauto].
    + rewrite D. apply find_phone_Some. cbn [set_phones phones]. rewrite <- D. apply in_elt.
    + intros q Q1 Q2. apply find_phone_same_In. cbn [set_phones phones].
      rewrite E, !in_app_iff. cbn [In].
      split; (intros [?|[?|?]]; [tauto|congruence|tauto]).
Qed.

Lemma edit_phone_effect_witness :
  find_phone "0931234567"
    (snd (edit_phone "0931234567" "050 111 22 33"
            (mkRec "Ann" ["0670000000"; "0931234567"] None)))
  = None.
Proof.
  refine (proj1 (proj2 (edit_phone_effect "0931234567" "050 111 22 33"
                          "0501112233"
                          (mkRec "Ann" ["0670000000"; "0931234567"] None)
                          _ eq_refl _ _))).
  - repeat constructor; cbn; intuition discriminate.
  - cbn. tauto.
  - discriminate.
Defined.

(** The methods on phones never touch the name or the birthday of the
    record and never make the list of phones longer by more than one
    ([edit_phone] and [remove_phone] never make it longer);
    [add_birthday] never touches the name or the phones. *)
Theorem methods_frame (today : date) (value : pyvalue) (op : phone_op)
  (r : Rec) :
  (name (run_phone_op r op) = name r
   /\ birthday (run_phone_op r op) = birthday r)
  /\ ((List.length (phones (run_phone_op r op))
       <= S (List.length (phones r)))%nat
      /\ match op with
         | AddPhone _ => True
         | _ => (List.length (phones (run_phone_op r op))
                 <= List.length (phones r))%nat
         end)
  /\ (name (snd (add_birthday today value r)) = name r
      /\ phones (snd (add_birthday today value r)) = phones r).
Proof.
  split; [|split].
  - destruct op as [raw|raw|o n|raw]; cbn [run_phone_op].
    + unfold add_phone. destruct (Phone raw); cbn [snd]; [|auto].
      destruct (any_value _ _); cbn [negb snd]; auto.
    + unfold remove_phone. destruct (find_phone raw r); cbn [snd]; auto.
    + unfold edit_phone. destruct (Phone n); cbn [snd]; [|auto].
      destruct (edit_phone_loop _ _ _ _ _). cbn [snd]. auto.
    + auto.
  - destruct op as [raw|raw|o n|raw]; cbn [run_phone_op].
    + unfold add_phone. destruct (Phone raw); cbn [snd]; [|auto].
      destruct (any_value _ _); cbn [negb snd set_phones phones]; [auto|].
      rewrite length_app, Nat.add_comm. cbn. auto.
    + unfold remove_phone. pose proof (find_phone_In raw r) as F.
      destruct (find_phone raw r) as [t|]; cbn [snd set_phones phones]; [|auto].
      destruct F as [-> F]. pose proof (list_remove_length _ _ F). lia.
    + pose proof (edit_phone_cases o n r) as C.
      destruct (Phone n) as [np|e].
      * destruct C as [[_ ->]|(pre & post & E & _ & ->)]; cbn [snd]; [auto|].
        cbn [set_phones phones]. rewrite E.
        destruct (any_value np _); rewrite !length_app; cbn [List.length]; lia.
      * rewrite C. cbn [snd]. auto.
    + auto.
  - unfold add_birthday. destruct (birthday r); [auto|].
    destruct (Birthday today value); auto.
Qed.

(** ** Lookup and removal in the store *)

Lemma dict_get_In_keys {V : Type} (k : string) (d : list (string * V)) :
  dict_contains k d = true <-> In k (dict_keys d).
Proof.
  unfold dict_contains, dict_keys.
  induction d as [|[k' v'] d IH]; cbn [dict_get map fst In].
  - split; [discriminate|tauto].
  - destruct (k' =? k)%string eqn:E.
    + apply String.eqb_eq in E. tauto.
    + apply String.eqb_neq in E. rewrite IH. split; [tauto|].
      intros [?|?]; [congruence|assumption].
Qed.

Lemma dict_set_absent {V : Type} (k : string) (v : V) (d : list (string * V)) :
  dict_contains k d = false -> dict_set k v d = d ++ [(k, v)].
Proof.
  unfold dict_contains.
  induction d as [|[k' v'] d IH]; cbn [dict_set dict_get app]; [reflexivity|].
  destruct (k' =? k)%string; [discriminate|].
  intros H. now rewrite IH.
Qed.

(** [add_record] then [find]: the record is found under its name,
    whatever was there; every other name is looked up as before; a new
    name goes to the end of the store and a present one keeps its
    place. *)
Theorem add_record_found (r : Rec) (book : AddressBook) :
  find_record (name r) (add_record r book) = Some r
  /\ (forall k, k <> name r ->
        find_record k (add_record r book) = find_record k book)
  /\ (find_record (name r) book = None ->
      add_record r book = book ++ [(name r, r)])
  /\ (find_record (name r) book <> None ->
      dict_keys (add_record r book) = dict_keys book).
Proof.
  unfold find_record, add_record. split; [apply dict_get_set_same|].
  split; [intros k N; now apply dict_get_set_other|]. split.
  - intros H. apply dict_set_absent. unfold dict_contains. now rewrite H.
  - intros H. rewrite dict_set_keys. unfold dict_contains.
    destruct (dict_get (name r) book); [reflexivity|congruence].
Qed.

Lemma add_record_found_witness :
  add_record (mkRec "Bo" [] None) [("Ann", mkRec "Ann" [] None)]
  = [("Ann", mkRec "Ann" [] None)] ++ [("Bo", mkRec "Bo" [] None)].
Proof.
  apply (proj1 (proj2 (proj2 (add_record_found (mkRec "Bo" [] None)
                                [("Ann", mkRec "Ann" [] None)])))).
  reflexivity.
Defined.

Lemma dict_del_absent {V : Type} (k : string) (d : list (string * V)) :
  ~ In k (dict_keys d) -> dict_del k d = d.
Proof.
  unfold dict_keys.
  induction d as [|[k' v'] d IH]; cbn [dict_del map fst In]; [reflexivity|].
  intros H. destruct (k' =? k)%string eqn:E.
  - apply String.eqb_eq in E. tauto.
  - f_equal. apply IH. tauto.
Qed.

Lemma dict_get_del_other {V : Type} (k k0 : string) (d : list (string * V)) :
  k0 <> k -> dict_get k0 (dict_del k d) = dict_get k0 d.
Proof.
  intros N. induction d as [|[k' v'] d IH]; cbn [dict_del dict_get];
    [reflexivity|].
  destruct (k' =? k)%string eqn:E.
  - apply String.eqb_eq in E. subst k'.
    apply not_eq_sym, String.eqb_neq in N. now rewrite N.
  - cbn [dict_get]. now rewrite IH.
Qed.

Lemma dict_get_del_same {V : Type} (k : string) (d : list (string * V)) :
  NoDup (dict_keys d) -> dict_get k (dict_del k d) = None.
Proof.
  unfold dict_keys.
  induction d as [|[k' v'] d IH]; cbn [dict_del dict_get map fst];
    [reflexivity|].
  intros N. inversion N as [|? ? Nk Nd]; subst.
  destruct (k' =? k)%string eqn:E.
  - apply String.eqb_eq in E. subst k'.
    destruct (dict_get k d) eqn:G; [|reflexivity].
    exfalso. apply Nk. apply (dict_get_In_keys k d).
    unfold dict_contains. now rewrite G.
  - cbn [dict_get]. rewrite E. now apply IH.
Qed.

(** [delete] answers whether the name was a key.  When it was not, the
    store is unchanged; when it was, the store loses one item, the name
    is not found any more and every other name is looked up as before. *)
Theorem delete_effect (nm : string) (book : AddressBook) :
  NoDup (dict_keys book) ->
  (find_record nm book = None -> delete nm book = (false, book))
  /\ (find_record nm book <> None ->
      fst (delete nm book) = true
      /\ find_record nm (snd (delete nm book)) = None
      /\ S (List.length (snd (delete nm book))) = List.length book)
  /\ (forall k, k <> nm ->
        find_record k (snd (delete nm book)) = find_record k book).
Proof.
  intros N. unfold delete, find_record, dict_contains.
  destruct (dict_get nm book) as [v|] eqn:G; cbn [fst snd].
  - split; [discriminate|]. split.
    + intros _. split; [reflexivity|]. split; [now apply dict_get_del_same|].
      clear N. induction book as [|[k' v'] d IH]; cbn [dict_get] in G;
        [discriminate|].
      cbn [dict_del]. destruct (k' =? nm)%string; [reflexivity|].
      cbn [List.length]. now rewrite IH.
    + intros k Hk. now apply dict_get_del_other.
  - split; [reflexivity|]. split; [congruence|reflexivity].
Qed.

Lemma delete_effect_witness :
  find_record "Ann"
    (snd (delete "Ann" [("Ann", mkRec "Ann" [] None);
                        ("Bo", mkRec "Bo" [] None)]))
  = None.
Proof.
  refine (proj1 (proj2 (proj1 (proj2 (delete_effect "Ann"
            [("Ann", mkRec "Ann" [] None); ("Bo", mkRec "Bo" [] None)] _))
            _))).
  - repeat constructor; cbn; intuition discriminate.
  - discriminate.
Defined.

Lemma dict_del_snoc {V : Type} (k : string) (v : V) (d : list (string * V)) :
  dict_get k d = None -> dict_del k (d ++ [(k, v)]) = d.
Proof.
  induction d as [|[k' v'] d IH]; cbn [dict_get app dict_del].
  - now rewrite String.eqb_refl.
  - destruct (k' =? k)%string; [discriminate|]. intros H. now rewrite IH.
Qed.

(** Deleting a record just added under a new name gives the store
    back. *)
Theorem add_then_delete (r : Rec) (book : AddressBook) :
  find_record (name r) book = None ->
  delete (name r) (add_record r book) = (true, book).
Proof.
  intros H. unfold delete, add_record, find_record in *.
  unfold dict_contains. rewrite dict_get_set_same.
  rewrite dict_set_absent by (unfold dict_contains; now rewrite H).
  now rewrite dict_del_snoc.
Qed.

Lemma add_then_delete_witness :
  delete "Bo" (add_record (mkRec "Bo" [] None) [("Ann", mkRec "Ann" [] None)])
  = (true, [("Ann", mkRec "Ann" [] None)]).
Proof.
  apply (add_then_delete (mkRec "Bo" [] None) [("Ann", mkRec "Ann" [] None)]).
  reflexivity.
Defined.

(** ** More on the query *)

Lemma ymd2ord_next_year (y m d : Z) :
  1 <= m <= 12 ->
  365 <= ymd2ord (y + 1) m d - ymd2ord y m d <= 366.
Proof.
  intros Hm. unfold ymd2ord, days_before_month.
  rewrite days_before_year_next.
  pose proof (is_leap_next y) as L.
  destruct (is_leap y); [rewrite (L eq_refl)|];
    destruct (2 <? m); cbn [andb]; try destruct (is_leap (y + 1)); lia.
Qed.

(** The occurrence is never before today, so the test [0 <= delta_days]
    of the window never fails; and it is at most 366 days ahead. *)
Theorem candidate_not_before_today (today b occ : date) :
  valid_date today = true ->
  candidate today b = Ok occ ->
  0 <= days_between occ today <= 366.
Proof.
  intros Vt C. pose proof (candidate_valid _ _ _ C) as Vo.
  pose proof (valid_date_fields today Vt) as (Ty & Tm & Td).
  unfold candidate in C.
  destruct (date_new (year today) (month b) (day b)) as [c0|e] eqn:E0;
    cbn [bind] in C; [|discriminate].
  apply date_new_Ok in E0 as [-> V0].
  pose proof (valid_date_fields _ V0) as (_ & Hm & Hd).
  cbn [year month day] in Hm, Hd.
  pose proof (date_ltb_toordinal _ _ V0 Vt) as L.
  unfold days_between.
  destruct (date_ltb (mkdate (year today) (month b) (day b)) today) eqn:B.
  - apply date_new_Ok in C as [-> V1].
    pose proof (ymd2ord_next_year (year today) (month b) (day b) Hm) as Ny.
    pose proof (date_ltb_toordinal today _ Vt V1) as L1.
    assert (date_ltb today (mkdate (year today + 1) (month b) (day b)) = true)
      as G by (unfold date_ltb; cbn [year month day];
               replace (year today <? year today + 1) with true;
               [reflexivity|symmetry; apply Z.ltb_lt; lia]).
    apply L1 in G. destruct L as [L _]. specialize (L eq_refl).
    unfold toordinal in *.
    cbn [year month day] in *. lia.
  - injection C as <-.
    assert (~ toordinal (mkdate (year today) (month b) (day b))
              < toordinal today) by (intros X; apply L in X; discriminate).
    unfold toordinal, ymd2ord in *. cbn [year month day] in *.
    pose proof (day_of_year_bounds (year today) (month b) (day b) Hm Hd).
    pose proof (day_of_year_bounds (year today) (month today) (day today) Tm Td).
    destruct (is_leap (year today)); lia.
Qed.

Lemma candidate_not_before_today_witness :
  0 <= days_between (mkdate 2025 6 9) (mkdate 2024 6 10) <= 366.
Proof.
  apply (candidate_not_before_today (mkdate 2024 6 10) (mkdate 1990 6 9));
    reflexivity.
Defined.

Lemma date_add_days_toordinal (d c : date) (k : Z) :
  date_add_days d k = Ok c ->
  valid_date c = true /\ toordinal c = toordinal d + k.
Proof.
  unfold date_add_days.
  destruct ((0 <? toordinal d + k) && (toordinal d + k <=? MAXORDINAL)) eqn:E;
    [|discriminate].
  intros [= <-]. apply ord2ymd_spec.
  apply andb_prop in E as [E1 E2].
  apply Z.ltb_lt in E1. apply Z.leb_le in E2. lia.
Qed.

(** Every date the query reports is a date from today to eight days
    ahead, and never before the occurrence it stands for. *)
Theorem upcoming_dates_range (today : date) (book : AddressBook)
  (out : list entry) :
  get_upcoming_birthdays today book = Ok out ->
  forall e, In e out ->
    exists c, sort_key e = Ok c /\ 0 <= days_between c today <= 8.
Proof.
  intros H e He. pose proof H as H0.
  apply get_upcoming_birthdays_Ok in H as (_ & P & _).
  apply (Permutation_in _ (Permutation_sym P)) in He. pose proof He as He0.
  apply in_flat_map in He as (r & Hr & He).
  apply entries_of_In in He as (b & occ & c & _ & _ & W & A & V & _ & _ & ->).
  exists c. split; [exact (proj1 (upcoming_parses _ _ _ _ c H0 He0 V eq_refl))|].
  apply date_add_days_toordinal in A as [_ T].
  unfold in_window in W. rewrite andb_true_iff, Z.leb_le, Z.ltb_lt in W.
  unfold days_between in *. rewrite T.
  unfold weekend_shift.
  destruct (weekday occ =? 5); [lia|]. destruct (weekday occ =? 6); lia.
Qed.

Lemma upcoming_dates_range_witness :
  exists c, sort_key (mkentry "Dd" "17.06.2024") = Ok c
            /\ 0 <= days_between c (mkdate 2024 6 9) <= 8.
Proof.
  apply (upcoming_dates_range (mkdate 2024 6 9)
           [("Dd", mkRec "Dd" [] (Some (mkdate 1990 6 15)))]
           [mkentry "Dd" "17.06.2024"]).
  - vm_compute. reflexivity.
  - cbn. left. reflexivity.
Defined.

Lemma days_in_month_any_year (y0 y m d : Z) :
  1 <= m <= 12 ->
  d <= days_in_month y0 m ->
  ~ (m = 2 /\ d = 29) ->
  d <= days_in_month y m.
Proof.
  intros Hm Hd N. unfold days_in_month in *.
  assert (C : m = 1 \/ m = 2 \/ m = 3 \/ m = 4 \/ m = 5 \/ m = 6 \/ m = 7
              \/ m = 8 \/ m = 9 \/ m = 10 \/ m = 11 \/ m = 12) by lia.
  revert Hd.
  destruct (is_leap y0), (is_leap y);
    repeat (destruct C as [->|C]); try subst m; eval_tables; eval_bools; lia.
Qed.

Lemma toordinal_le_year (a b : date) :
  valid_date a = true -> valid_date b = true ->
  toordinal a <= toordinal b -> year a <= year b.
Proof.
  intros Va Vb H. destruct (Z.le_gt_cases (year a) (year b)) as [|G];
    [assumption|exfalso].
  assert (L : date_ltb b a = true)
    by (unfold date_ltb; apply orb_true_iff; left; apply Z.ltb_lt; lia).
  apply (date_ltb_toordinal b a Vb Va) in L. lia.
Qed.

(** From the year 1000 on, the query returns whenever each stored
    birthday has an occurrence to look at. *)
Lemma get_upcoming_birthdays_returns (today : date) (book : AddressBook) :
  valid_date today = true ->
  1000 <= year today ->
  (forall r b, In r (dict_values book) -> birthday r = Some b ->
               exists occ, candidate today b = Ok occ) ->
  exists out, get_upcoming_birthdays today book = Ok out.
Proof.
  intros Vt Y H. apply get_upcoming_birthdays_Ok.
  - apply Forall_forall.
    intros r Hr. destruct (birthday r) as [b|] eqn:Hb.
    + destruct (H r b Hr Hb) as [occ Hc].
      destruct (entries_of_birthday today r b occ Hb Hc)
        as (c & _ & _ & _ & _ & S & _). eauto.
    + pose proof (upcoming_step_spec today r) as S. rewrite Hb in S. eauto.
  - apply Forall_forall. intros e He.
    apply in_flat_map in He as (r & Hr & He).
    apply entries_of_In in He
      as (b & occ & c & _ & Hc & W & A & V & _ & _ & ->).
    exists c. unfold sort_key. cbn [congratulation_date].
    apply strptime_strftime; [assumption|].
    pose proof (candidate_valid _ _ _ Hc) as Vo.
    apply date_add_days_toordinal in A as [_ T].
    unfold in_window in W. rewrite andb_true_iff, Z.leb_le, Z.ltb_lt in W.
    unfold days_between in W.
    assert (toordinal today <= toordinal c).
    { rewrite T. unfold weekend_shift.
      destruct (weekday occ =? 5); [lia|]. destruct (weekday occ =? 6); lia. }
    pose proof (toordinal_le_year today c Vt V). lia.
Qed.

(** The query returns whenever today is in the years 1000 to 9998 and
    no stored birthday is a 29 February. *)
Theorem upcoming_returns_without_feb29 (today : date) (book : AddressBook) :
  valid_date today = true ->
  1000 <= year today < 9999 ->
  (forall r b, In r (dict_values book) -> birthday r = Some b ->
               valid_date b = true /\ ~ (month b = 2 /\ day b = 29)) ->
  exists out, get_upcoming_birthdays today book = Ok out.
Proof.
  intros Vt Y H. apply get_upcoming_birthdays_returns; [assumption|lia|].
  intros r b Hr Hb. destruct (H r b Hr Hb) as [Vb N].
  pose proof (valid_date_fields today Vt) as (Ty & _).
  pose proof (valid_date_fields b Vb) as (_ & Hm & Hd).
  assert (D : forall y, 1 <= y <= 9999 ->
                date_new y (month b) (day b) = Ok (mkdate y (month b) (day b))).
  { intros y Hy. apply date_new_Ok. split; [reflexivity|].
    unfold valid_date, MINYEAR, MAXYEAR. cbn [year month day].
    pose proof (days_in_month_any_year (year b) y (month b) (day b) Hm
                  ltac:(lia) N).
    rewrite !andb_true_iff, !Z.leb_le. lia. }
  unfold candidate. rewrite D by lia. cbn [bind].
  destruct (date_ltb _ today); [rewrite D by lia|]; eauto.
Qed.

Lemma upcoming_returns_without_feb29_witness :
  exists out,
    get_upcoming_birthdays (mkdate 2023 12 30)
      [("Ann", mkRec "Ann" [] (Some (mkdate 1990 1 2)));
       ("Bo", mkRec "Bo" [] None)]
    = Ok out.
Proof.
  apply (upcoming_returns_without_feb29 (mkdate 2023 12 30)).
  - reflexivity.
  - cbn. lia.
  - intros r b [<-|[<-|[]]]; [|discriminate].
    intros [= <-]. split; [reflexivity|]. intros [? _]. discriminate.
Defined.

Lemma entries_of_names (today : date) (rs : list Rec) (n : string) :
  In n (map entry_name (flat_map (entries_of today) rs)) ->
  exists r, In r rs /\ n = name r /\ birthday r <> None.
Proof.
  intros H. apply in_map_iff in H as (e & <- & He).
  apply in_flat_map in He as (r & Hr & He).
  apply entries_of_In in He as (b & occ & c & Hb & _ & _ & _ & _ & _ & _ & ->).
  exists r. split; [assumption|]. split; [reflexivity|congruence].
Qed.

Lemma entries_of_NoDup (today : date) (rs : list Rec) :
  NoDup (map name rs) ->
  NoDup (map entry_name (flat_map (entries_of today) rs))
  /\ (List.length (flat_map (entries_of today) rs) <= List.length rs)%nat.
Proof.
  induction rs as [|r rs IH]; cbn [map flat_map]; intros N;
    [split; [constructor|apply Nat.le_refl]|].
  inversion N as [|? ? Nr Nrs]; subst. destruct (IH Nrs) as [IH1 IH2].
  assert (E : entries_of today r = []
              \/ exists e, entries_of today r = [e] /\ entry_name e = name r).
  { destruct (entries_of today r) as [|e l] eqn:E; [now left|right].
    assert (He : In e (entries_of today r)) by (rewrite E; now left).
    pose proof (entries_of_single _ _ _ He) as S.
    apply entries_of_In in He as (? & ? & ? & _ & _ & _ & _ & _ & _ & _ & ->).
    exists (mkentry (name r) (strftime x1)). rewrite <- E. auto. }
  destruct E as [->|(e & -> & En)]; cbn [app map List.length].
  - split; [assumption|lia].
  - split; [|lia]. constructor; [|assumption].
    rewrite En. intros Hin. apply entries_of_names in Hin as (r' & Hr' & E' & _).
    apply Nr. rewrite E'. now apply in_map.
Qed.

(** In a store whose keys are the names of its records no name is
    reported twice; the result has at most one entry for each record, and
    each entry carries the name of a stored record that has a birthday. *)
Theorem upcoming_each_once (today : date) (book : AddressBook)
  (out : list entry) :
  keys_match book ->
  NoDup (dict_keys book) ->
  get_upcoming_birthdays today book = Ok out ->
  NoDup (map entry_name out)
  /\ (List.length out <= List.length book)%nat
  /\ forall e, In e out ->
       exists r, In r (dict_values book)
                 /\ entry_name e = name r /\ birthday r <> None.
Proof.
  intros K N H. apply get_upcoming_birthdays_Ok in H as (_ & P & _).
  destruct (entries_of_NoDup today (dict_values book) (names_NoDup book K N))
    as [N1 L1].
  split; [|split].
  - eapply Permutation_NoDup; [apply Permutation_map, P|exact N1].
  - rewrite <- (Permutation_length P). unfold dict_values in L1.
    now rewrite length_map in L1.
  - intros e He. apply (Permutation_in _ (Permutation_sym P)) in He.
    apply (entries_of_names today). now apply in_map.
Qed.

Lemma upcoming_each_once_witness :
  NoDup (map entry_name [mkentry "Cy" "10.06.2024"; mkentry "Dd" "17.06.2024"]).
Proof.
  apply (upcoming_each_once (mkdate 2024 6 10)
           [("Cy", mkRec "Cy" [] (Some (mkdate 1990 6 10)));
            ("Bo", mkRec "Bo" [] None);
            ("Dd", mkRec "Dd" [] (Some (mkdate 1990 6 15)))]).
  - repeat constructor.
  - repeat constructor; cbn; intuition discriminate.
  - vm_compute. reflexivity.
Defined.

Lemma Sorted_map_snd {A K : Type} (R : K * A -> K * A -> Prop)
  (R' : A -> A -> Prop) (P : K * A -> Prop) (l : list (K * A)) :
  (forall a b, P a -> P b -> R a b -> R' (snd a) (snd b)) ->
  Forall P l -> Sorted R l -> Sorted R' (map snd l).
Proof.
  intros HR F S. induction S as [|a l S IH Hd]; cbn [map]; [constructor|].
  inversion F as [|? ? Pa Pl]; subst.
  constructor; [now apply IH|].
  destruct Hd as [|b l Rab]; cbn [map]; constructor.
  inversion Pl; subst. now apply HR.
Qed.

(** The result of the query is in ascending order of the reported
    dates. *)
Theorem upcoming_sorted (today : date) (book : AddressBook)
  (out : list entry) :
  get_upcoming_birthdays today book = Ok out ->
  Sorted entry_date_le out.
Proof.
  unfold get_upcoming_birthdays. intros H.
  destruct (upcoming_loop today (dict_values book) []) as [res|e] eqn:L;
    cbn [bind] in H; [|discriminate].
  apply upcoming_loop_Ok in L as [_ ->]. cbn [app] in H.
  unfold sorted in H.
  destruct (decorate sort_key (flat_map (entries_of today) (dict_values book)))
    as [kl|x] eqn:D; cbn [bind] in H; [|discriminate].
  injection H as <-. apply decorate_Ok in D as [M F].
  apply Sorted_map_snd
    with (R := fun a b => date_ltb (fst b) (fst a) = false)
         (P := fun kx => sort_key (snd kx) = Ok (fst kx)).
  - intros a b Pa Pb Rab. exists (fst a), (fst b).
    split; [assumption|]. split; [assumption|].
    pose proof (date_ltb_toordinal (fst b) (fst a)
                  (strptime_valid _ _ Pb) (strptime_valid _ _ Pa)) as T.
    destruct (Z.le_gt_cases (toordinal (fst a)) (toordinal (fst b)));
      [assumption|].
    assert (date_ltb (fst b) (fst a) = true) by (apply T; lia). congruence.
  - apply Forall_forall. intros kx Hkx. rewrite Forall_forall in F.
    apply F. now apply (Permutation_in _ (sort_by_perm kl)).
  - apply sort_by_sorted.
Qed.

Lemma upcoming_sorted_witness :
  Sorted entry_date_le
    [mkentry "Ee" "11.06.2024"; mkentry "Zed" "17.06.2024"].
Proof.
  apply (upcoming_sorted (mkdate 2024 6 10)
           [("Zed", mkRec "Zed" [] (Some (mkdate 1990 6 16)));
            ("Ee", mkRec "Ee" [] (Some (mkdate 1990 6 11)))]).
  vm_compute. reflexivity.
Defined.

(** ** The handlers *)

Lemma need_None (cmd : string) (args : list string) (n : Z) :
  need cmd args n = None <-> n <= Z.of_nat (List.length args).
Proof.
  unfold need. destruct (Z.ltb_spec (Z.of_nat (List.length args)) n);
    split; try discriminate; try reflexivity; lia.
Qed.

Lemma dict_set_same {V : Type} (k : string) (v : V) (d : list (string * V)) :
  dict_get k d = Some v -> dict_set k v d = d.
Proof.
  induction d as [|[k' v'] d IH]; cbn [dict_get dict_set]; [discriminate|].
  destruct (k' =? k)%string; [now intros [= ->]|].
  intros H. now rewrite IH.
Qed.

Lemma dict_set_twice {V : Type} (k : string) (v v' : V)
  (d : list (string * V)) :
  dict_set k v (dict_set k v' d) = dict_set k v d.
Proof.
  induction d as [|[k0 v0] d IH]; cbn [dict_set].
  - now rewrite String.eqb_refl.
  - destruct (k0 =? k)%string eqn:E; cbn [dict_set]; rewrite E;
      [reflexivity|now rewrite IH].
Qed.

Lemma dict_set_NoDup {V : Type} (k : string) (v : V) (d : list (string * V)) :
  NoDup (dict_keys d) -> NoDup (dict_keys (dict_set k v d)).
Proof.
  intros N. rewrite dict_set_keys. unfold dict_contains.
  destruct (dict_get k d) eqn:G; [assumption|].
  apply dict_get_None in G.
  apply NoDup_app; [assumption|repeat constructor; intros []|].
  intros x Hx [<-|[]]. contradiction.
Qed.

Lemma dict_set_Forall {V : Type} (P : string * V -> Prop) (k : string) (v : V)
  (d : list (string * V)) :
  Forall P d -> P (k, v) -> Forall P (dict_set k v d).
Proof.
  intros F Pk. induction F as [|[k' v'] d Pa Pd IH]; cbn [dict_set].
  - now repeat constructor.
  - destruct (k' =? k)%string eqn:E.
    + apply String.eqb_eq in E. subst k'. now constructor.
    + now constructor.
Qed.

Lemma dict_get_Forall {V : Type} (P : string * V -> Prop) (k : string) (v : V)
  (d : list (string * V)) :
  Forall P d -> dict_get k d = Some v -> P (k, v).
Proof.
  induction 1 as [|[k' v'] d Pa Pd IH]; cbn [dict_get]; [discriminate|].
  destruct (k' =? k)%string eqn:E; [|assumption].
  apply String.eqb_eq in E. subst k'. now intros [= <-].
Qed.

(** Writing back a record that is fine, under the key it was found
    under. *)
Lemma book_ok_update (today : date) (book : AddressBook) (k : string)
  (r r' : Rec) :
  book_ok today book ->
  find_record k book = Some r ->
  name r' = name r ->
  record_ok today r' ->
  book_ok today (dict_set k r' book).
Proof.
  intros [N F] G En Ok'. split; [now apply dict_set_NoDup|].
  apply dict_set_Forall; [assumption|].
  destruct (dict_get_Forall _ _ _ _ F G) as [Ek _]. cbn [fst snd] in *.
  split; [congruence|assumption].
Qed.

Lemma book_ok_find (today : date) (book : AddressBook) (k : string) (r : Rec) :
  book_ok today book -> find_record k book = Some r ->
  k = name r /\ record_ok today r.
Proof. intros [_ F] G. exact (dict_get_Forall _ _ _ _ F G). Qed.

Lemma book_ok_add_record (today : date) (book : AddressBook) (r : Rec) :
  book_ok today book -> record_ok today r ->
  book_ok today (add_record r book).
Proof.
  intros [N F] Ok'. split; [now apply dict_set_NoDup|].
  apply dict_set_Forall; [assumption|]. split; [reflexivity|assumption].
Qed.

Lemma trimmed_not_all_space (s : string) : trimmed s -> all_space s = false.
Proof.
  intros [(c & F & S) _]. destruct s; [discriminate|].
  cbn in F. injection F as ->. cbn [all_space]. now rewrite S.
Qed.

Lemma Name_Ok_trimmed (raw n : string) : Name raw = Ok n -> trimmed n.
Proof.
  unfold Name, strip. destruct (all_space raw) eqn:A.
  - rewrite (lstrip_all_space raw A). discriminate.
  - destruct (lstrip_not_all_space raw A) as (c & t & L & Sc & A').
    destruct (rstrip_not_all_space _ A') as (c' & t' & R & F & Z & I).
    cbn [first_char] in F. injection F as <-.
    rewrite L, R. cbn [String.eqb]. intros [= <-].
    split; [exists c; auto|exact Z].
Qed.

Lemma Record_new_ok (today : date) (nm : string) (r : Rec) :
  Record_new nm = Ok r -> record_ok today r /\ phones r = [] /\ birthday r = None.
Proof.
  unfold Record_new. destruct (Name nm) as [n|e] eqn:EN; cbn [bind];
    [|discriminate].
  intros [= <-]. cbn [name phones birthday].
  split; [|auto]. split; [|split].
  - cbn [name]. now apply Name_Ok_trimmed in EN.
  - split; constructor.
  - discriminate.
Qed.

Lemma snd_input_error (o : outcome) (book : AddressBook) :
  snd (input_error (o, book)) = book.
Proof. destruct o as [s|[m|m|m]|]; reflexivity. Qed.

Lemma add_phone_record_ok (today : date) (raw : string) (r : Rec) :
  record_ok today r ->
  name (snd (add_phone raw r)) = name r
  /\ birthday (snd (add_phone raw r)) = birthday r
  /\ record_ok today (snd (add_phone raw r)).
Proof.
  intros (T & P & B).
  assert (F : name (snd (add_phone raw r)) = name r
              /\ birthday (snd (add_phone raw r)) = birthday r).
  { unfold add_phone. destruct (Phone raw); cbn [snd]; [|auto].
    destruct (any_value _ _); cbn [negb snd]; auto. }
  destruct F as [F1 F2]. split; [assumption|]. split; [assumption|].
  split; [now rewrite F1|]. split; [now apply add_phone_inv|now rewrite F2].
Qed.

Lemma edit_phone_record_ok (today : date) (o n : string) (r : Rec) :
  record_ok today r ->
  name (snd (edit_phone o n r)) = name r
  /\ birthday (snd (edit_phone o n r)) = birthday r
  /\ record_ok today (snd (edit_phone o n r)).
Proof.
  intros (T & P & B).
  assert (F : name (snd (edit_phone o n r)) = name r
              /\ birthday (snd (edit_phone o n r)) = birthday r).
  { unfold edit_phone. destruct (Phone n); cbn [snd]; [|auto].
    destruct (edit_phone_loop _ _ _ _ _). cbn [snd]. auto. }
  destruct F as [F1 F2]. split; [assumption|]. split; [assumption|].
  split; [now rewrite F1|]. split; [now apply edit_phone_inv|now rewrite F2].
Qed.

Lemma add_birthday_record_ok (today : date) (s : string) (r : Rec) :
  record_ok today r ->
  name (snd (add_birthday today (VStr s) r)) = name r
  /\ phones (snd (add_birthday today (VStr s) r)) = phones r
  /\ (forall b, birthday r = Some b ->
        birthday (snd (add_birthday today (VStr s) r)) = Some b)
  /\ record_ok today (snd (add_birthday today (VStr s) r)).
Proof.
  intros Rok. unfold add_birthday.
  destruct (birthday r) as [b0|] eqn:Hb; cbn [snd]; [rewrite Hb; auto|].
  destruct (Birthday today (VStr s)) as [d|e] eqn:E; cbn [snd];
    [|rewrite Hb; auto].
  destruct Rok as (T & P & B).
  cbn [set_birthday name phones birthday].
  split; [reflexivity|]. split; [reflexivity|]. split; [discriminate|].
  split; [exact T|]. split; [exact P|].
  cbn [birthday]. intros b [= <-]. apply Birthday_VStr in E as [E F].
  split; [now apply strptime_valid in E|exact F].
Qed.

(** Every handler keeps the book well formed. *)
Lemma call_book_ok (h : handler) (today : date) (args : list string)
  (book : AddressBook) :
  book_ok today book -> book_ok today (snd (call h today args book)).
Proof.
  intros Hok. destruct h; cbn [call snd]; try assumption.
  - (* add_contact *)
    unfold add_contact_body.
    destruct (need "add" args 2); [assumption|].
    destruct args as [|nm [|ph rest]]; try assumption.
    destruct (find_record nm book) as [r|] eqn:G.
    + destruct (truthy ph); [|assumption].
      destruct (book_ok_find _ _ _ _ Hok G) as [_ Rok].
      destruct (add_phone_record_ok today ph r Rok) as (F1 & _ & Rok').
      destruct (add_phone ph r) as [res r'] eqn:A. cbn [snd] in *.
      assert (book_ok today (dict_set nm r' book))
        by (eapply book_ok_update; eauto).
      destruct res; rewrite snd_input_error; assumption.
    + destruct (Record_new nm) as [record|e] eqn:RN;
        [|rewrite snd_input_error; assumption].
      destruct (Record_new_ok today _ _ RN) as (Rok & _ & _).
      pose proof (book_ok_add_record _ _ _ Hok Rok) as Hok1.
      destruct (truthy ph); [|assumption].
      destruct (add_phone_record_ok today ph record Rok) as (F1 & _ & Rok').
      destruct (add_phone ph record) as [res r'] eqn:A. cbn [snd] in *.
      assert (book_ok today (dict_set (name record) r' (add_record record book))).
      { eapply book_ok_update; eauto.
        unfold find_record, add_record. apply dict_get_set_same. }
      destruct res; rewrite snd_input_error; assumption.
  - (* change *)
    unfold change_body.
    destruct (need "change" args 3); [assumption|].
    destruct args as [|nm [|o [|n rest]]]; try assumption.
    destruct (find_record nm book) as [r|] eqn:G; [|assumption].
    destruct (book_ok_find _ _ _ _ Hok G) as [_ Rok].
    destruct (edit_phone_record_ok today o n r Rok) as (F1 & _ & Rok').
    destruct (edit_phone o n r) as [res r'] eqn:A. cbn [snd] in *.
    assert (book_ok today (dict_set nm r' book))
      by (eapply book_ok_update; eauto).
    destruct res as [[|]|e]; rewrite snd_input_error; assumption.
  - (* phone *)
    unfold phone_body.
    destruct (need "phone" args 1); [assumption|].
    destruct args as [|nm rest]; [assumption|].
    destruct (find_record nm book) as [r|]; [|assumption].
    destruct (phones r); assumption.
  - (* show_all *)
    unfold show_all_body.
    destruct (need "all" args 0); [assumption|]. destruct book; assumption.
  - (* add_birthday *)
    unfold add_birthday_body.
    destruct (need "add-birthday" args 2); [assumption|].
    destruct args as [|nm [|bd rest]]; try assumption.
    destruct (find_record nm book) as [r|] eqn:G; [|assumption].
    destruct (book_ok_find _ _ _ _ Hok G) as [_ Rok].
    destruct (add_birthday_record_ok today bd r Rok) as (F1 & _ & _ & Rok').
    destruct (add_birthday today (VStr bd) r) as [res r'] eqn:A. cbn [snd] in *.
    assert (book_ok today (dict_set nm r' book))
      by (eapply book_ok_update; eauto).
    destruct res; rewrite snd_input_error; assumption.
  - (* show_birthday *)
    unfold show_birthday_body.
    destruct (need "show-birthday" args 1); [assumption|].
    destruct args as [|nm rest]; [assumption|].
    destruct (find_record nm book) as [r|]; [|assumption].
    destruct (birthday r); assumption.
  - (* birthdays *)
    unfold birthdays_body.
    destruct (need "birthdays" args 0); [assumption|].
    destruct (get_upcoming_birthdays today book) as [[|e l]|e];
      [assumption| |rewrite snd_input_error; assumption].
    destruct (sorted _ _); [assumption|rewrite snd_input_error; assumption].
Qed.

Lemma main_turn_book (today : date) (line : string) (book : AddressBook) :
  snd (fst (main_turn today line book)) = book
  \/ exists h args,
       snd (fst (main_turn today line book)) = snd (call h today args book)
       /\ snd (parse_command line) = args.
Proof.
  unfold main_turn. destruct (parse_command line) as [[cmd|] args]; [|now left].
  destruct (negb (truthy cmd)); [now left|].
  destruct (dict_get cmd COMMANDS) as [h|]; [|now left].
  right. exists h, args. destruct (call h today args book). auto.
Qed.

Lemma main_loop_cons (today : date) (line : string) (lines : list string)
  (book : AddressBook) :
  snd (main_loop today (line :: lines) book)
  = snd (fst (main_turn today line book))
  \/ snd (main_loop today (line :: lines) book)
     = snd (main_loop today lines (snd (fst (main_turn today line book)))).
Proof.
  cbn [main_loop]. destruct (main_turn today line book) as [[p b] stop].
  cbn [fst snd]. destruct stop; [now left|right].
  destruct (main_loop today lines b). reflexivity.
Qed.

(** The book stays well formed through the loop of [main], whatever the
    lines typed on one day: the keys are distinct and are the names of
    their records, every name is trimmed, every record's phones are ten
    digits each without repeats, and every birthday is a date of the
    calendar not after that day.  The empty book is well formed. *)
Theorem main_loop_book_ok (today : date) (book : AddressBook) :
  book_ok today []
  /\ (book_ok today book ->
      forall lines, book_ok today (snd (main_loop today lines book))).
Proof.
  split; [split; constructor|].
  intros Hok lines. revert book Hok.
  induction lines as [|line lines IH]; intros book Hok; [assumption|].
  assert (T : book_ok today (snd (fst (main_turn today line book)))).
  { destruct (main_turn_book today line book) as [->|(h & args & -> & _)];
      [assumption|now apply call_book_ok]. }
  destruct (main_loop_cons today line lines book) as [->| ->]; auto.
Qed.

Lemma main_loop_book_ok_witness :
  book_ok (mkdate 2024 6 10)
    (snd (main_loop (mkdate 2024 6 10)
            ["add John 093-123-45-67"; "add Bob 12";
             "add-birthday John 15.08.1992"; "change John 0931234567 x"]
            [])).
Proof.
  apply (proj2 (main_loop_book_ok (mkdate 2024 6 10) [])).
  split; constructor.
Defined.

Lemma dict_set_keys_app {V : Type} (k : string) (v : V)
  (d : list (string * V)) :
  exists added, dict_keys (dict_set k v d) = dict_keys d ++ added.
Proof.
  rewrite dict_set_keys. destruct (dict_contains k d); [exists []|exists [k]];
    [now rewrite app_nil_r|reflexivity].
Qed.

Lemma call_keys (h : handler) (today : date) (args : list string)
  (book : AddressBook) :
  exists added,
    dict_keys (snd (call h today args book)) = dict_keys book ++ added.
Proof.
  assert (Z : exists added : list string, dict_keys book = dict_keys book ++ added)
    by (exists []; now rewrite app_nil_r).
  destruct h; cbn [call snd]; try assumption.
  - unfold add_contact_body.
    destruct (need "add" args 2); [assumption|].
    destruct args as [|nm [|ph rest]]; try assumption.
    destruct (find_record nm book) as [r|] eqn:G.
    + destruct (truthy ph); [|assumption].
      destruct (add_phone ph r) as [res r'].
      destruct res; rewrite snd_input_error; apply dict_set_keys_app.
    + destruct (Record_new nm) as [record|e];
        [|rewrite snd_input_error; assumption].
      destruct (truthy ph); [|apply dict_set_keys_app].
      destruct (add_phone ph record) as [res r'].
      assert (exists added,
                 dict_keys (dict_set (name record) r' (add_record record book))
                 = dict_keys book ++ added).
      { unfold add_record. rewrite dict_set_twice. apply dict_set_keys_app. }
      destruct res; rewrite snd_input_error; assumption.
  - unfold change_body.
    destruct (need "change" args 3); [assumption|].
    destruct args as [|nm [|o [|n rest]]]; try assumption.
    destruct (find_record nm book) as [r|]; [|assumption].
    destruct (edit_phone o n r) as [res r'].
    destruct res as [[|]|e]; rewrite snd_input_error; apply dict_set_keys_app.
  - unfold phone_body.
    destruct (need "phone" args 1); [assumption|].
    destruct args as [|nm rest]; [assumption|].
    destruct (find_record nm book) as [r|]; [|assumption].
    destruct (phones r); assumption.
  - unfold show_all_body.
    destruct (need "all" args 0); [assumption|]. destruct book; assumption.
  - unfold add_birthday_body.
    destruct (need "add-birthday" args 2); [assumption|].
    destruct args as [|nm [|bd rest]]; try assumption.
    destruct (find_record nm book) as [r|]; [|assumption].
    destruct (add_birthday today (VStr bd) r) as [res r'].
    destruct res; rewrite snd_input_error; apply dict_set_keys_app.
  - unfold show_birthday_body.
    destruct (need "show-birthday" args 1); [assumption|].
    destruct args as [|nm rest]; [assumption|].
    destruct (find_record nm book) as [r|]; [|assumption].
    destruct (birthday r); assumption.
  - unfold birthdays_body.
    destruct (need "birthdays" args 0); [assumption|].
    destruct (get_upcoming_birthdays today book) as [[|e l]|e];
      [assumption| |rewrite snd_input_error; assumption].
    destruct (sorted _ _); [assumption|rewrite snd_input_error; assumption].
Qed.

(** No command removes a contact or moves one: through the loop of
    [main] the names in the book stay where they are, and new ones come
    after them. *)
Theorem main_loop_keeps_contacts (today : date) (lines : list string)
  (book : AddressBook) :
  exists added,
    dict_keys (snd (main_loop today lines book)) = dict_keys book ++ added.
Proof.
  revert book. induction lines as [|line lines IH]; intros book.
  - exists []. cbn. now rewrite app_nil_r.
  - assert (T : exists added,
               dict_keys (snd (fst (main_turn today line book)))
               = dict_keys book ++ added).
    { destruct (main_turn_book today line book) as [->|(h & args & -> & _)];
        [exists []; now rewrite app_nil_r|apply call_keys]. }
    destruct T as [a1 E1].
    destruct (main_loop_cons today line lines book) as [->| ->];
      [eauto|].
    destruct (IH (snd (fst (main_turn today line book)))) as [a2 E2].
    exists (a1 ++ a2). now rewrite E2, E1, app_assoc.
Qed.

Lemma edit_phone_unchanged (o n : string) (r : Rec) :
  fst (edit_phone o n r) <> Ok true -> snd (edit_phone o n r) = r.
Proof.
  pose proof (edit_phone_cases o n r) as C.
  destruct (Phone n) as [np|e]; [|now rewrite C].
  destruct C as [[_ ->]|(pre & post & _ & _ & ->)]; cbn [fst snd];
    [reflexivity|congruence].
Qed.

Lemma add_birthday_unchanged (today : date) (v : pyvalue) (r : Rec) :
  fst (add_birthday today v r) <> Ok tt -> snd (add_birthday today v r) = r.
Proof.
  unfold add_birthday. destruct (birthday r); [reflexivity|].
  destruct (Birthday today v); cbn [fst snd]; congruence.
Qed.

(** A command changes the book only when it succeeds, [add] apart: the
    handlers that only read never change it, [change] does so only when
    it answers that the number was changed, and [add-birthday] only when
    it answers that the birthday was added. *)
Theorem commands_change_on_success (today : date) (args : list string)
  (book : AddressBook) :
  (forall h,
      h <> add_contact -> h <> change -> h <> add_birthday_handler ->
      snd (call h today args book) = book)
  /\ (fst (call change today args book) <> number_changed ->
      snd (call change today args book) = book)
  /\ ((forall nm,
         fst (call add_birthday_handler today args book) <> birthday_added nm) ->
      snd (call add_birthday_handler today args book) = book).
Proof.
  split; [|split].
  - intros h N1 N2 N3. destruct h; try congruence; cbn [call snd];
      try reflexivity.
    + unfold phone_body. destruct (need "phone" args 1); [reflexivity|].
      destruct args as [|nm rest]; [reflexivity|].
      destruct (find_record nm book) as [r|]; [|reflexivity].
      destruct (phones r); reflexivity.
    + unfold show_all_body. destruct (need "all" args 0); [reflexivity|].
      destruct book; reflexivity.
    + unfold show_birthday_body.
      destruct (need "show-birthday" args 1); [reflexivity|].
      destruct args as [|nm rest]; [reflexivity|].
      destruct (find_record nm book) as [r|]; [|reflexivity].
      destruct (birthday r); reflexivity.
    + unfold birthdays_body. destruct (need "birthdays" args 0); [reflexivity|].
      destruct (get_upcoming_birthdays today book) as [[|e l]|e];
        [reflexivity| |apply snd_input_error].
      destruct (sorted _ _); [reflexivity|apply snd_input_error].
  - cbn [call]. unfold change_body.
    destruct (need "change" args 3); [reflexivity|].
    destruct args as [|nm [|o [|n rest]]]; try reflexivity.
    destruct (find_record nm book) as [r|] eqn:G; [|reflexivity].
    pose proof (edit_phone_unchanged o n r) as U.
    destruct (edit_phone o n r) as [res r'] eqn:A. cbn [fst snd] in U.
    destruct res as [[|]|e].
    + cbn [input_error fst]. intros H. now destruct H.
    + intros _. cbn [input_error snd]. rewrite U by discriminate.
      now apply dict_set_same.
    + intros _. rewrite snd_input_error, U by discriminate.
      now apply dict_set_same.
  - cbn [call]. unfold add_birthday_body.
    destruct (need "add-birthday" args 2); [reflexivity|].
    destruct args as [|nm [|bd rest]]; try reflexivity.
    destruct (find_record nm book) as [r|] eqn:G; [|reflexivity].
    pose proof (add_birthday_unchanged today (VStr bd) r) as U.
    destruct (add_birthday today (VStr bd) r) as [res r'] eqn:A.
    cbn [fst snd] in U. destruct res as [[]|e].
    + cbn [input_error fst]. intros H. now destruct (H nm).
    + intros _. rewrite snd_input_error, U by discriminate.
      now apply dict_set_same.
Qed.

Lemma commands_change_on_success_witness :
  snd (call change (mkdate 2024 6 10) ["Ann"; "0931234567"; "123"]
         [("Ann", mkRec "Ann" ["0931234567"] None)])
  = [("Ann", mkRec "Ann" ["0931234567"] None)].
Proof.
  apply (proj1 (proj2 (commands_change_on_success (mkdate 2024 6 10)
                         ["Ann"; "0931234567"; "123"]
                         [("Ann", mkRec "Ann" ["0931234567"] None)]))).
  vm_compute. discriminate.
Defined.

Lemma need_enough (cmd : string) (args : list string) (n : Z) :
  n <= Z.of_nat (List.length args) -> need cmd args n = None.
Proof. apply need_None. Qed.

Lemma Phone_raises_text (raw : string) (e : exn) :
  Phone raw = Raise e -> e = ValueError "Phone must contain exactly 10 digits".
Proof.
  unfold Phone. destruct (len (digits_only raw) =? 10); [discriminate|].
  now intros [= <-].
Qed.

Lemma Name_Ok_strip (raw n : string) : Name raw = Ok n -> n = strip raw.
Proof.
  unfold Name. destruct (strip raw =? "")%string; [discriminate|].
  now intros [= <-].
Qed.

(** [add] with a new name and a malformed phone answers with the error
    of the phone, and yet the contact is in the book afterwards, without
    a phone: the record is stored before the phone is checked. *)
Theorem add_contact_bad_phone (today : date) (nm ph n : string)
  (rest : list string) (book : AddressBook) (e : exn) :
  find_record nm book = None ->
  Name nm = Ok n ->
  truthy ph = true ->
  Phone ph = Raise e ->
  call add_contact today (nm :: ph :: rest) book
  = ((Fore_RED ++ "Phone must contain exactly 10 digits"
      ++ Style_RESET_ALL)%string,
     add_record (mkRec n [] None) book).
Proof.
  intros G EN T EP. cbn [call]. unfold add_contact_body.
  rewrite (need_enough "add" (nm :: ph :: rest) 2)
    by (cbn [List.length]; lia).
  rewrite G. unfold Record_new. rewrite EN. cbn [bind]. rewrite T.
  unfold add_phone. rewrite EP. apply Phone_raises_text in EP. subst e.
  cbn [input_error name]. unfold add_record. cbn [name].
  now rewrite dict_set_twice.
Qed.

Lemma add_contact_bad_phone_witness :
  call add_contact (mkdate 2024 6 10) ["Bob"; "12"] []
  = ((Fore_RED ++ "Phone must contain exactly 10 digits"
      ++ Style_RESET_ALL)%string,
     add_record (mkRec "Bob" [] None) []).
Proof.
  apply (add_contact_bad_phone (mkdate 2024 6 10) "Bob" "12" "Bob" [] []
           (ValueError "Phone must contain exactly 10 digits"));
    reflexivity.
Defined.

Lemma add_phone_In (raw p : string) (r : Rec) :
  Phone raw = Ok p ->
  fst (add_phone raw r) = Ok tt /\ In p (phones (snd (add_phone raw r))).
Proof.
  intros EP. unfold add_phone. rewrite EP.
  destruct (any_value p (phones r)) eqn:A; cbn [negb fst snd].
  - split; [reflexivity|now apply any_value_In].
  - split; [reflexivity|]. cbn [set_phones phones].
    apply in_or_app. right. now left.
Qed.

Lemma Phone_truthy (raw p : string) : Phone raw = Ok p -> truthy raw = true.
Proof. destruct raw; [discriminate|reflexivity]. Qed.

(** [add] with a trimmed name and a well-formed phone: afterwards the
    name is found and its record holds the phone; the answer tells
    whether the contact was new; every other name is looked up as
    before. *)
Theorem add_contact_success (today : date) (nm ph p : string)
  (rest : list string) (book : AddressBook) :
  Name nm = Ok nm ->
  Phone ph = Ok p ->
  fst (call add_contact today (nm :: ph :: rest) book)
  = match find_record nm book with
    | None => contact_added
    | Some _ => contact_updated
    end
  /\ (exists r,
        find_record nm (snd (call add_contact today (nm :: ph :: rest) book))
        = Some r
        /\ In p (phones r))
  /\ (forall k, k <> nm ->
        find_record k (snd (call add_contact today (nm :: ph :: rest) book))
        = find_record k book).
Proof.
  intros EN EP. cbn [call]. unfold add_contact_body.
  rewrite (need_enough "add" (nm :: ph :: rest) 2)
    by (cbn [List.length]; lia).
  rewrite (Phone_truthy _ _ EP).
  destruct (find_record nm book) as [r|] eqn:G.
  - destruct (add_phone_In ph p r EP) as [F I].
    destruct (add_phone ph r) as [res r'] eqn:A. cbn [fst snd] in F, I.
    subst res. cbn [input_error fst snd]. unfold find_record.
    split; [reflexivity|]. split.
    + exists r'. split; [apply dict_get_set_same|assumption].
    + intros k N. now apply dict_get_set_other.
  - unfold Record_new. rewrite EN. cbn [bind].
    destruct (add_phone_In ph p (mkRec nm [] None) EP) as [F I].
    destruct (add_phone ph (mkRec nm [] None)) as [res r'] eqn:A.
    cbn [fst snd] in F, I. subst res. cbn [input_error fst snd name].
    unfold find_record, add_record. cbn [name].
    split; [reflexivity|]. split.
    + exists r'. split; [apply dict_get_set_same|assumption].
    + intros k N. rewrite !dict_get_set_other by assumption. reflexivity.
Qed.

Lemma add_contact_success_witness :
  exists r,
    find_record "Ann"
      (snd (call add_contact (mkdate 2024 6 10) ["Ann"; "(093)123-45-67"]
              [("Ann", mkRec "Ann" ["0501112233"] None)]))
    = Some r
    /\ In "0931234567" (phones r).
Proof.
  refine (proj1 (proj2 (add_contact_success (mkdate 2024 6 10) "Ann"
                          "(093)123-45-67" "0931234567" []
                          [("Ann", mkRec "Ann" ["0501112233"] None)] _ _)));
    reflexivity.
Defined.

(** ** Lines and words *)

Lemma concat_empty_cons (x : string) (l : list string) :
  String.concat "" (x :: l) = (x ++ String.concat "" l)%string.
Proof.
  destruct l as [|y l]; cbn [String.concat].
  - clear. induction x as [|c x IH]; cbn [String.append]; [reflexivity|].
    now rewrite <- IH.
  - reflexivity.
Qed.

(** The words [split] gives are words, and between them they hold the
    characters of the string that are no whitespace, in order. *)
Lemma split_words (s : string) :
  Forall token (split s)
  /\ String.concat "" (split s) = without_space s.
Proof.
  induction s as [|c s [IHt IHc]]; [split; [constructor|reflexivity]|].
  cbn [split without_space].
  destruct (is_space c) eqn:Sc; [split; assumption|].
  destruct s as [|c' s'].
  - split; [|reflexivity]. constructor; [|constructor].
    split; [discriminate|]. cbn [no_space]. now rewrite Sc.
  - destruct (is_space c') eqn:Sc'.
    + split.
      * constructor; [|assumption].
        split; [discriminate|]. cbn [no_space]. now rewrite Sc.
      * rewrite concat_empty_cons, IHc. reflexivity.
    + destruct (split (String c' s')) as [|w ws] eqn:Sp.
      * cbn [without_space] in IHc. rewrite Sc' in IHc. discriminate.
      * inversion IHt as [|? ? [Wn Ws] Tws]; subst. split.
        -- constructor; [|assumption].
           split; [discriminate|]. cbn [no_space]. now rewrite Sc, Ws.
        -- rewrite concat_empty_cons in *. cbn [String.append].
           now rewrite IHc.
Qed.

Lemma without_space_all_space (s : string) :
  without_space s = EmptyString <-> all_space s = true.
Proof.
  induction s as [|c s IH]; cbn [without_space all_space]; [tauto|].
  destruct (is_space c); cbn [andb]; [exact IH|].
  split; discriminate.
Qed.

Lemma without_space_lstrip (s : string) :
  without_space (lstrip s) = without_space s.
Proof.
  induction s as [|c s IH]; cbn [lstrip without_space]; [reflexivity|].
  destruct (is_space c) eqn:E; [assumption|].
  cbn [without_space]. now rewrite E.
Qed.

Lemma without_space_rstrip (s : string) :
  without_space (rstrip s) = without_space s.
Proof.
  induction s as [|c s IH]; cbn [rstrip without_space]; [reflexivity|].
  destruct (rstrip s) as [|c' t] eqn:R.
  - cbn [without_space] in IH.
    destruct (is_space c) eqn:E; [assumption|].
    cbn [without_space]. now rewrite E, <- IH.
  - rewrite <- IH. reflexivity.
Qed.

Lemma without_space_strip (s : string) :
  without_space (strip s) = without_space s.
Proof.
  unfold strip. now rewrite without_space_rstrip, without_space_lstrip.
Qed.

Lemma lower_char_facts (c : ascii) :
  is_space (lower_char c) = is_space c
  /\ lower_char (lower_char c) = lower_char c.
Proof.
  destruct c as [[] [] [] [] [] [] [] []]; vm_compute; split; reflexivity.
Qed.

Lemma lower_token (s : string) :
  token s -> token (lower s) /\ lower (lower s) = lower s.
Proof.
  intros [Hn Hs]. split; [split|].
  - destruct s; [congruence|discriminate].
  - clear Hn. induction s as [|c s IH]; cbn [lower no_space] in *;
      [reflexivity|].
    apply andb_prop in Hs as [H1 H2].
    rewrite (proj1 (lower_char_facts c)), H1. now apply IH.
  - clear. induction s as [|c s IH]; cbn [lower]; [reflexivity|].
    now rewrite (proj2 (lower_char_facts c)), IH.
Qed.

Lemma string_app_assoc (a b c : string) :
  ((a ++ b) ++ c = a ++ (b ++ c))%string.
Proof.
  induction a as [|x a IH]; cbn [String.append]; [reflexivity|].
  now rewrite IH.
Qed.

Lemma all_space_app (a b : string) :
  all_space (a ++ b)%string = all_space a && all_space b.
Proof.
  induction a as [|x a IH]; cbn [String.append all_space]; [reflexivity|].
  now rewrite IH, andb_assoc.
Qed.

Lemma weave_app (rest : list (string * string)) (tail t : string) :
  (weave rest tail ++ t)%string = weave rest (tail ++ t)%string.
Proof.
  induction rest as [|[g w] rest IH]; cbn [weave]; [reflexivity|].
  now rewrite !string_app_assoc, IH.
Qed.

Lemma lstrip_decomp (s : string) :
  exists l, s = (l ++ lstrip s)%string /\ all_space l = true.
Proof.
  induction s as [|c s (l & E & A)]; cbn [lstrip].
  - exists EmptyString. auto.
  - destruct (is_space c) eqn:Sc.
    + exists (String c l). cbn [String.append all_space].
      rewrite Sc, A, <- E. auto.
    + exists EmptyString. auto.
Qed.

Lemma rstrip_decomp (s : string) :
  exists t, s = (rstrip s ++ t)%string /\ all_space t = true.
Proof.
  induction s as [|c s (t & E & A)]; cbn [rstrip].
  - exists EmptyString. auto.
  - destruct (rstrip s) as [|c' r] eqn:R.
    + cbn [String.append] in E. subst t.
      destruct (is_space c) eqn:Sc.
      * exists (String c s). cbn [String.append all_space].
        rewrite Sc, A. auto.
      * exists s. auto.
    + exists t. cbn [String.append] in *. rewrite <- E. auto.
Qed.

Lemma strip_decomp (s : string) :
  exists l t, s = (l ++ strip s ++ t)%string
              /\ all_space l = true /\ all_space t = true.
Proof.
  destruct (lstrip_decomp s) as (l & E & A).
  destruct (rstrip_decomp (lstrip s)) as (t & E' & A').
  exists l, t. unfold strip. rewrite <- E', <- E. auto.
Qed.

(** What [split] gives of a string that is not all whitespace: the
    string is its words, in order, with whitespace before the first,
    between two of them and after the last. *)
Lemma split_weave (s : string) :
  match split s with
  | [] => all_space s = true
  | w :: ws =>
      exists gap0 rest tail,
        s = (gap0 ++ w ++ weave rest tail)%string
        /\ all_space gap0 = true
        /\ all_space tail = true
        /\ token w
        /\ Forall (fun p => gap (fst p) /\ token (snd p)) rest
        /\ ws = map snd rest
  end.
Proof.
  induction s as [|c s IH]; [reflexivity|].
  cbn [split]. destruct (is_space c) eqn:Sc.
  - destruct (split s) as [|w ws].
    + cbn [all_space]. now rewrite Sc, IH.
    + destruct IH as (g & rest & tail & E & Ag & At & Tw & F & M).
      exists (String c g), rest, tail. cbn [String.append all_space].
      rewrite Sc, Ag, <- E. auto 8.
  - assert (Tc : forall w, no_space w = true -> token (String c w))
      by (intros w Hw; split; [discriminate|];
          cbn [no_space]; now rewrite Sc, Hw).
    destruct s as [|c' s'].
    + exists EmptyString, [], EmptyString. cbn [String.append weave map].
      auto 8.
    + destruct (is_space c') eqn:Sc'.
      * destruct (split (String c' s')) as [|w ws].
        -- exists EmptyString, [], (String c' s').
           cbn [String.append weave map]. auto 8.
        -- destruct IH as (g & rest & tail & E & Ag & At & Tw & F & M).
           exists EmptyString, ((g, w) :: rest), tail.
           cbn [String.append weave map snd]. rewrite <- E, M.
           split; [reflexivity|]. split; [reflexivity|].
           split; [assumption|]. split; [now apply Tc|].
           split; [|reflexivity].
           constructor; [|assumption]. cbn [fst snd].
           split; [|assumption]. split; [|assumption].
           intros ->. cbn [String.append] in E.
           destruct Tw as [Wn Ws]. destruct w as [|x w]; [congruence|].
           cbn [String.append no_space] in *. injection E as <- _.
           rewrite Sc' in Ws. discriminate.
      * destruct (split (String c' s')) as [|w ws].
        -- cbn [all_space] in IH. rewrite Sc' in IH. discriminate.
        -- destruct IH as (g & rest & tail & E & Ag & At & Tw & F & M).
           assert (g = EmptyString) as ->.
           { destruct g as [|x g]; [reflexivity|].
             cbn [String.append all_space] in *. injection E as <- _.
             rewrite Sc' in Ag. discriminate. }
           cbn [String.append] in E.
           exists EmptyString, rest, tail. cbn [String.append].
           rewrite <- E. split; [reflexivity|]. split; [reflexivity|].
           split; [assumption|]. split; [apply Tc, Tw|]. auto.
Qed.

(** [parse_command] gives no command exactly on a blank line.  Otherwise
    the line is a first word and further words, with whitespace before
    the first word, between two words and after the last one, and
    nowhere else; the command is the first word in lower case and the
    arguments are the further words, in order.  So the command is a word
    in lower case, the arguments are words, and the first word followed
    by the arguments holds the characters of the line that are no
    whitespace, in order. *)
Theorem parse_command_words (line : string) :
  match parse_command line with
  | (None, args) => args = [] /\ all_space line = true
  | (Some cmd, args) =>
      token cmd
      /\ lower cmd = cmd
      /\ Forall token args
      /\ all_space line = false
      /\ exists w gap0 rest tail,
           line = (gap0 ++ w ++ weave rest tail)%string
           /\ all_space gap0 = true
           /\ all_space tail = true
           /\ token w
           /\ Forall (fun p => gap (fst p) /\ token (snd p)) rest
           /\ cmd = lower w
           /\ args = map snd rest
           /\ String.concat "" (w :: args) = without_space line
  end.
Proof.
  unfold parse_command.
  destruct (split_words (strip line)) as [T C].
  rewrite without_space_strip in C.
  pose proof (split_weave (strip line)) as W.
  destruct (split (strip line)) as [|w ws].
  - split; [reflexivity|]. apply without_space_all_space. now rewrite <- C.
  - inversion T as [|? ? Tw Tws]; subst.
    destruct (lower_token w Tw) as [Tl Il].
    split; [assumption|]. split; [assumption|]. split; [assumption|]. split.
    + destruct (all_space line) eqn:A; [|reflexivity].
      apply without_space_all_space in A. rewrite A in C.
      rewrite concat_empty_cons in C. destruct Tw as [Wn _].
      destruct w; [congruence|discriminate].
    + destruct W as (g & rest & tail & E & Ag & At & _ & F & M).
      destruct (strip_decomp line) as (l & t & El & Al & At').
      exists w, (l ++ g)%string, rest, (tail ++ t)%string.
      split.
      { rewrite <- weave_app, string_app_assoc, <- (string_app_assoc w),
          <- (string_app_assoc g), <- E.
        exact El. }
      rewrite !all_space_app, Al, Ag, At, At'. auto 8.
Qed.

Lemma token_strip (s : string) : token s -> strip s = s.
Proof.
  intros [Hn Hs]. unfold strip.
  assert (L : lstrip s = s).
  { destruct s as [|c s]; [reflexivity|]. cbn [lstrip no_space] in *.
    apply andb_prop in Hs as [H _]. now destruct (is_space c). }
  rewrite L. clear L.
  induction s as [|c s IH]; [congruence|].
  cbn [no_space] in Hs. apply andb_prop in Hs as [H1 H2].
  cbn [rstrip]. destruct s as [|c' s'].
  - cbn [rstrip]. now destruct (is_space c).
  - rewrite IH by (try discriminate; assumption). reflexivity.
Qed.

Lemma token_Name (s : string) : token s -> Name s = Ok s.
Proof.
  intros T. unfold Name. rewrite (token_strip s T).
  destruct T as [Hn _]. destruct s; [congruence|reflexivity].
Qed.

Lemma parse_command_args (line : string) :
  Forall token (snd (parse_command line)).
Proof.
  unfold parse_command. destruct (split_words (strip line)) as [T _].
  destruct (split (strip line)); [constructor|].
  now inversion T.
Qed.

Lemma kept_update (book : AddressBook) (k nm : string) (r r0 r0' : Rec)
  (b : date) :
  find_record k book = Some r ->
  birthday r = Some b ->
  find_record nm book = Some r0 ->
  (birthday r0 = Some b -> birthday r0' = Some b) ->
  exists r', find_record k (dict_set nm r0' book) = Some r'
             /\ birthday r' = Some b.
Proof.
  unfold find_record. intros G Hb G0 F.
  destruct (String.eqb_spec k nm) as [->|N].
  - rewrite dict_get_set_same. exists r0'. split; [reflexivity|].
    apply F. congruence.
  - rewrite dict_get_set_other by assumption. eauto.
Qed.

Lemma add_phone_birthday (raw : string) (r : Rec) :
  birthday (snd (add_phone raw r)) = birthday r.
Proof.
  unfold add_phone. destruct (Phone raw); cbn [snd]; [|reflexivity].
  destruct (any_value _ _); reflexivity.
Qed.

Lemma edit_phone_birthday (o n : string) (r : Rec) :
  birthday (snd (edit_phone o n r)) = birthday r.
Proof.
  unfold edit_phone. destruct (Phone n); cbn [snd]; [|reflexivity].
  destruct (edit_phone_loop _ _ _ _ _). reflexivity.
Qed.

Lemma add_birthday_birthday (today : date) (v : pyvalue) (r : Rec) (b : date) :
  birthday r = Some b -> birthday (snd (add_birthday today v r)) = Some b.
Proof. intros H. unfold add_birthday. now rewrite H. Qed.

Lemma call_birthday_kept (h : handler) (today : date) (args : list string)
  (book : AddressBook) (k : string) (r : Rec) (b : date) :
  Forall token args ->
  find_record k book = Some r ->
  birthday r = Some b ->
  exists r', find_record k (snd (call h today args book)) = Some r'
             /\ birthday r' = Some b.
Proof.
  intros T G Hb.
  assert (Z : exists r', find_record k book = Some r' /\ birthday r' = Some b)
    by eauto.
  destruct h; cbn [call snd]; try assumption.
  - unfold add_contact_body.
    destruct (need "add" args 2); [assumption|].
    destruct args as [|nm [|ph rest]]; try assumption.
    destruct (find_record nm book) as [r0|] eqn:G0.
    + destruct (truthy ph); [|assumption].
      pose proof (add_phone_birthday ph r0) as B.
      destruct (add_phone ph r0) as [res r0'] eqn:A. cbn [snd] in B.
      assert (exists r', find_record k (dict_set nm r0' book) = Some r'
                         /\ birthday r' = Some b)
        by (eapply kept_update; eauto; congruence).
      destruct res; rewrite snd_input_error; assumption.
    + inversion T as [|? ? Tn _]; subst.
      unfold Record_new. rewrite (token_Name nm Tn). cbn [bind].
      assert (N : k <> nm) by congruence.
      assert (K : forall v, find_record k (add_record (mkRec nm [] None) book)
                            = find_record k book
                            /\ find_record k
                                 (dict_set nm v (add_record (mkRec nm [] None) book))
                               = find_record k book).
      { intros v. unfold find_record, add_record. cbn [name].
        now rewrite !dict_get_set_other by assumption. }
      destruct (truthy ph);
        [|cbn [input_error snd]; rewrite (proj1 (K r)); assumption].
      destruct (add_phone ph (mkRec nm [] None)) as [res r'].
      cbn [name].
      destruct res; rewrite snd_input_error, (proj2 (K r')); assumption.
  - unfold change_body.
    destruct (need "change" args 3); [assumption|].
    destruct args as [|nm [|o [|n rest]]]; try assumption.
    destruct (find_record nm book) as [r0|] eqn:G0; [|assumption].
    pose proof (edit_phone_birthday o n r0) as B.
    destruct (edit_phone o n r0) as [res r0'] eqn:A. cbn [snd] in B.
    assert (exists r', find_record k (dict_set nm r0' book) = Some r'
                       /\ birthday r' = Some b)
      by (eapply kept_update; eauto; congruence).
    destruct res as [[|]|e]; rewrite snd_input_error; assumption.
  - unfold phone_body.
    destruct (need "phone" args 1); [assumption|].
    destruct args as [|nm rest]; [assumption|].
    destruct (find_record nm book) as [r0|]; [|assumption].
    destruct (phones r0); assumption.
  - unfold show_all_body.
    destruct (need "all" args 0); [assumption|]. destruct book; assumption.
  - unfold add_birthday_body.
    destruct (need "add-birthday" args 2); [assumption|].
    destruct args as [|nm [|bd rest]]; try assumption.
    destruct (find_record nm book) as [r0|] eqn:G0; [|assumption].
    pose proof (add_birthday_birthday today (VStr bd) r0 b) as B.
    destruct (add_birthday today (VStr bd) r0) as [res r0'] eqn:A.
    cbn [snd] in B.
    assert (exists r', find_record k (dict_set nm r0' book) = Some r'
                       /\ birthday r' = Some b)
      by (eapply kept_update; eauto).
    destruct res; rewrite snd_input_error; assumption.
  - unfold show_birthday_body.
    destruct (need "show-birthday" args 1); [assumption|].
    destruct args as [|nm rest]; [assumption|].
    destruct (find_record nm book) as [r0|]; [|assumption].
    destruct (birthday r0); assumption.
  - unfold birthdays_body.
    destruct (need "birthdays" args 0); [assumption|].
    destruct (get_upcoming_birthdays today book) as [[|e l]|e];
      [assumption| |rewrite snd_input_error; assumption].
    destruct (sorted _ _); [assumption|rewrite snd_input_error; assumption].
Qed.

(** A birthday, once set, stays: whatever lines are typed afterwards,
    the contact is still in the book with the same birthday. *)
Theorem main_loop_birthday_kept (today : date) (lines : list string)
  (book : AddressBook) (k : string) (r : Rec) (b : date) :
  find_record k book = Some r ->
  birthday r = Some b ->
  exists r', find_record k (snd (main_loop today lines book)) = Some r'
             /\ birthday r' = Some b.
Proof.
  revert book r. induction lines as [|line lines IH]; intros book r G Hb;
    [cbn; eauto|].
  assert (T : exists r1, find_record k (snd (fst (main_turn today line book)))
                         = Some r1 /\ birthday r1 = Some b).
  { destruct (main_turn_book today line book) as [->|(h & args & -> & E)];
      [eauto|].
    eapply call_birthday_kept; eauto. rewrite <- E. apply parse_command_args. }
  destruct T as (r1 & G1 & B1).
  destruct (main_loop_cons today line lines book) as [->| ->]; eauto.
Qed.

Lemma main_loop_birthday_kept_witness :
  exists r',
    find_record "Ann"
      (snd (main_loop (mkdate 2024 6 10)
              ["add-birthday Ann 01.01.2000"; "add Ann 0931234567"]
              [("Ann", mkRec "Ann" [] (Some (mkdate 1992 8 15)))]))
    = Some r'
    /\ birthday r' = Some (mkdate 1992 8 15).
Proof.
  apply (main_loop_birthday_kept (mkdate 2024 6 10)
           ["add-birthday Ann 01.01.2000"; "add Ann 0931234567"]
           [("Ann", mkRec "Ann" [] (Some (mkdate 1992 8 15)))] "Ann"
           (mkRec "Ann" [] (Some (mkdate 1992 8 15)))); reflexivity.
Defined.

(** ** The grouping of [birthdays] *)

Lemma setdefault_append_get (k v d : string)
  (by_date : list (string * list string)) :
  dict_get d (setdefault_append k v by_date)
  = if (d =? k)%string
    then Some (match dict_get k by_date with
               | Some l => l ++ [v]
               | None => [v]
               end)
    else dict_get d by_date.
Proof.
  unfold setdefault_append.
  destruct (String.eqb_spec d k) as [->|N].
  - destruct (dict_get k by_date); now rewrite dict_get_set_same.
  - destruct (dict_get k by_date); now rewrite dict_get_set_other.
Qed.

Lemma group_fold (schedule seen : list entry)
  (by_date : list (string * list string)) :
  (forall d, dict_get d by_date
             = match names_on d seen with [] => None | l => Some l end) ->
  forall d,
    dict_get d
      (fold_left
         (fun acc item =>
            setdefault_append (congratulation_date item) (entry_name item) acc)
         schedule by_date)
    = match names_on d (seen ++ schedule) with [] => None | l => Some l end.
Proof.
  revert seen by_date.
  induction schedule as [|item schedule IH]; intros seen by_date H d.
  - rewrite app_nil_r. apply H.
  - cbn [fold_left].
    replace (seen ++ item :: schedule) with ((seen ++ [item]) ++ schedule)
      by (now rewrite <- app_assoc).
    apply IH. clear d. intros d. rewrite setdefault_append_get.
    unfold names_on. rewrite filter_app, map_app. cbn [filter].
    assert (HD : has_date d item = (d =? congratulation_date item)%string)
      by (unfold has_date; apply String.eqb_sym).
    rewrite HD. destruct (d =? congratulation_date item)%string eqn:E.
    + apply String.eqb_eq in E. subst d. rewrite H. unfold names_on.
      cbn [map].
      destruct (map entry_name (filter _ seen)) as [|x l]; reflexivity.
    + cbn [map]. rewrite app_nil_r. apply H.
Qed.

(** The grouping of [birthdays]: under each date stand the names of the
    entries of that date, in the order of the schedule, and a date
    without an entry is no key. *)
Theorem group_by_date_lookup (schedule : list entry) (d : string) :
  dict_get d (group_by_date schedule)
  = match names_on d schedule with
    | [] => None
    | names => Some names
    end.
Proof.
  unfold group_by_date.
  apply (group_fold schedule [] []). reflexivity.
Qed.
